(** * RadioStation: deduplication ledger, slicing and bank assignment

    A shallow embedding of the deduplication and assignment core of the
    RadioStation sampler:

    - [app/hash_manager.py]: URL normalisation, the SQLite ledger
      ([used_urls], [audio_hashes]) with its check-and-insert transactions,
      and [calculate_file_hash];
    - [app/downloader.py]: [_is_duplicate], sequential slicing
      ([_process_to_candidate_slices]) and the download strategy of
      [_download_one];
    - [app/pipeline.py]: [_count_in_bank], [_move_to_theme],
      [_assign_with_scoring] and the bank filling loops of [run_pipeline].

    Python [str] values are modelled as [string] (sequences of bytes, the
    ASCII range being what the regular expressions and [lower()] act on in
    URLs), dictionaries keyed by theme name as [gmap string _], SQL tables
    as lists of rows with their constraints checked on insertion, and
    [try]/[except] blocks with an explicit error monad. *)

From Stdlib Require Import ZArith QArith Qround Ascii String.
From stdpp Require Import base option list strings gmap.

Local Open Scope string_scope.

(** ** Strings *)

Module Str.

(** [s.startswith(lit)], returning what follows the literal. *)
Fixpoint strip_prefix (lit s : string) : option string :=
  match lit with
  | EmptyString => Some s
  | String a lit' =>
      match s with
      | EmptyString => None
      | String b s' => if Ascii.eqb a b then strip_prefix lit' s' else None
      end
  end.

(** [c in s]. *)
Fixpoint has_char (c : ascii) (s : string) : bool :=
  match s with
  | EmptyString => false
  | String b s' => Ascii.eqb c b || has_char c s'
  end.

(** [s.endswith(suffix)]. *)
Fixpoint ends_with (suffix s : string) : bool :=
  if String.eqb suffix s then true
  else match s with
       | EmptyString => false
       | String _ s' => ends_with suffix s'
       end.

Definition is_upper (c : ascii) : bool :=
  (65 <=? nat_of_ascii c)%nat && (nat_of_ascii c <=? 90)%nat.

Definition lower_char (c : ascii) : ascii :=
  if is_upper c then ascii_of_nat (nat_of_ascii c + 32) else c.

(** [s.lower()] on the ASCII range. *)
Fixpoint lower (s : string) : string :=
  match s with
  | EmptyString => EmptyString
  | String c s' => String (lower_char c) (lower s')
  end.

(** Whether every character of [s] satisfies [p]. *)
Fixpoint all_chars (p : ascii -> bool) (s : string) : bool :=
  match s with
  | EmptyString => true
  | String c s' => p c && all_chars p s'
  end.

(** Truthiness of a Python string: non-empty. *)
Definition truthy (s : string) : bool :=
  match s with EmptyString => false | String _ _ => true end.

End Str.

(** ** URL normalisation ([hash_manager.py], lines 20-26 and 253-277) *)

Module Url.

(** The character class [[a-zA-Z0-9_-]]. *)
Definition is_id_char (c : ascii) : bool :=
  let n := nat_of_ascii c in
  ((97 <=? n) && (n <=? 122) || (65 <=? n) && (n <=? 90)
   || (48 <=? n) && (n <=? 57) || (n =? 95) || (n =? 45))%nat.

(** The greedy group [([a-zA-Z0-9_-]+)] read at the head of [s]: the longest
    run of class characters and what follows it. *)
Fixpoint span_id (s : string) : string * string :=
  match s with
  | EmptyString => (EmptyString, EmptyString)
  | String c s' =>
      if is_id_char c
      then let '(g, r) := span_id s' in (String c g, r)
      else (EmptyString, s)
  end.

(** One alternative of a pattern tried at the head of [s]: the literal, then
    at least one class character.  The result is [match.group(1)]. *)
Definition group_at (lit s : string) : option string :=
  match Str.strip_prefix lit s with
  | Some rest =>
      match span_id rest with
      | (EmptyString, _) => None
      | (g, _) => Some g
      end
  | None => None
  end.

(** The alternation [(?:l1|l2|...)] at the head of [s]: alternatives are tried
    in the order they are written. *)
Fixpoint first_alt (lits : list string) (s : string) : option string :=
  match lits with
  | [] => None
  | lit :: lits' =>
      match group_at lit s with
      | Some g => Some g
      | None => first_alt lits' s
      end
  end.

(** [pattern.search(url)]: the leftmost position at which the pattern
    matches. *)
Fixpoint re_search (lits : list string) (s : string) : option string :=
  match first_alt lits s with
  | Some g => Some g
  | None =>
      match s with
      | EmptyString => None
      | String _ s' => re_search lits s'
      end
  end.

(** [YOUTUBE_URL_PATTERNS]: each pattern is a list of literal alternatives
    followed by the group [([a-zA-Z0-9_-]+)]. *)
Definition pattern1 : list string :=
  ["youtube.com/watch?v="; "youtu.be/"; "youtube.com/embed/"].
Definition pattern2 : list string := ["youtube.com/v/"].
Definition pattern3 : list string := ["youtube.com/shorts/"].

Definition YOUTUBE_URL_PATTERNS : list (list string) :=
  [pattern1; pattern2; pattern3].

(** The [for pattern in YOUTUBE_URL_PATTERNS] loop with its [break]. *)
Fixpoint first_match (patterns : list (list string)) (url : string)
  : option string :=
  match patterns with
  | [] => None
  | p :: ps =>
      match re_search p url with
      | Some g => Some g
      | None => first_match ps url
      end
  end.

Definition extract_video_id (url : string) : option string :=
  first_match YOUTUBE_URL_PATTERNS url.

(** The fields of [urllib.parse.urlparse]'s result that [normalize_url]
    reads. *)
Record ParseResult := mkParse {
  scheme : string;
  netloc : string;
  path : string
}.

Definition watch_url (video_id : string) : string :=
  "https://www.youtube.com/watch?v=" +:+ video_id.

(** A video id as the patterns read one: a non-empty run of class
    characters. *)
Definition valid_id (v : string) : bool :=
  Str.truthy v && Str.all_chars is_id_char v.

(** Every literal of the patterns starts with [y]. *)
Definition starts_with_y (lit : string) : Prop :=
  exists l, lit = String "y" l.

(** What may follow an id in a URL: nothing, or text whose first character
    is outside the class ([&t=10s], [?si=...], [#t=5]). *)
Definition ends_id (rest : string) : bool :=
  match rest with
  | EmptyString => true
  | String c _ => negb (is_id_char c)
  end.

Section Normalize.

(** [urlparse] belongs to the Python standard library; the embedding takes it
    as a parameter. *)
Variable urlparse : string -> ParseResult.

(** The [else] branch: scheme, lower-cased host and path, the query
    dropped; the URL itself when host or path is missing. *)
Definition fallback_url (url : string) : string :=
  let parsed := urlparse url in
  if Str.truthy (netloc parsed) && Str.truthy (path parsed)
  then scheme parsed +:+ "://" +:+ Str.lower (netloc parsed) +:+ path parsed
  else url.

Definition normalize_url (url : string) : string * option string :=
  match extract_video_id url with
  | Some video_id =>
      if Str.truthy video_id
      then (watch_url video_id, Some video_id)
      else (fallback_url url, None)
  | None => (fallback_url url, None)
  end.

(** What the embedding asks of [urlparse]: the query is split off, so that
    scheme, host and path hold no question mark. *)
Definition splits_query : Prop :=
  forall u,
    Str.has_char "?" (scheme (urlparse u)) = false
    /\ Str.has_char "?" (netloc (urlparse u)) = false
    /\ Str.has_char "?" (path (urlparse u)) = false.

End Normalize.

End Url.

(** ** The standard library's URL splitting

    [urllib.parse.urlparse] on its main path: scheme up to the first colon
    when it is made of scheme characters, authority after [//] up to the
    first of [/?#], fragment and query cut off, parameters of the last path
    segment cut off for the schemes that use them. *)

Module UrlLib.

Definition is_alpha (c : ascii) : bool :=
  let n := nat_of_ascii c in
  ((97 <=? n) && (n <=? 122) || (65 <=? n) && (n <=? 90))%nat.

Definition is_scheme_char (c : ascii) : bool :=
  let n := nat_of_ascii c in
  (is_alpha c || (48 <=? n) && (n <=? 57) || (n =? 43) || (n =? 45) || (n =? 46))%nat.

(** [s.split(c, 1)]: the text before the first [c], and the text after it
    when there is one. *)
Fixpoint split_at (c : ascii) (s : string) : string * option string :=
  match s with
  | EmptyString => (EmptyString, None)
  | String b s' =>
      if Ascii.eqb c b then (EmptyString, Some s')
      else let '(l, r) := split_at c s' in (String b l, r)
  end.

Definition split_scheme (url : string) : string * string :=
  match split_at ":" url with
  | (String c pre, Some rest) =>
      if is_alpha c && Str.all_chars is_scheme_char (String c pre)
      then (Str.lower (String c pre), rest)
      else (EmptyString, url)
  | _ => (EmptyString, url)
  end.

(** [_splitnetloc]: the authority ends at the first of [/], [?], [#]. *)
Fixpoint split_netloc (s : string) : string * string :=
  match s with
  | EmptyString => (EmptyString, EmptyString)
  | String c s' =>
      if Ascii.eqb c "/" || Ascii.eqb c "?" || Ascii.eqb c "#"
      then (EmptyString, s)
      else let '(n, r) := split_netloc s' in (String c n, r)
  end.

(** [_splitparams]: the path is cut at the first [;] of its last segment. *)
Fixpoint split_params (s : string) : string :=
  match s with
  | EmptyString => EmptyString
  | String c s' =>
      if Ascii.eqb c ";" && negb (Str.has_char "/" s')
      then EmptyString
      else String c (split_params s')
  end.

Definition uses_params : list string :=
  [""; "ftp"; "hdl"; "prospero"; "http"; "imap"; "https"; "shttp"; "rtsp";
   "rtspu"; "sip"; "sips"; "mms"; "sftp"; "tel"].

Definition urlparse (url : string) : Url.ParseResult :=
  let '(sch, url1) := split_scheme url in
  let '(net, url2) :=
    match Str.strip_prefix "//" url1 with
    | Some after => split_netloc after
    | None => (EmptyString, url1)
    end in
  let url3 := fst (split_at "#" url2) in
  let url4 := fst (split_at "?" url3) in
  let pth := if bool_decide (sch ∈ uses_params) then split_params url4 else url4 in
  Url.mkParse sch net pth.

End UrlLib.


(** ** Outcomes of statements that may raise *)

Inductive res (E A : Type) : Type :=
  | Ok (a : A)
  | Raise (e : E).
Arguments Ok {E A} a.
Arguments Raise {E A} e.

(** ** The ledger ([hash_manager.py], class [HashManager])

    The two tables, the connection with its open transaction, and the
    statements the methods execute.  Every method body runs under
    [with self._lock], so calls are modelled one after the other.  The
    [timestamp] columns, filled by the database's default, are left out. *)

Module Ledger.

Record UrlRow := mkUrlRow {
  url : string;                    (* PRIMARY KEY *)
  normalized_url : option string;
  video_id : option string;
  title : option string;
  search_term : option string;
  theme_name : option string
}.

Record HashRow := mkHashRow {
  hash : string;                   (* PRIMARY KEY *)
  file_path : option string;
  hash_url : option string;
  metadata : option string
}.

Record Tables := mkTables {
  audio_hashes : list HashRow;
  used_urls : list UrlRow
}.

(** A connection: the committed tables and, while a transaction is open, its
    working copy. *)
Record Conn := mkConn {
  committed : Tables;
  pending : option Tables
}.

Definition empty_tables : Tables := mkTables [] [].
Definition fresh_conn : Conn := mkConn empty_tables None.

(** What statements see: the working copy inside a transaction. *)
Definition current (c : Conn) : Tables := default (committed c) (pending c).

Inductive SqliteError := OperationalError | IntegrityError.

(** The statements of one check-and-insert, and the storage layer's choice of
    which of them fail (lock timeout, I/O error, full disk, ...). *)
Inductive Stmt := SBegin | SSelect | SInsert | SCommit.
Definition Faults := Stmt -> bool.
Definition no_faults : Faults := fun _ => false.

(** The storage layer failing at one statement. *)
Definition fail_at (s : Stmt) : Faults :=
  fun s' =>
    match s, s' with
    | SBegin, SBegin | SSelect, SSelect | SInsert, SInsert | SCommit, SCommit => true
    | _, _ => false
    end.

(** Computations on the connection that may raise [sqlite3.Error]; the
    connection is threaded through a raise, as the transaction stays open
    until it is rolled back. *)
Definition Tx (A : Type) : Type := Conn -> Conn * res SqliteError A.

#[global] Instance tx_ret : MRet Tx := fun A a c => (c, Ok a).

#[global] Instance tx_bind : MBind Tx := fun A B k m c =>
  match m c with
  | (c', Ok a) => k a c'
  | (c', Raise e) => (c', Raise e)
  end.

(** [execute('BEGIN IMMEDIATE TRANSACTION')]. *)
Definition execute_begin (f : Faults) : Tx unit :=
  fun c =>
    if f SBegin then (c, Raise OperationalError)
    else match pending c with
         | Some _ => (c, Raise OperationalError)
         | None => (mkConn (committed c) (Some (committed c)), Ok tt)
         end.

(** [self._conn.commit()]. *)
Definition commit (f : Faults) : Tx unit :=
  fun c =>
    if f SCommit then (c, Raise OperationalError)
    else (mkConn (current c) None, Ok tt).

(** [self._conn.rollback()]. *)
Definition rollback (c : Conn) : Conn := mkConn (committed c) None.

Definition tx_rollback : Tx unit := fun c => (rollback c, Ok tt).

(** [SELECT 1 FROM used_urls WHERE ...] followed by [fetchone()]: whether a
    row satisfies the condition. *)
Definition select_url (f : Faults) (cond : UrlRow -> bool) : Tx bool :=
  fun c =>
    if f SSelect then (c, Raise OperationalError)
    else (c, Ok (existsb cond (used_urls (current c)))).

Definition select_hash (f : Faults) (cond : HashRow -> bool) : Tx bool :=
  fun c =>
    if f SSelect then (c, Raise OperationalError)
    else (c, Ok (existsb cond (audio_hashes (current c)))).

(** [INSERT INTO used_urls ...]: the primary key [url] must be new. *)
Definition insert_url (f : Faults) (row : UrlRow) : Tx unit :=
  fun c =>
    if f SInsert then (c, Raise OperationalError)
    else
      let t := current c in
      if existsb (fun r => String.eqb (url r) (url row)) (used_urls t)
      then (c, Raise IntegrityError)
      else (mkConn (committed c)
                   (Some (mkTables (audio_hashes t) (used_urls t ++ [row]))),
            Ok tt).

(** [INSERT INTO audio_hashes ...]: the primary key [hash] must be new. *)
Definition insert_hash (f : Faults) (row : HashRow) : Tx unit :=
  fun c =>
    if f SInsert then (c, Raise OperationalError)
    else
      let t := current c in
      if existsb (fun r => String.eqb (hash r) (hash row)) (audio_hashes t)
      then (c, Raise IntegrityError)
      else (mkConn (committed c)
                   (Some (mkTables (audio_hashes t ++ [row]) (used_urls t))),
            Ok tt).

(** Truthiness of an optional string ([None] and [''] are false). *)
Definition truthy_opt (o : option string) : bool :=
  match o with
  | Some s => Str.truthy s
  | None => false
  end.

(** [WHERE video_id = ?] and [WHERE normalized_url = ?]. *)
Definition video_id_is (v : option string) (r : UrlRow) : bool :=
  bool_decide (is_Some v ∧ video_id r = v).
Definition normalized_is (n : string) (r : UrlRow) : bool :=
  bool_decide (normalized_url r = Some n).

(** [has_hash]. *)
Definition has_hash (c : Conn) (audio_hash : string) : bool :=
  existsb (fun r => String.eqb (hash r) audio_hash) (audio_hashes (current c)).

(** The [try] block of [add_hash] (lines 227-247). *)
Definition add_hash_try (f : Faults) (audio_hash : string)
    (file_path url metadata : option string) : Tx bool :=
  execute_begin f ;;
  found ← select_hash f (fun r => String.eqb (hash r) audio_hash) ;
  if found : bool then
    tx_rollback ;; mret false
  else
    insert_hash f (mkHashRow audio_hash file_path url metadata) ;;
    commit f ;;
    mret true.

(** [add_hash]: the [except sqlite3.Error] handler rolls back and answers
    [False]. *)
Definition add_hash (f : Faults) (audio_hash : string)
    (file_path url metadata : option string) (c : Conn) : Conn * bool :=
  match add_hash_try f audio_hash file_path url metadata c with
  | (c', Ok b) => (c', b)
  | (c', Raise _) => (rollback c', false)
  end.

Section WithUrlparse.

Variable urlparse : string -> Url.ParseResult.

(** [has_url] (lines 279-298). *)
Definition has_url (c : Conn) (u : string) : bool :=
  let '(normalized, vid) := Url.normalize_url urlparse u in
  if truthy_opt vid && existsb (video_id_is vid) (used_urls (current c))
  then true
  else existsb (fun r => normalized_is normalized r || String.eqb (url r) u)
               (used_urls (current c)).

(** [has_video_id]. *)
Definition has_video_id (c : Conn) (v : string) : bool :=
  existsb (video_id_is (Some v)) (used_urls (current c)).

(** The [try] block of [add_url] (lines 321-346). *)
Definition add_url_try (f : Faults) (u normalized : string)
    (vid title search_term theme_name : option string) : Tx bool :=
  execute_begin f ;;
  found ← (if truthy_opt vid
           then select_url f (video_id_is vid)
           else select_url f (normalized_is normalized)) ;
  if found : bool then
    tx_rollback ;; mret false
  else
    insert_url f (mkUrlRow u (Some normalized) vid title search_term theme_name) ;;
    commit f ;;
    mret true.

(** [add_url] (lines 309-352). *)
Definition add_url (f : Faults) (u : string)
    (title search_term theme_name : option string) (c : Conn) : Conn * bool :=
  let '(normalized, vid) := Url.normalize_url urlparse u in
  match add_url_try f u normalized vid title search_term theme_name c with
  | (c', Ok b) => (c', b)
  | (c', Raise _) => (rollback c', false)
  end.

(** One call of [add_url] with its arguments and the storage layer's
    behaviour during it. *)
Record AddUrl := mkAddUrl {
  arg_url : string;
  arg_title : option string;
  arg_search_term : option string;
  arg_theme_name : option string;
  arg_faults : Faults
}.

(** The storage layer works throughout the call. *)
Definition fault_free (a : AddUrl) : Prop := forall s, arg_faults a s = false.

Definition call_add_url (a : AddUrl) (c : Conn) : Conn * bool :=
  add_url (arg_faults a) (arg_url a) (arg_title a) (arg_search_term a)
          (arg_theme_name a) c.

(** A sequence of calls, with the answer of each. *)
Fixpoint add_urls (calls : list AddUrl) (c : Conn) : Conn * list bool :=
  match calls with
  | [] => (c, [])
  | a :: rest =>
      let '(c1, b) := call_add_url a c in
      let '(c2, bs) := add_urls rest c1 in
      (c2, b :: bs)
  end.

(** The identity under which a URL is claimed: its video id when one is
    extracted, its normalized URL otherwise. *)
Definition url_key (u : string) : string + string :=
  match Url.normalize_url urlparse u with
  | (_, Some v) => inl v
  | (n, None) => inr n
  end.

(** The row a successful call inserts. *)
Definition row_of (a : AddUrl) : UrlRow :=
  let '(normalized, vid) := Url.normalize_url urlparse (arg_url a) in
  mkUrlRow (arg_url a) (Some normalized) vid
           (arg_title a) (arg_search_term a) (arg_theme_name a).

(** The identities claimed so far. *)
Definition keys (c : Conn) : list (string + string) :=
  (fun r => url_key (url r)) <$> used_urls (committed c).

(** Two rows share a normalized URL or a video id. *)
Definition share_identity (r1 r2 : UrlRow) : Prop :=
  normalized_url r1 = normalized_url r2
  \/ (is_Some (video_id r1) /\ video_id r1 = video_id r2).

(** The state of the table between calls: no transaction open, every row
    carrying the normalization of its URL, no identity claimed twice. *)
Definition well_formed (c : Conn) : Prop :=
  pending c = None
  /\ (forall r, r ∈ used_urls (committed c) ->
        normalized_url r = Some (Url.normalize_url urlparse (url r)).1
        /\ video_id r = (Url.normalize_url urlparse (url r)).2)
  /\ NoDup (keys c).

End WithUrlparse.

(** A [try] block ends in an exception. *)
Definition raises {A} (r : Conn * res SqliteError A) : Prop :=
  exists e, r.2 = Raise e.

End Ledger.

(** ** Content hashes ([hash_manager.py], lines 441-450) *)

Module Hashing.

(** The errors [open] and [read] raise; all of them are [OSError]s, hence
    instances of [Exception]. *)
Inductive IOError :=
  | FileNotFoundError
  | PermissionError
  | IsADirectoryError
  | OtherOSError.

(** What one call of [f.read(4096)] does. *)
Inductive Read :=
  | Data (chunk : list Byte.byte)
  | ReadFails (e : IOError).

(** What the hashing function finds at a path: [open] fails, or it succeeds
    and the successive reads behave as listed (end of file after the last
    one). *)
Inductive File :=
  | OpenFails (e : IOError)
  | Opened (reads : list Read).

Definition FileSystem := string -> File.

Section WithDigest.

(** [hashlib.md5], as the hexadecimal digest of the bytes fed to it; its
    construction, before the [try], is taken to succeed. *)
Variable md5_hexdigest : list Byte.byte -> string.

(** [for chunk in iter(lambda: f.read(4096), b""): hash_md5.update(chunk)]:
    the bytes fed to the digest. *)
Fixpoint read_chunks (reads : list Read) (fed : list Byte.byte)
  : res IOError (list Byte.byte) :=
  match reads with
  | [] => Ok fed
  | Data [] :: _ => Ok fed
  | Data chunk :: rest => read_chunks rest (fed ++ chunk)
  | ReadFails e :: _ => Raise e
  end.

(** The [try] block. *)
Definition calculate_file_hash_try (fs : FileSystem) (file_path : string)
  : res IOError string :=
  match fs file_path with
  | OpenFails e => Raise e
  | Opened reads =>
      match read_chunks reads [] with
      | Ok fed => Ok (md5_hexdigest fed)
      | Raise e => Raise e
      end
  end.

(** [calculate_file_hash]: [except Exception: return ""]. *)
Definition calculate_file_hash (fs : FileSystem) (file_path : string) : string :=
  match calculate_file_hash_try fs file_path with
  | Ok digest => digest
  | Raise _ => ""
  end.

(** [_is_duplicate] ([downloader.py], lines 142-148). *)
Definition _is_duplicate (fs : FileSystem) (c : Ledger.Conn) (file_path : string) : bool :=
  let file_hash := calculate_file_hash fs file_path in
  if Str.truthy file_hash then Ledger.has_hash c file_hash else false.

End WithDigest.

End Hashing.

(** ** Sequential slicing ([downloader.py], lines 262-354) *)

Module Slicing.

(** The metadata fields the loop adds to a slice. *)
Record Slice := mkSlice {
  slice_index : nat;
  slice_start_ms : Z;
  slice_duration_ms : Z;
  audio_hash : string
}.

(** The ledger connection, the slice files present in [PROCESSED_DIR] (by
    the number in their [_s<n>] suffix) and the list [out]. *)
Record State := mkState {
  conn : Ledger.Conn;
  processed : gset nat;
  out : list Slice
}.

Section Loop.

Variable sound_len : Z.                (* len(sound), in ms *)
Variable clip_ms : Z.
Variable slice_stride_ms : Z.
(** [calculate_file_hash(out_path)] for the clip exported from a start
    offset. *)
Variable slice_hash : Z -> string.
(** [str(out_path)] for a suffix number. *)
Variable out_path : nat -> string.
(** The storage layer during the [add_hash] of the slice at an offset, and
    whether [out_path.unlink()] raises there. *)
Variable faults_at : Z -> Ledger.Faults.
Variable unlink_raises : Z -> bool.

(** The [while taken < slices_per_video and start + clip_ms <= len(sound)]
    loop.  Every iteration that does not leave the loop increments [taken],
    so the recursion is on [slices_per_video - taken].

    The duplicate branch (lines 299-312) is
    [try: out_path.unlink(); start += stride_ms; continue] with
    [except Exception: ...; break].  The name [stride_ms] is bound nowhere
    (the parameter is [slice_stride_ms]; the module has no such global), so
    [start += stride_ms] raises [NameError] whenever [unlink] has
    succeeded; [NameError] is an [Exception], and the handler breaks.  When
    [unlink] itself raises, the handler breaks as well, the file left in
    place. *)
Fixpoint slice_loop (remaining taken : nat) (start : Z) (st : State) : State :=
  match remaining with
  | O => st
  | S remaining' =>
      if (start + clip_ms <=? sound_len)%Z then
        let exported := {[ S taken ]} ∪ processed st in
        let h := slice_hash start in
        let '(c, added) :=
          Ledger.add_hash (faults_at start) h (Some (out_path (S taken))) None None
                          (conn st) in
        if negb added then
          if unlink_raises start
          then mkState c exported (out st)
          else mkState c (exported ∖ {[ S taken ]}) (out st)
        else
          slice_loop remaining' (S taken) (start + Z.max slice_stride_ms 1)
            (mkState c exported (out st ++ [mkSlice (S taken) start clip_ms h]))
      else st
  end.

(** The loop as the specification words it, for comparison: on a collision
    the slice is deleted and the walk goes on from the next stride position,
    [taken] unchanged.  [fuel] bounds the number of positions visited. *)
Fixpoint slice_loop_as_specified (fuel : nat) (slices_per_video taken : nat)
    (start : Z) (st : State) : State :=
  match fuel with
  | O => st
  | S fuel' =>
      if (taken <? slices_per_video)%nat && (start + clip_ms <=? sound_len)%Z then
        let exported := {[ S taken ]} ∪ processed st in
        let h := slice_hash start in
        let '(c, added) :=
          Ledger.add_hash (faults_at start) h (Some (out_path (S taken))) None None
                          (conn st) in
        if negb added then
          slice_loop_as_specified fuel' slices_per_video taken
            (start + Z.max slice_stride_ms 1)
            (mkState c (exported ∖ {[ S taken ]}) (out st))
        else
          slice_loop_as_specified fuel' slices_per_video (S taken)
            (start + Z.max slice_stride_ms 1)
            (mkState c exported (out st ++ [mkSlice (S taken) start clip_ms h]))
      else st
  end.

(** [_process_to_candidate_slices].  The source file is removed on every
    path; CLAP scoring only adds fields to the metadata and is left out. *)
Definition _process_to_candidate_slices (slices_per_video : Z) (st : State) : State :=
  if (sound_len <? clip_ms)%Z then mkState (conn st) (processed st) []
  else slice_loop (Z.to_nat slices_per_video) 0 0 (mkState (conn st) (processed st) []).

End Loop.

End Slicing.

(** ** Download strategy ([downloader.py], [_ydl_opts] and lines 616-724 of
    [_download_one])

    Durations are rationals: Python computes on [int]s and [float]s, and
    agrees with the rationals wherever the values involved are exactly
    representable. *)

Module Download.

Local Open Scope Q_scope.

(** The environment variables read, after parsing. *)
Record Env := mkEnv {
  DOWNLOAD_METHOD : string;
  has_aria2c : bool;                (* shutil.which('aria2c') is not None *)
  ARIA2C_ENABLED : bool;            (* not in ("0", "false", "False") *)
  AUDIO_QUALITY : string;
  YTDLP_FORMAT : string;
  YTDLP_USE_SECTIONS : bool;        (* not in ("0", "false", "False") *)
  DOWNLOAD_CHUNK_SECONDS : Z
}.

Inductive ExternalDownloader := aria2c | ffmpeg.

(** [download_sections]: ["*0-SEC"] or ["*START-END"]. *)
Inductive Sections :=
  | FromStart (sec : Z)
  | Range (start_time : Z) (end_time : Q).

Record Opts := mkOpts {
  format : string;
  postprocessors : bool;             (* FFmpegExtractAudio to wav *)
  external_downloader : option ExternalDownloader;
  download_sections : option Sections;
  force_keyframes_at_cuts : bool
}.

(** [int(x)]: truncation towards zero. *)
Definition py_int (x : Q) : Z :=
  if Qle_bool 0 x then Qfloor x else Qceiling x.

(** [round(x)]: to the nearest integer, ties to even. *)
Definition py_round (x : Q) : Z :=
  let f := Qfloor x in
  let d := x - inject_Z f in
  if Qle_bool d (1 # 2)
  then if Qle_bool (1 # 2) d then (if Z.even f then f else f + 1)%Z else f
  else (f + 1)%Z.

Definition Qmaxb (a b : Q) : Q := if Qle_bool b a then a else b.
Definition Qminb (a b : Q) : Q := if Qle_bool a b then a else b.
Definition Qltb (a b : Q) : bool := negb (Qle_bool b a).
Definition Qnonzero (a : Q) : bool := negb (Qeq_bool a 0).

(** [_ydl_opts(term, max_results=1, clip_ms=..., logger=...)]. *)
Definition _ydl_opts (env : Env) (clip_ms : option Z) : Opts :=
  let use_aria :=
    if String.eqb (DOWNLOAD_METHOD env) "aria2c" then has_aria2c env
    else if String.eqb (DOWNLOAD_METHOD env) "smart"
         then has_aria2c env && ARIA2C_ENABLED env
         else false in
  let ytdlp_format :=
    if String.eqb (AUDIO_QUALITY env) "worst" then "worstaudio/worst"%string
    else YTDLP_FORMAT env in
  mkOpts ytdlp_format
         (bool_decide (is_Some clip_ms))
         (if use_aria then Some aria2c else None)
         (match clip_ms with
          | Some ms =>
              if YTDLP_USE_SECTIONS env && (0 <? ms)%Z
              then Some (FromStart (Z.max 1 (py_round (inject_Z ms / 1000))))
              else None
          | None => None
          end)
         false.

(** What [_download_one] decides once the metadata is known. *)
Inductive Strategy :=
  | TooShort                                   (* return None, metadata *)
  | Center (start_time : Z) (end_time : Q) (opts : Opts)
  | Beginning (opts : Opts).

Definition download_strategy (env : Env) (video_duration : Q) (clip_ms : Z) : Strategy :=
  let clip_seconds := inject_Z clip_ms / 1000 in
  if Qnonzero video_duration && Qltb video_duration clip_seconds then TooShort
  else
    let effective_download_seconds :=
      Qmaxb (inject_Z (DOWNLOAD_CHUNK_SECONDS env)) clip_seconds in
    let use_segments :=
      if String.eqb (DOWNLOAD_METHOD env) "segment" then true
      else if String.eqb (DOWNLOAD_METHOD env) "aria2c" then false
      else Qnonzero video_duration && Qltb effective_download_seconds video_duration in
    if use_segments then
      let center_time := py_int (video_duration / 2) in
      let start_time := Z.max 0 (center_time - py_int (effective_download_seconds / 2)) in
      let end_time :=
        Qminb video_duration (inject_Z start_time + effective_download_seconds + 2) in
      (* opts = _ydl_opts(term, clip_ms=None), then every field kept here
         is set again: format, no postprocessors, ffmpeg in place of
         aria2c, the section and the keyframes flag *)
      Center start_time end_time
        (mkOpts (if String.eqb (AUDIO_QUALITY env) "worst"
                 then "worstaudio/worst"%string else "bestaudio/best"%string)
                false
                (Some ffmpeg)
                (Some (Range start_time end_time))
                true)
    else Beginning (_ydl_opts env (Some clip_ms)).

End Download.

(** ** Bank assignment ([pipeline.py]) *)

Module Pipeline.

(** The directories the loop touches, as sets of file names: one bank per
    theme under [session_dir/themes] (no entry when the directory does not
    exist) and [PROCESSED_DIR], where candidates arrive. *)
Record Files := mkFiles {
  banks : gmap string (gset string);
  candidates : gset string
}.

(** What the glob ["*.wav"] selects. *)
Definition is_wav (name : string) : bool := Str.ends_with ".wav" name.

(** [_count_in_bank] (lines 30-34). *)
Definition _count_in_bank (theme : string) (fs : Files) : Z :=
  match banks fs !! theme with
  | None => 0
  | Some d => Z.of_nat (size (filter (fun p => is_wav p) d))
  end.

(** [Path.stem]: the name without its last suffix. *)
Fixpoint stem (name : string) : string :=
  match name with
  | EmptyString => EmptyString
  | String c rest =>
      if Ascii.eqb c "." && negb (Str.has_char "." rest) then EmptyString
      else String c (stem rest)
  end.

(** [path.with_suffix('.json')]. *)
Definition with_suffix_json (name : string) : string := stem name +:+ ".json".

(** Scores are rationals; the comparison [score < min_sim] on finite floats
    is the comparison of the rationals they denote. *)
Definition Qltb (a b : Q) : bool := negb (Qle_bool b a).

(** What [scoring.best_theme_for_wav] does for a candidate. *)
Inductive ScoringResult :=
  | NoResult                                   (* returns None *)
  | ScoringRaises                              (* raises *)
  | Best (name : string) (score : Q).          (* returns (name, score) *)

(** [_assign_with_scoring] (lines 69-92); [themes] is [first :: others]. *)
Definition _assign_with_scoring (enabled : bool) (res : ScoringResult)
    (first : string) (others : list string) (min_sim : Q)
  : option string * option Q :=
  if enabled then
    match res with
    | Best name score =>
        if Qltb score min_sim then (None, Some score) else (Some name, Some score)
    | ScoringRaises => (Some first, None)
    | NoResult => (Some first, None)
    end
  else (Some first, None).

(** The counters and the directories. *)
Record State := mkState {
  results : gmap string Z;
  retries : gmap string Z;
  files : Files
}.

(** [d[k] += 1]; the keys used are theme names, all present from the
    start. *)
Definition incr (k : string) (d : gmap string Z) : gmap string Z :=
  <[k := (d !!! k + 1)%Z]> d.

(** What happens inside the [try] block that moves the sidecar. *)
Inductive MetadataMove :=
  | MetadataMoved            (* written to the bank, original removed *)
  | MetadataWrittenOnly      (* written, then an exception *)
  | MetadataFailed.          (* an exception before anything is written *)

(** A candidate handed over by the downloader, with what the environment
    does while it is processed. *)
Record Candidate := mkCandidate {
  cand_path : string;
  stop_requested : bool;          (* stop_cb() before this candidate *)
  scoring : ScoringResult;
  metadata_move : MetadataMove
}.

Record Config := mkConfig {
  theme_names : list string;
  samples_per_bank : Z;
  max_retries : Z;
  search_batch : Z;
  scoring_enabled : bool;
  min_sim : Q
}.

Section Naming.

(** File naming in a bank: [f"{theme}_{n:02d}.wav"], and for an existing
    name matched by [f"{theme}_*.wav"] the number [int] reads in it, if
    any. *)
Variable bank_file : string -> Z -> string.
Variable file_number : string -> string -> option Z.

(** [while out_path.exists(): next_num += 1]; a directory of [k] names is
    left behind after at most [k] steps. *)
Fixpoint next_free (fuel : nat) (theme : string) (n : Z) (d : gset string) : Z :=
  match fuel with
  | O => n
  | S fuel' =>
      if bool_decide (bank_file theme n ∈ d)
      then next_free fuel' theme (n + 1) d
      else n
  end.

Definition next_num (theme : string) (d : gset string) : Z :=
  match omap (file_number theme) (elements d) with
  | [] => 1
  | k :: ks => foldr Z.max k ks + 1
  end.

(** [_move_to_theme] (lines 37-66): the directories afterwards, and the new
    path, or [None] when [path.replace] finds no file to move. *)
Definition _move_to_theme (path theme : string) (fs : Files)
  : Files * option string :=
  let d := default ∅ (banks fs !! theme) in
  let made := mkFiles (<[theme := d]> (banks fs)) (candidates fs) in
  let n := next_free (S (size d)) theme (next_num theme d) d in
  let out_path := bank_file theme n in
  if bool_decide (path ∈ candidates fs)
  then (mkFiles (<[theme := {[ out_path ]} ∪ d]> (banks fs))
                (candidates fs ∖ {[ path ]}),
        Some out_path)
  else (made, None).

(** Lines 423-441: the sidecar follows the audio file. *)
Definition move_metadata (cand : Candidate) (theme final_path : string)
    (fs : Files) : Files :=
  let metadata_src := with_suffix_json (cand_path cand) in
  let metadata_dst := with_suffix_json final_path in
  if bool_decide (metadata_src ∈ candidates fs) then
    match metadata_move cand with
    | MetadataMoved =>
        mkFiles (<[theme := {[ metadata_dst ]} ∪ default ∅ (banks fs !! theme)]> (banks fs))
                (candidates fs ∖ {[ metadata_src ]})
    | MetadataWrittenOnly =>
        mkFiles (<[theme := {[ metadata_dst ]} ∪ default ∅ (banks fs !! theme)]> (banks fs))
                (candidates fs)
    | MetadataFailed => fs
    end
  else fs.

(** How a loop body ends. *)
Inductive Ctl := Continue | Break | Raised.

Variable cfg : Config.

(** The body of [for cand in candidates] (lines 410-452). *)
Definition assign_candidate (target_theme : string) (cand : Candidate)
    (st : State) : State * Ctl :=
  if stop_requested cand then (st, Break)
  else
    let others := filter (fun t => t ≠ target_theme) (theme_names cfg) in
    match _assign_with_scoring (scoring_enabled cfg) (scoring cand)
                               target_theme others (min_sim cfg) with
    | (None, _) =>
        (mkState (results st)
                 (incr target_theme (retries st))
                 (mkFiles (banks (files st))
                          (candidates (files st) ∖ {[ cand_path cand ]})),
         Continue)
    | (Some best_theme, _) =>
        match _move_to_theme (cand_path cand) best_theme (files st) with
        | (fs, None) => (mkState (results st) (retries st) fs, Raised)
        | (fs, Some final_path) =>
            let fs' := move_metadata cand best_theme final_path fs in
            let results' := incr best_theme (results st) in
            let retries' :=
              if bool_decide (best_theme ≠ target_theme)
              then incr target_theme (retries st)
              else retries st in
            (mkState results' retries' fs',
             if (samples_per_bank cfg <=? results' !!! target_theme)%Z
             then Break else Continue)
        end
    end.

(** The [for] loop; the answer tells whether an exception left it. *)
Fixpoint assign_all (target_theme : string) (cands : list Candidate)
    (st : State) : State * bool :=
  match cands with
  | [] => (st, false)
  | cand :: rest =>
      match assign_candidate target_theme cand st with
      | (st', Continue) => assign_all target_theme rest st'
      | (st', Break) => (st', false)
      | (st', Raised) => (st', true)
      end
  end.

(** One turn of the [while] loop as the environment shapes it: the stop
    flag at its top and what [download_candidates_for_term] returns. *)
Record Batch := mkBatch {
  stop_at_top : bool;
  downloaded : list Candidate
}.

(** How far a run has come on the environment's answers so far. *)
Inductive Status :=
  | Completed        (* the loop has ended *)
  | Stopped          (* stop requested at a theme boundary *)
  | Running          (* still in a loop, waiting for the environment *)
  | Crashed.         (* an exception left [run_pipeline] *)

Definition max_per_search : Z := Z.max 1 (search_batch cfg / 4).

(** The [while results[target_theme] < samples_per_bank] loop (lines
    357-452) for a theme with [n_searches] queries. *)
Fixpoint fill_theme (target_theme : string) (n_searches : Z)
    (batches : list Batch) (search_idx downloads_with_current_search : Z)
    (st : State) : State * Status :=
  if (samples_per_bank cfg <=? results st !!! target_theme)%Z then (st, Completed)
  else
    match batches with
    | [] => (st, Running)
    | b :: later =>
        if stop_at_top b then (st, Completed)
        else if negb (max_retries cfg =? 0)%Z
                && (max_retries cfg <=? retries st !!! target_theme)%Z
        then (st, Completed)
        else
          let idx := if (n_searches <=? search_idx)%Z then 0%Z else search_idx in
          if (n_searches <=? idx)%Z then (st, Crashed)      (* IndexError *)
          else
            let '(idx, dl) :=
              if (max_per_search <=? downloads_with_current_search)%Z
              then ((idx + 1)%Z, 0%Z)
              else (idx, downloads_with_current_search) in
            let arrived :=
              mkState (results st) (retries st)
                (mkFiles (banks (files st))
                         (list_to_set (cand_path <$> downloaded b)
                          ∪ candidates (files st))) in
            match downloaded b with
            | [] =>
                if (n_searches <=? idx + 1)%Z then (arrived, Completed)
                else fill_theme target_theme n_searches later (idx + 1)%Z 0%Z arrived
            | _ :: _ =>
                match assign_all target_theme (downloaded b) arrived with
                | (st', false) =>
                    fill_theme target_theme n_searches later idx
                      (dl + Z.of_nat (length (downloaded b)))%Z st'
                | (st', true) => (st', Crashed)
                end
            end
    end.

(** What the environment does during one theme's turn. *)
Record ThemeEnv := mkThemeEnv {
  n_searches : Z;                 (* len(searches_for_theme) *)
  stop_at_theme : bool;           (* stop_cb() at line 349 *)
  batches : list Batch
}.

(** The body of [for idx, theme_obj in enumerate(theme_objects)] (lines
    305-452).  The HTML index written afterwards is not an audio file and
    is left out. *)
Definition run_theme (theme_name : string) (env : ThemeEnv) (st : State)
  : State * Status :=
  if (samples_per_bank cfg <=? results st !!! theme_name)%Z then (st, Completed)
  else if stop_at_theme env then (st, Stopped)
  else fill_theme theme_name (n_searches env) (batches env) 0 0 st.

Fixpoint run_themes (themes : list string) (envs : list ThemeEnv) (st : State)
  : State * Status :=
  match themes, envs with
  | [], _ => (st, Completed)
  | _ :: _, [] => (st, Running)
  | theme_name :: themes', env :: envs' =>
      match run_theme theme_name env st with
      | (st', Completed) => run_themes themes' envs' st'
      | other => other
      end
  end.

(** Lines 189-190: the counters at the start of a run, fresh or resumed. *)
Definition initial_state (fs : Files) : State :=
  mkState (list_to_map ((fun t => (t, _count_in_bank t fs)) <$> theme_names cfg))
          (list_to_map ((fun t => (t, 0%Z)) <$> theme_names cfg))
          fs.

(** [run_pipeline], from the directories found at the start. *)
Definition run_pipeline (fs : Files) (envs : list ThemeEnv) : State * Status :=
  run_themes (theme_names cfg) envs (initial_state fs).

End Naming.

(** The theme a candidate lands in, if any. *)
Definition lands_in (cfg : Config) (target_theme : string) (cand : Candidate)
  : option string :=
  (_assign_with_scoring (scoring_enabled cfg) (scoring cand) target_theme
     (filter (fun t => t <> target_theme) (theme_names cfg)) (min_sim cfg)).1.

(** No slice fetched for another theme lands in [t]. *)
Fixpoint no_cross_into (cfg : Config) (t : string) (themes : list string)
    (envs : list ThemeEnv) : Prop :=
  match themes, envs with
  | theme_name :: themes', env :: envs' =>
      (theme_name <> t ->
       forall b cand, b ∈ batches env -> cand ∈ downloaded b ->
                      lands_in cfg theme_name cand <> Some t)
      /\ no_cross_into cfg t themes' envs'
  | _, _ => True
  end.

Definition wav_count (d : gset string) : Z :=
  Z.of_nat (size (filter (fun p => is_wav p) d)).

(** The counter of [t] is within the target and covers the files of its
    bank. *)
Definition within (cfg : Config) (t : string) (st : State) : Prop :=
  (results st !!! t <= samples_per_bank cfg)%Z
  /\ (_count_in_bank t (files st) <= results st !!! t)%Z.

(** The naming scheme of a bank, on ASCII names: what
    [f"{theme}_{next_num:02d}.wav"] writes, and what
    [int(f.stem.replace(f"{theme}_", ""))] reads in a name that
    [out_dir.glob(f"{theme}_*.wav")] selects.  Theme names are taken
    without the glob metacharacters [*], [?] and [[]. *)
Module Names.

Definition digit (n : Z) : ascii := ascii_of_nat (48 + Z.to_nat n).

Fixpoint digits (fuel : nat) (n : Z) (acc : string) : string :=
  match fuel with
  | O => acc
  | S fuel' =>
      let acc' := String (digit (n mod 10)) acc in
      if (n <? 10)%Z then acc' else digits fuel' (n / 10) acc'
  end.

Definition decimal (n : Z) : string := digits (S (Z.to_nat n)) n "".

(** [f"{n:02d}"]: the sign counts in the width. *)
Definition pad2 (n : Z) : string :=
  if (n <? 0)%Z then "-" +:+ decimal (- n)
  else if (n <? 10)%Z then "0" +:+ decimal n else decimal n.

Definition bank_file (theme : string) (n : Z) : string :=
  theme +:+ "_" +:+ pad2 n +:+ ".wav".

Fixpoint read_digits (s : string) (acc : Z) : option Z :=
  match s with
  | EmptyString => Some acc
  | String c rest =>
      let k := nat_of_ascii c in
      if ((48 <=? k) && (k <=? 57))%nat
      then read_digits rest (10 * acc + Z.of_nat (k - 48))
      else None
  end.

(** [s.replace(old, "")] for a non-empty [old]: every occurrence is
    removed, from the left, without overlap; [skip] characters of an
    occurrence are still to be dropped. *)
Fixpoint remove_from (skip : nat) (old s : string) : string :=
  match s with
  | EmptyString => EmptyString
  | String c rest =>
      match skip with
      | S skip' => remove_from skip' old rest
      | O =>
          match Str.strip_prefix old s with
          | Some _ => remove_from (String.length old - 1) old rest
          | None => String c (remove_from 0 old rest)
          end
      end
  end.

Definition remove_all (old s : string) : string := remove_from 0 old s.

(** The blanks [int] strips: tab, line feed, vertical tab, form feed,
    carriage return and space. *)
Definition is_blank (c : ascii) : bool :=
  let k := nat_of_ascii c in
  ((9 <=? k) && (k <=? 13))%nat || (k =? 32)%nat.

Fixpoint lstrip (s : string) : string :=
  match s with
  | EmptyString => EmptyString
  | String c rest => if is_blank c then lstrip rest else s
  end.

Fixpoint rstrip (s : string) : string :=
  match s with
  | EmptyString => EmptyString
  | String c rest =>
      match rstrip rest with
      | EmptyString => if is_blank c then EmptyString else String c EmptyString
      | kept => String c kept
      end
  end.

(** Decimal digits, with single underscores between digits only;
    [after_digit] tells whether the character before was a digit. *)
Fixpoint read_grouped (s : string) (acc : Z) (after_digit : bool) : option Z :=
  match s with
  | EmptyString => if after_digit then Some acc else None
  | String c rest =>
      let k := nat_of_ascii c in
      if ((48 <=? k) && (k <=? 57))%nat
      then read_grouped rest (10 * acc + Z.of_nat (k - 48)) true
      else if Ascii.eqb c "_" && after_digit then read_grouped rest acc false
      else None
  end.

(** [int(s)], [None] for [ValueError]: blanks around, an optional sign,
    then the digits. *)
Definition py_int (s : string) : option Z :=
  match rstrip (lstrip s) with
  | EmptyString => None
  | String c rest =>
      if Ascii.eqb c "-" then Z.opp <$> read_grouped rest 0 false
      else if Ascii.eqb c "+" then read_grouped rest 0 false
      else read_grouped (String c rest) 0 false
  end.

(** The number read in [name], when the glob selects it and [int] reads
    one; [stem] of a selected name is the name without [".wav"]. *)
Definition file_number (theme name : string) : option Z :=
  match Str.strip_prefix (theme +:+ "_") name with
  | Some rest =>
      if is_wav rest then py_int (remove_all (theme +:+ "_") (stem name)) else None
  | None => None
  end.

End Names.

End Pipeline.

(** ** A scenario: two themes, two samples per bank, threshold 0.3 *)

Module Scenario.
Import Pipeline.

Definition cfg : Config := mkConfig ["Soft"; "Loud"] 2 0 32 true (3 # 10).

Definition scored (path best : string) (score : Q) : Candidate :=
  mkCandidate path false (Best best score) MetadataFailed.

(** Nothing on disk yet. *)
Definition empty_session : Files := mkFiles ∅ ∅.

(** A session stopped with the bank of [Soft] full. *)
Definition soft_full : Files :=
  mkFiles {[ "Soft" := {[ "Soft_01.wav"; "Soft_02.wav" ]} ]} ∅.

(** Two slices fetched for [Soft] land in [Soft]; the first slice fetched
    for [Loud] scores highest for [Soft]. *)
Definition crossing : list ThemeEnv :=
  [ mkThemeEnv 2 false
      [mkBatch false [scored "a_s1.wav" "Soft" (6 # 10); scored "b_s1.wav" "Soft" (7 # 10)]];
    mkThemeEnv 2 false
      [mkBatch false [scored "c_s1.wav" "Soft" (5 # 10)]] ].

Definition run (fs : Files) (envs : list ThemeEnv) : State * Status :=
  run_pipeline Names.bank_file Names.file_number cfg fs envs.

End Scenario.

(** ** Sequences of [add_hash], the queries and the start-up migration
    ([hash_manager.py], lines 101-251 and 354-410) *)

Module LedgerQueries.
Import Ledger.

(** One call of [add_hash] with its arguments and the storage layer's
    behaviour during it. *)
Record AddHash := mkAddHash {
  arg_hash : string;
  arg_file_path : option string;
  arg_hash_url : option string;
  arg_metadata : option string;
  arg_hash_faults : Faults
}.

Definition call_add_hash (a : AddHash) (c : Conn) : Conn * bool :=
  add_hash (arg_hash_faults a) (arg_hash a) (arg_file_path a) (arg_hash_url a)
           (arg_metadata a) c.

(** A sequence of calls, with the answer of each. *)
Fixpoint add_hashes (calls : list AddHash) (c : Conn) : Conn * list bool :=
  match calls with
  | [] => (c, [])
  | a :: rest =>
      let '(c1, b) := call_add_hash a c in
      let '(c2, bs) := add_hashes rest c1 in
      (c2, b :: bs)
  end.

(** The column [hash] of [audio_hashes]. *)
Definition hashes (c : Conn) : list string := hash <$> audio_hashes (current c).

(** The dictionary [get_url_info] builds from a row, the timestamp left
    out. *)
Record UrlInfo := mkUrlInfo {
  info_url : string;
  info_video_id : option string;
  info_title : option string;
  info_search_term : option string;
  info_theme_name : option string
}.

Definition info_of (r : UrlRow) : UrlInfo :=
  mkUrlInfo (url r) (video_id r) (title r) (search_term r) (theme_name r).

(** [get_all_hashes], [get_all_urls], [get_all_video_ids]. *)
Definition get_all_hashes (c : Conn) : gset string :=
  list_to_set (hash <$> audio_hashes (current c)).

Definition get_all_urls (c : Conn) : gset string :=
  list_to_set (url <$> used_urls (current c)).

Definition get_all_video_ids (c : Conn) : gset string :=
  list_to_set (omap video_id (used_urls (current c))).

(** [get_stats]. *)
Record Stats := mkStats {
  total_hashes : nat;
  total_urls : nat;
  youtube_videos : nat
}.

Definition get_stats (c : Conn) : Stats :=
  mkStats (length (audio_hashes (current c)))
          (length (used_urls (current c)))
          (length (omap video_id (used_urls (current c)))).

(** The [sqlite3] module opens a transaction before the first [INSERT] or
    [UPDATE] executed outside one. *)
Definition implicit_begin (c : Conn) : Conn :=
  match pending c with
  | Some _ => c
  | None => mkConn (committed c) (Some (committed c))
  end.

(** [INSERT OR IGNORE INTO used_urls (url) VALUES (?)]: a row with the
    other columns [NULL], unless the URL is there. *)
Definition insert_or_ignore_url (u : string) (c : Conn) : Conn :=
  let c := implicit_begin c in
  let t := current c in
  if existsb (fun r => String.eqb (url r) u) (used_urls t) then c
  else mkConn (committed c)
              (Some (mkTables (audio_hashes t)
                              (used_urls t ++ [mkUrlRow u None None None None None]))).

(** The URL part of [_migrate_legacy_data] for one legacy file holding the
    list [urls] (lines 178-190), the storage layer working: the inserts,
    then [commit()]. *)
Definition migrate_urls (urls : list string) (c : Conn) : Conn :=
  let c' := foldl (fun c u => insert_or_ignore_url u c) c urls in
  mkConn (current c') None.

Section WithUrlparse.

Variable urlparse : string -> Url.ParseResult.

(** The condition of the [SELECT] in [add_url] and [get_url_info]: by video
    id when one is extracted, by normalized URL otherwise. *)
Definition identity_is (u : string) : UrlRow -> bool :=
  let '(normalized, vid) := Url.normalize_url urlparse u in
  if truthy_opt vid then video_id_is vid else normalized_is normalized.

(** [get_url_info] (lines 354-380); [fetchone()] answers the first row the
    table holds for the condition. *)
Definition get_url_info (c : Conn) (u : string) : option UrlInfo :=
  info_of <$> List.find (identity_is u) (used_urls (current c)).

(** [UPDATE used_urls SET normalized_url = ?, video_id = ? WHERE url = ?]. *)
Definition update_url_data (u : string) (rows : list UrlRow) : list UrlRow :=
  let '(normalized, vid) := Url.normalize_url urlparse u in
  (fun r => if String.eqb (url r) u
            then mkUrlRow (url r) (Some normalized) vid (title r) (search_term r)
                          (theme_name r)
            else r) <$> rows.

(** [WHERE normalized_url IS NULL OR video_id IS NULL]. *)
Definition missing_url_data (r : UrlRow) : bool :=
  negb (bool_decide (is_Some (normalized_url r)))
  || negb (bool_decide (is_Some (video_id r))).

(** [_populate_missing_url_data] and [_ensure_url_data_populated] (lines
    101-141), the storage layer working: the rows selected are updated one
    by one, and the updates committed when there were any. *)
Definition _populate_missing_url_data (c : Conn) : Conn :=
  let urls_to_update :=
    url <$> List.filter missing_url_data (used_urls (current c)) in
  match urls_to_update with
  | [] => c
  | _ :: _ =>
      let t := current c in
      mkConn (mkTables (audio_hashes t)
                       (foldl (fun rows u => update_url_data u rows) (used_urls t)
                              urls_to_update))
             None
  end.

(** A row with the two columns filled in from its URL. *)
Definition with_url_data (r : UrlRow) : UrlRow :=
  mkUrlRow (url r) (Some (Url.normalize_url urlparse (url r)).1)
           (Url.normalize_url urlparse (url r)).2
           (title r) (search_term r) (theme_name r).

(** Every row carries the normalization of its URL. *)
Definition populated (c : Conn) : Prop :=
  forall r, r ∈ used_urls (current c) ->
    normalized_url r = Some (Url.normalize_url urlparse (url r)).1
    /\ video_id r = (Url.normalize_url urlparse (url r)).2.

End WithUrlparse.

End LedgerQueries.

(** ** Session cache, legacy files, search filter and the gate of
    [_download_one] ([downloader.py], lines 38-140, 494-582 and 812-824) *)

Module Session.
Import Ledger.

(** [_session_used_urls] and [_session_used_video_ids]. *)
Record Cache := mkCache {
  _session_used_urls : gset string;
  _session_used_video_ids : gset string
}.

Definition clear_session_urls (s : Cache) : Cache := mkCache ∅ ∅.

(** A legacy JSON file: missing, not loadable ([json.load] raises), or
    holding a list. *)
Inductive Json (A : Type) :=
  | Missing
  | Unreadable
  | Holds (data : list A).
Arguments Missing {A}.
Arguments Unreadable {A}.
Arguments Holds {A} data.

(** [data[-n:]] for [n > 0]. *)
Definition last_n {A} (n : nat) (l : list A) : list A := drop (length l - n) l.

(** What a process sees: the session cache, the ledger and the two legacy
    files [USED_URLS_FILE] and [HASHES_FILE] (whose entries are kept here
    by their hash). *)
Record World := mkWorld {
  cache : Cache;
  conn : Conn;
  urls_file : Json string;
  hashes_file : Json string
}.

(** [_save_hash] (lines 80-114).  [write_fails]: opening the file for
    writing raises. *)
Definition _save_hash (f : Faults) (write_fails : bool) (audio_hash : string)
    (w : World) : World * bool :=
  let '(c, success) := add_hash f audio_hash None None None (conn w) in
  if success then
    let data :=
      match hashes_file w with
      | Holds data => data
      | Missing | Unreadable => []
      end in
    let data := last_n 5000 (data ++ [audio_hash]) in
    (mkWorld (cache w) c (urls_file w)
             (if write_fails then hashes_file w else Holds data),
     true)
  else (mkWorld (cache w) c (urls_file w) (hashes_file w), false).

(** Lines 812-824 of [_download_one]: the hash of the downloaded file is
    registered with [add_hash], then handed to [_save_hash].  The answer is
    whether the file is kept. *)
Definition register_download (f1 f2 : Faults) (write_fails : bool)
    (file_hash p url : string) (metadata : option string) (w : World)
  : World * bool :=
  let '(c, added) := add_hash f1 file_hash (Some p) (Some url) metadata (conn w) in
  let w1 := mkWorld (cache w) c (urls_file w) (hashes_file w) in
  if negb added then (w1, false)
  else ((_save_hash f2 write_fails file_hash w1).1, true).

(** An entry of the search result: [e.get("id")], [e.get("webpage_url")],
    [e.get("url")]. *)
Record Entry := mkEntry {
  entry_id : option string;
  webpage_url : option string;
  entry_url : option string
}.

(** [a or b]. *)
Definition or_else (a b : option string) : option string :=
  if truthy_opt a then a else b.

(** [all_results]: the pair [(vid, url)] of every entry that has both. *)
Definition entry_pair (e : Entry) : option (string * string) :=
  match entry_id e, or_else (webpage_url e) (entry_url e) with
  | Some vid, Some u => if Str.truthy vid && Str.truthy u then Some (vid, u) else None
  | _, _ => None
  end.

Definition all_results (entries : list Entry) : list (string * string) :=
  omap entry_pair entries.

(** What the outcome of the gate of [_download_one] is. *)
Inductive Gate :=
  | AlreadyUsed          (* has_url answered True: return None, {} *)
  | LostRace             (* _save_used_url answered False: return None, {} *)
  | Proceeds.            (* the URL is claimed; the download goes on *)

Section WithUrlparse.

Variable urlparse : string -> Url.ParseResult.

(** [is_url_used_in_session] (lines 50-61). *)
Definition is_url_used_in_session (s : Cache) (u : string) : bool :=
  let '(normalized_url, video_id) := Url.normalize_url urlparse u in
  if bool_decide (u ∈ _session_used_urls s)
     || bool_decide (normalized_url ∈ _session_used_urls s)
  then true
  else match video_id with
       | Some v => Str.truthy v && bool_decide (v ∈ _session_used_video_ids s)
       | None => false
       end.

(** [mark_url_used_in_session] (lines 63-72). *)
Definition mark_url_used_in_session (s : Cache) (u : string) : Cache :=
  let '(normalized_url, video_id) := Url.normalize_url urlparse u in
  mkCache ({[ normalized_url ]} ∪ ({[ u ]} ∪ _session_used_urls s))
          (match video_id with
           | Some v =>
               if Str.truthy v then {[ v ]} ∪ _session_used_video_ids s
               else _session_used_video_ids s
           | None => _session_used_video_ids s
           end).

(** [_save_used_url] (lines 116-140).  The whole of the file handling is
    inside [try ... except: pass]. *)
Definition _save_used_url (f : Faults) (write_fails : bool) (u : string)
    (title search_term theme_name : option string) (w : World) : World * bool :=
  let '(c, success) := add_url urlparse f u title search_term theme_name (conn w) in
  if success then
    let file :=
      match urls_file w with
      | Unreadable => Unreadable
      | Missing => if write_fails then Missing else Holds [u]
      | Holds urls =>
          if write_fails then Holds urls
          else Holds (if bool_decide (u ∈ urls) then urls else urls ++ [u])
      end in
    (mkWorld (cache w) c file (hashes_file w), true)
  else (mkWorld (cache w) c (urls_file w) (hashes_file w), false).

(** The three layers of the filter of [_extract_search] for one result. *)
Definition filtered_out (w : World) (vid u : string) : bool :=
  has_url urlparse (conn w) u
  || is_url_used_in_session (cache w) u
  || has_video_id (conn w) vid.

(** [_extract_search] (lines 494-555) on the entries the search answered:
    [filtered_results], the pairs of [all_results] that pass the filter. *)
Definition _extract_search (w : World) (entries : list Entry)
  : list (string * string) :=
  List.filter (fun p => negb (filtered_out w p.1 p.2)) (all_results entries).

(** The gate of [_download_one] (lines 563-582). *)
Definition gate (f : Faults) (write_fails : bool) (u term : string)
    (theme_name : option string) (w : World) : World * Gate :=
  let w1 := mkWorld (mark_url_used_in_session (cache w) u) (conn w)
                    (urls_file w) (hashes_file w) in
  if has_url urlparse (conn w1) u then (w1, AlreadyUsed)
  else
    let '(w2, claimed) := _save_used_url f write_fails u None (Some term) theme_name w1 in
    if claimed then (w2, Proceeds) else (w2, LostRace).

End WithUrlparse.

End Session.

(** ** Names in a bank, for every integer ([pipeline.py], line 59) *)

Module BankNames.
Import Pipeline.

(** [f"{n:02d}"]: the sign counts in the width. *)
Definition format_02d (n : Z) : string :=
  if (n <? 0)%Z then "-" +:+ Names.decimal (- n) else Names.pad2 n.

(** [f"{theme}_{next_num:02d}.wav"]. *)
Definition bank_file (theme : string) (n : Z) : string :=
  theme +:+ "_" +:+ format_02d n +:+ ".wav".

End BankNames.

(** ** What a bank holds *)

Module Banks.
Import Pipeline.

(** The bank of a theme, empty when its directory does not exist. *)
Definition bank (theme : string) (fs : Files) : gset string :=
  default ∅ (banks fs !! theme).

(** What the glob ["*.wav"] finds in a directory. *)
Definition wavs (d : gset string) : gset string := filter (fun p => is_wav p) d.

(** The audio files of the directory are those numbered 1 to [k]. *)
Definition numbered (bank_file : string -> Z -> string) (theme : string) (k : Z)
    (d : gset string) : Prop :=
  forall name, name ∈ wavs d <-> exists i, (1 <= i <= k)%Z /\ name = bank_file theme i.

End Banks.

(** ** The queries of a theme ([pipeline.py], lines 318-342) *)

Module Searches.



(** [s.split(sep)] for a separator of one character. *)
Fixpoint split (sep : ascii) (s : string) : list string :=
  match s with
  | EmptyString => [EmptyString]
  | String c rest =>
      if Ascii.eqb c sep then EmptyString :: split sep rest
      else match split sep rest with
           | [] => [String c EmptyString]
           | part :: parts => String c part :: parts
           end
  end.

(** What [str.strip()] removes, among ASCII characters: tab to carriage
    return, the four separators 28 to 31, and space. *)
Definition is_space (c : ascii) : bool :=
  let k := nat_of_ascii c in
  ((9 <=? k) && (k <=? 13))%nat || ((28 <=? k) && (k <=? 32))%nat.

Fixpoint lstrip (s : string) : string :=
  match s with
  | EmptyString => EmptyString
  | String c rest => if is_space c then lstrip rest else s
  end.

Fixpoint rstrip (s : string) : string :=
  match s with
  | EmptyString => EmptyString
  | String c rest =>
      match rstrip rest with
      | EmptyString => if is_space c then EmptyString else String c EmptyString
      | kept => String c kept
      end
  end.




End Searches.

(** ** The assignments of a run ([pipeline.py], lines 305-452) *)

Module Assignments.
Import Pipeline.

(** An assignment: the candidate handed to [_assign_with_scoring], the
    theme it was fetched for, and the counters and directories it found. *)
Record Event := mkEvent {
  fetched_for : string;
  slice : Candidate;
  found : State
}.

Section Logged.

Variable bank_file : string -> Z -> string.
Variable file_number : string -> string -> option Z.
Variable cfg : Config.

(** [assign_all], keeping what it assigned: a candidate is noted when the
    stop flag lets it through. *)
Fixpoint assign_all_logged (target_theme : string) (cands : list Candidate)
    (st : State) : (State * bool) * list Event :=
  match cands with
  | [] => ((st, false), [])
  | cand :: rest =>
      let noted :=
        if stop_requested cand then [] else [mkEvent target_theme cand st] in
      match assign_candidate bank_file file_number cfg target_theme cand st with
      | (st', Continue) =>
          let '(out, log) := assign_all_logged target_theme rest st' in
          (out, (noted ++ log)%list)
      | (st', Break) => ((st', false), noted)
      | (st', Raised) => ((st', true), noted)
      end
  end.

(** [fill_theme], keeping what it assigned. *)
Fixpoint fill_theme_logged (target_theme : string) (n_searches : Z)
    (batches : list Batch) (search_idx downloads_with_current_search : Z)
    (st : State) : (State * Status) * list Event :=
  if (samples_per_bank cfg <=? results st !!! target_theme)%Z then ((st, Completed), [])
  else
    match batches with
    | [] => ((st, Running), [])
    | b :: later =>
        if stop_at_top b then ((st, Completed), [])
        else if negb (max_retries cfg =? 0)%Z
                && (max_retries cfg <=? retries st !!! target_theme)%Z
        then ((st, Completed), [])
        else
          let idx := if (n_searches <=? search_idx)%Z then 0%Z else search_idx in
          if (n_searches <=? idx)%Z then ((st, Crashed), [])
          else
            let '(idx, dl) :=
              if (max_per_search cfg <=? downloads_with_current_search)%Z
              then ((idx + 1)%Z, 0%Z)
              else (idx, downloads_with_current_search) in
            let arrived :=
              mkState (results st) (retries st)
                (mkFiles (banks (files st))
                         (list_to_set (cand_path <$> downloaded b)
                          ∪ candidates (files st))) in
            match downloaded b with
            | [] =>
                if (n_searches <=? idx + 1)%Z then ((arrived, Completed), [])
                else fill_theme_logged target_theme n_searches later (idx + 1)%Z 0%Z
                       arrived
            | _ :: _ =>
                match assign_all_logged target_theme (downloaded b) arrived with
                | ((st', false), log) =>
                    let '(out, log') :=
                      fill_theme_logged target_theme n_searches later idx
                        (dl + Z.of_nat (length (downloaded b)))%Z st' in
                    (out, (log ++ log')%list)
                | ((st', true), log) => ((st', Crashed), log)
                end
            end
    end.

Definition run_theme_logged (theme_name : string) (env : ThemeEnv) (st : State)
  : (State * Status) * list Event :=
  if (samples_per_bank cfg <=? results st !!! theme_name)%Z then ((st, Completed), [])
  else if stop_at_theme env then ((st, Stopped), [])
  else fill_theme_logged theme_name (n_searches env) (batches env) 0 0 st.

Fixpoint run_themes_logged (themes : list string) (envs : list ThemeEnv) (st : State)
  : (State * Status) * list Event :=
  match themes, envs with
  | [], _ => ((st, Completed), [])
  | _ :: _, [] => ((st, Running), [])
  | theme_name :: themes', env :: envs' =>
      match run_theme_logged theme_name env st with
      | ((st', Completed), log) =>
          let '(out, log') := run_themes_logged themes' envs' st' in
          (out, (log ++ log')%list)
      | other => other
      end
  end.

(** The assignments of [run_pipeline], in the order they are made. *)
Definition assignments (fs : Files) (envs : list ThemeEnv) : list Event :=
  (run_themes_logged (theme_names cfg) envs (initial_state cfg fs)).2.

End Logged.

(** The assignment is into [t] from the turn of another theme. *)
Definition crosses_into (cfg : Config) (t : string) (e : Event) : Prop :=
  fetched_for e <> t /\ lands_in cfg (fetched_for e) (slice e) = Some t.

(** A slice cross-assigned into [t] finds its bank below the target. *)
Definition finds_room (cfg : Config) (t : string) (e : Event) : Prop :=
  crosses_into cfg t e -> (results (found e) !!! t < samples_per_bank cfg)%Z.

End Assignments.
(** * Properties *)

(** ** Strings *)

Module StrFacts.

Lemma app_cons (c : ascii) (s t : string) : String c s +:+ t = String c (s +:+ t).
Proof. reflexivity. Qed.

Lemma app_nil (t : string) : "" +:+ t = t.
Proof. reflexivity. Qed.

(** Pushes appends of literal text inside the constructors. *)
Ltac push_app := rewrite ?app_cons, ?app_nil.

Lemma append_empty (s : string) : s +:+ "" = s.
Proof. induction s as [|c s IH]; push_app; [done | by rewrite IH]. Qed.

Lemma append_assoc (a b c : string) : (a +:+ b) +:+ c = a +:+ b +:+ c.
Proof. induction a as [|x a IH]; push_app; [done | by rewrite IH]. Qed.

Lemma strip_prefix_append (lit s : string) :
  Str.strip_prefix lit (lit +:+ s) = Some s.
Proof.
  induction lit as [|a lit IH]; push_app; simpl; [done|].
  by rewrite Ascii.eqb_refl.
Qed.

Lemma has_char_append (c : ascii) (a b : string) :
  Str.has_char c (a +:+ b) = Str.has_char c a || Str.has_char c b.
Proof.
  induction a as [|x a IH]; push_app; simpl; [done|].
  rewrite IH. by destruct (Ascii.eqb c x).
Qed.

(** A literal that contains [c] is no prefix of a text without [c]. *)
Lemma strip_prefix_missing_char (c : ascii) (lit s : string) :
  Str.has_char c lit = true -> Str.has_char c s = false ->
  Str.strip_prefix lit s = None.
Proof.
  revert s. induction lit as [|a lit IH]; intros s Hl Hs; simpl in *; [done|].
  destruct s as [|b s]; [done|]. simpl in Hs.
  apply orb_false_iff in Hs as [Hb Hs].
  destruct (Ascii.eqb a b) eqn:Hab; [|done].
  apply Ascii.eqb_eq in Hab as ->.
  rewrite Hb in Hl. simpl in Hl. by apply IH.
Qed.

End StrFacts.

(** ** URL normalisation *)

Module UrlFacts.
Import Url StrFacts.

Lemma span_id_spec (s : string) :
  Str.all_chars is_id_char (span_id s).1 = true
  /\ ends_id (span_id s).2 = true
  /\ s = (span_id s).1 +:+ (span_id s).2.
Proof.
  induction s as [|c s (IH1 & IH2 & IH3)]; simpl; [done|].
  destruct (is_id_char c) eqn:Hc; simpl.
  - destruct (span_id s) as [g r]; simpl in *. rewrite Hc, app_cons. by rewrite <- IH3.
  - by rewrite Hc.
Qed.

Lemma span_id_append (g r : string) :
  Str.all_chars is_id_char g = true -> ends_id r = true ->
  span_id (g +:+ r) = (g, r).
Proof.
  intros Hg Hr. induction g as [|c g IH]; push_app; simpl in *.
  - destruct r as [|c r]; simpl in *; [done|].
    by destruct (is_id_char c).
  - apply andb_true_iff in Hg as [-> Hg]. by rewrite IH.
Qed.

Lemma group_at_valid (lit s g : string) :
  group_at lit s = Some g -> valid_id g = true.
Proof.
  unfold group_at. destruct (Str.strip_prefix lit s) as [rest|]; [|done].
  pose proof (span_id_spec rest) as (H1 & _ & _).
  destruct (span_id rest) as [[|c g'] r]; [done|].
  intros [= <-]. unfold valid_id. simpl in *. by rewrite H1.
Qed.

Lemma group_at_hit (lit g r : string) :
  valid_id g = true -> ends_id r = true ->
  group_at lit (lit +:+ g +:+ r) = Some g.
Proof.
  intros [Hne Hg]%andb_true_iff Hr. unfold group_at.
  rewrite strip_prefix_append, span_id_append by done.
  by destruct g.
Qed.

Lemma first_alt_valid (lits : list string) (s g : string) :
  first_alt lits s = Some g -> valid_id g = true.
Proof.
  induction lits as [|lit lits IH]; simpl; [done|].
  destruct (group_at lit s) eqn:E; [|done].
  intros [= <-]. by eapply group_at_valid.
Qed.

Lemma re_search_valid (lits : list string) (s g : string) :
  re_search lits s = Some g -> valid_id g = true.
Proof.
  induction s as [|c s IH]; simpl.
  - destruct (first_alt lits "") eqn:E; [|done].
    intros [= <-]. by eapply first_alt_valid.
  - destruct (first_alt lits (String c s)) eqn:E; [|done].
    intros [= <-]. by eapply first_alt_valid.
Qed.

(** Whatever [extract_video_id] returns is a well-formed id. *)
Lemma extract_video_id_valid (u v : string) :
  extract_video_id u = Some v -> valid_id v = true.
Proof.
  unfold extract_video_id. generalize YOUTUBE_URL_PATTERNS as ps.
  induction ps as [|p ps IH]; simpl; [done|].
  destruct (re_search p u) eqn:E; [|done].
  intros [= <-]. by eapply re_search_valid.
Qed.

Lemma first_alt_other_head (lits : list string) (c : ascii) (s : string) :
  Forall starts_with_y lits -> c <> "y"%char ->
  first_alt lits (String c s) = None.
Proof.
  intros Hl Hc. induction Hl as [|lit lits [l ->] _ IH]; simpl; [done|].
  unfold group_at. cbn [Str.strip_prefix].
  destruct (Ascii.eqb "y" c) eqn:E; [|done].
  apply Ascii.eqb_eq in E. congruence.
Qed.

(** A prefix without [y] is skipped by the search. *)
Lemma re_search_skip (lits : list string) (pre s : string) :
  Forall starts_with_y lits -> Str.has_char "y" pre = false ->
  re_search lits (pre +:+ s) = re_search lits s.
Proof.
  intros Hl. induction pre as [|c pre IH]; push_app;
    cbn [Str.has_char re_search]; [done|].
  intros [Hc Hp]%orb_false_iff.
  rewrite first_alt_other_head; [by apply IH | done |].
  intros ->. by rewrite Ascii.eqb_refl in Hc.
Qed.

(** No literal with a slash matches inside a text without slashes. *)
Lemma first_alt_no_slash (lits : list string) (s : string) :
  Forall (fun lit => Str.has_char "/" lit = true) lits ->
  Str.has_char "/" s = false ->
  first_alt lits s = None.
Proof.
  intros Hl Hs. induction Hl as [|lit lits Hlit _ IH]; simpl; [done|].
  unfold group_at. by rewrite (strip_prefix_missing_char "/").
Qed.

Lemma re_search_no_slash (lits : list string) (s : string) :
  Forall (fun lit => Str.has_char "/" lit = true) lits ->
  Str.has_char "/" s = false ->
  re_search lits s = None.
Proof.
  intros Hl. induction s as [|c s IH]; intros Hs; cbn [re_search].
  - by rewrite first_alt_no_slash.
  - rewrite first_alt_no_slash by done.
    cbn [Str.has_char] in Hs. apply orb_false_iff in Hs as [_ Hs]. by apply IH.
Qed.

Lemma id_char_not_slash (g : string) :
  Str.all_chars is_id_char g = true -> Str.has_char "/" g = false.
Proof.
  induction g as [|c g IH]; cbn [Str.all_chars Str.has_char]; [done|].
  intros [Hc Hg]%andb_true_iff. rewrite IH by done.
  destruct (Ascii.eqb "/" c) eqn:E; [|done].
  apply Ascii.eqb_eq in E as <-. by vm_compute in Hc.
Qed.

Lemma re_search_hit (lits : list string) (s g : string) :
  first_alt lits s = Some g -> re_search lits s = Some g.
Proof. intros H. destruct s; cbn [re_search]; by rewrite H. Qed.

Lemma patterns_start_with_y :
  Forall (Forall starts_with_y) YOUTUBE_URL_PATTERNS.
Proof. repeat constructor; eexists; reflexivity. Qed.

Lemma patterns_have_slash :
  Forall (Forall (fun lit => Str.has_char "/" lit = true)) YOUTUBE_URL_PATTERNS.
Proof. repeat constructor. Qed.

Lemma pattern1_y : Forall starts_with_y pattern1.
Proof. repeat constructor; eexists; reflexivity. Qed.
Lemma pattern2_y : Forall starts_with_y pattern2.
Proof. repeat constructor; eexists; reflexivity. Qed.
Lemma pattern3_y : Forall starts_with_y pattern3.
Proof. repeat constructor; eexists; reflexivity. Qed.

(** The three forms read by the first pattern. *)
Lemma search_watch (pre g r : string) :
  Str.has_char "y" pre = false -> valid_id g = true -> ends_id r = true ->
  re_search pattern1 (pre +:+ "youtube.com/watch?v=" +:+ g +:+ r) = Some g.
Proof.
  intros Hp Hg Hr. rewrite re_search_skip by first [done | apply pattern1_y].
  apply re_search_hit. cbn [pattern1 first_alt]. by rewrite group_at_hit.
Qed.

Lemma search_short (pre g r : string) :
  Str.has_char "y" pre = false -> valid_id g = true -> ends_id r = true ->
  re_search pattern1 (pre +:+ "youtu.be/" +:+ g +:+ r) = Some g.
Proof.
  intros Hp Hg Hr. rewrite re_search_skip by first [done | apply pattern1_y].
  apply re_search_hit. cbn [pattern1 first_alt].
  change (group_at "youtube.com/watch?v=" ("youtu.be/" +:+ g +:+ r)) with (@None string).
  by rewrite group_at_hit.
Qed.

Lemma search_embed (pre g r : string) :
  Str.has_char "y" pre = false -> valid_id g = true -> ends_id r = true ->
  re_search pattern1 (pre +:+ "youtube.com/embed/" +:+ g +:+ r) = Some g.
Proof.
  intros Hp Hg Hr. rewrite re_search_skip by first [done | apply pattern1_y].
  apply re_search_hit. cbn [pattern1 first_alt].
  change (group_at "youtube.com/watch?v=" ("youtube.com/embed/" +:+ g +:+ r))
    with (@None string).
  change (group_at "youtu.be/" ("youtube.com/embed/" +:+ g +:+ r)) with (@None string).
  by rewrite group_at_hit.
Qed.

(** Text made of an id and a slash-free tail holds no match. *)
Lemma no_match_in_tail (lits : list string) (g r : string) :
  Forall (fun lit => Str.has_char "/" lit = true) lits ->
  valid_id g = true -> Str.has_char "/" r = false ->
  re_search lits (g +:+ r) = None.
Proof.
  intros Hl [_ Hg]%andb_true_iff Hr. apply re_search_no_slash; [done|].
  by rewrite has_char_append, id_char_not_slash, Hr.
Qed.

(** The forms read by the second and third patterns: the earlier patterns
    must find nothing in the whole URL. *)
Lemma extract_shorts (pre g r : string) :
  Str.has_char "y" pre = false -> valid_id g = true -> ends_id r = true ->
  Str.has_char "/" r = false ->
  extract_video_id (pre +:+ "youtube.com/shorts/" +:+ g +:+ r) = Some g.
Proof.
  intros Hp Hg Hr Hs. unfold extract_video_id, YOUTUBE_URL_PATTERNS.
  cbn [first_match].
  rewrite (re_search_skip pattern1) by first [done | apply pattern1_y].
  change (re_search pattern1 ("youtube.com/shorts/" +:+ g +:+ r))
    with (re_search pattern1 (g +:+ r)).
  rewrite no_match_in_tail by first [done | repeat constructor].
  rewrite (re_search_skip pattern2) by first [done | apply pattern2_y].
  change (re_search pattern2 ("youtube.com/shorts/" +:+ g +:+ r))
    with (re_search pattern2 (g +:+ r)).
  rewrite no_match_in_tail by first [done | repeat constructor].
  rewrite (re_search_skip pattern3) by first [done | apply pattern3_y].
  erewrite re_search_hit; [done|].
  cbn [pattern3 first_alt]. by rewrite group_at_hit.
Qed.

Lemma extract_v (pre g r : string) :
  Str.has_char "y" pre = false -> valid_id g = true -> ends_id r = true ->
  Str.has_char "/" r = false ->
  extract_video_id (pre +:+ "youtube.com/v/" +:+ g +:+ r) = Some g.
Proof.
  intros Hp Hg Hr Hs. unfold extract_video_id, YOUTUBE_URL_PATTERNS.
  cbn [first_match].
  rewrite (re_search_skip pattern1) by first [done | apply pattern1_y].
  change (re_search pattern1 ("youtube.com/v/" +:+ g +:+ r))
    with (re_search pattern1 (g +:+ r)).
  rewrite no_match_in_tail by first [done | repeat constructor].
  rewrite (re_search_skip pattern2) by first [done | apply pattern2_y].
  erewrite re_search_hit; [done|].
  cbn [pattern2 first_alt]. by rewrite group_at_hit.
Qed.

Lemma extract_by_pattern1 (u g : string) :
  re_search pattern1 u = Some g -> extract_video_id u = Some g.
Proof.
  intros H. unfold extract_video_id, YOUTUBE_URL_PATTERNS. cbn [first_match].
  by rewrite H.
Qed.

Section Normalize.

Variable urlparse : string -> ParseResult.

Lemma normalize_of_extract (u g : string) :
  extract_video_id u = Some g ->
  normalize_url urlparse u = (watch_url g, Some g).
Proof.
  intros H. unfold normalize_url. rewrite H.
  apply extract_video_id_valid in H as [-> _]%andb_true_iff. done.
Qed.

(** The canonical URL of an id is read back as that id. *)
Lemma extract_watch_url (g : string) :
  valid_id g = true -> extract_video_id (watch_url g) = Some g.
Proof.
  intros Hg. apply extract_by_pattern1.
  pose proof (search_watch "https://www." g "" eq_refl Hg eq_refl) as H.
  by rewrite append_empty in H.
Qed.

(** Normalising twice is normalising once, whenever an id is found. *)
Lemma normalize_idempotent_on_videos (u g : string) :
  extract_video_id u = Some g ->
  normalize_url urlparse (normalize_url urlparse u).1 = normalize_url urlparse u.
Proof.
  intros H. rewrite (normalize_of_extract u g H). simpl.
  apply normalize_of_extract, extract_watch_url.
  by eapply extract_video_id_valid.
Qed.

End Normalize.

End UrlFacts.

(** C9, as it fails: a watch URL whose extra query parameter precedes [v=]
    carries the id [abc], yet no pattern reads it; it is normalized to its
    path, without an id, and so differently from the short link of the same
    video. *)
Lemma watch_url_with_leading_parameter :
  Url.normalize_url UrlLib.urlparse "https://www.youtube.com/watch?feature=share&v=abc"
    = ("https://www.youtube.com/watch", None)
  /\ Url.normalize_url UrlLib.urlparse "https://youtu.be/abc"
    = ("https://www.youtube.com/watch?v=abc", Some "abc")
  /\ Url.normalize_url UrlLib.urlparse "https://www.youtube.com/watch?feature=share&v=abc"
     <> Url.normalize_url UrlLib.urlparse "https://youtu.be/abc".
Proof. split; [reflexivity|]. split; [reflexivity|]. by vm_compute. Qed.

(** C9, amended.  [normalize_url] is a function of the URL alone, and for
    every video id [id] (a non-empty run of [[a-zA-Z0-9_-]]) these forms all
    map to the canonical watch URL of [id] and to the id [id]: the watch URL
    [...youtube.com/watch?v=id] with or without further text after the id
    (extra parameters appended), the short link [youtu.be/id], the embed
    form [youtube.com/embed/id], and the shorts form [youtube.com/shorts/id]
    (when what follows the id holds no slash); whatever precedes the host
    holds no [y] ([https://], [http://www.], [https://m.]).  Normalizing the
    normalized URL gives the same pair again. *)
Theorem normalize_platform_forms
    (urlparse : string -> Url.ParseResult) (pre id rest : string) :
  Url.valid_id id = true ->
  Str.has_char "y" pre = false ->
  Url.ends_id rest = true ->
  Url.normalize_url urlparse (pre +:+ "youtube.com/watch?v=" +:+ id +:+ rest)
    = (Url.watch_url id, Some id)
  /\ Url.normalize_url urlparse (pre +:+ "youtu.be/" +:+ id +:+ rest)
    = (Url.watch_url id, Some id)
  /\ Url.normalize_url urlparse (pre +:+ "youtube.com/embed/" +:+ id +:+ rest)
    = (Url.watch_url id, Some id)
  /\ (Str.has_char "/" rest = false ->
      Url.normalize_url urlparse (pre +:+ "youtube.com/shorts/" +:+ id +:+ rest)
        = (Url.watch_url id, Some id))
  /\ Url.normalize_url urlparse (Url.watch_url id) = (Url.watch_url id, Some id).
Proof.
  intros Hid Hpre Hrest. repeat split.
  - by apply UrlFacts.normalize_of_extract, UrlFacts.extract_by_pattern1,
      UrlFacts.search_watch.
  - by apply UrlFacts.normalize_of_extract, UrlFacts.extract_by_pattern1,
      UrlFacts.search_short.
  - by apply UrlFacts.normalize_of_extract, UrlFacts.extract_by_pattern1,
      UrlFacts.search_embed.
  - intros Hs. by apply UrlFacts.normalize_of_extract, UrlFacts.extract_shorts.
  - by apply UrlFacts.normalize_of_extract, UrlFacts.extract_watch_url.
Qed.

Lemma normalize_platform_forms_witness :
  Url.valid_id "dQw4w9WgXcQ" = true
  /\ Str.has_char "y" "https://www." = false
  /\ Url.ends_id "&t=10s" = true
  /\ Url.normalize_url UrlLib.urlparse
       ("https://www." +:+ "youtube.com/watch?v=" +:+ "dQw4w9WgXcQ" +:+ "&t=10s")
     = (Url.watch_url "dQw4w9WgXcQ", Some "dQw4w9WgXcQ").
Proof.
  split; [reflexivity|]. split; [reflexivity|]. split; [reflexivity|].
  apply (normalize_platform_forms UrlLib.urlparse "https://www." "dQw4w9WgXcQ" "&t=10s");
    reflexivity.
Defined.

(** ** The ledger *)

Module LedgerFacts.
Import Ledger.

Lemma conn_eta (c : Conn) : pending c = None -> mkConn (committed c) None = c.
Proof. destruct c; simpl; by intros ->. Qed.

(** A raise inside the [try] block of [add_hash] leaves the committed
    tables as they were. *)
Lemma add_hash_try_raise f h p u m c c1 e :
  add_hash_try f h p u m c = (c1, Raise e) -> committed c1 = committed c.
Proof.
  unfold add_hash_try, mbind, tx_bind, mret, tx_ret, execute_begin, select_hash,
    insert_hash, commit, tx_rollback.
  repeat (case_match; simplify_eq/=); try done; intros; by simplify_eq/=.
Qed.

Lemma add_url_try_raise f u n vid t s th c c1 e :
  add_url_try f u n vid t s th c = (c1, Raise e) -> committed c1 = committed c.
Proof.
  unfold add_url_try, mbind, tx_bind, mret, tx_ret, execute_begin, select_url,
    insert_url, commit, tx_rollback.
  repeat (case_match; simplify_eq/=); try done; intros; by simplify_eq/=.
Qed.

Lemma lower_char_query (c : ascii) :
  Ascii.eqb "?" (Str.lower_char c) = Ascii.eqb "?" c.
Proof. by destruct c as [[] [] [] [] [] [] [] []]. Qed.

Lemma has_query_lower (s : string) :
  Str.has_char "?" (Str.lower s) = Str.has_char "?" s.
Proof.
  induction s as [|c s IH]; [done|].
  cbn [Str.lower Str.has_char]. by rewrite lower_char_query, IH.
Qed.

Lemma append_inj (p a b : string) : p +:+ a = p +:+ b -> a = b.
Proof.
  induction p as [|c p IH]; rewrite ?StrFacts.app_cons, ?StrFacts.app_nil; [done|].
  intros [= H]. by apply IH.
Qed.

Lemma watch_url_inj (v1 v2 : string) : Url.watch_url v1 = Url.watch_url v2 -> v1 = v2.
Proof. apply append_inj. Qed.

Lemma watch_url_has_query (v : string) : Str.has_char "?" (Url.watch_url v) = true.
Proof. reflexivity. Qed.

Section WithUrlparse.

Variable urlparse : string -> Url.ParseResult.
Hypothesis Hsplit : Url.splits_query urlparse.

Local Abbreviation normalize_url := (Url.normalize_url urlparse).
Local Abbreviation url_key := (Ledger.url_key urlparse).
Local Abbreviation keys := (Ledger.keys urlparse).
Local Abbreviation well_formed := (Ledger.well_formed urlparse).

(** The fallback form of a URL without an id is never the canonical URL of
    a video. *)
Lemma fallback_is_no_watch_url (u v : string) :
  Url.extract_video_id u = None -> Url.valid_id v = true ->
  Url.fallback_url urlparse u <> Url.watch_url v.
Proof.
  intros Hu Hv. unfold Url.fallback_url.
  destruct (Hsplit u) as (Hs & Hn & Hp).
  destruct (Str.truthy _ && Str.truthy _).
  - intros E. apply (f_equal (Str.has_char "?")) in E.
    rewrite watch_url_has_query in E.
    rewrite !StrFacts.has_char_append, has_query_lower, Hs, Hn, Hp in E.
    done.
  - intros ->. rewrite UrlFacts.extract_watch_url in Hu; done.
Qed.

(** The two shapes of a normalization. *)
Lemma normalize_cases (u : string) :
  (exists v, Url.extract_video_id u = Some v /\ Url.valid_id v = true
             /\ normalize_url u = (Url.watch_url v, Some v))
  \/ (Url.extract_video_id u = None
      /\ normalize_url u = (Url.fallback_url urlparse u, None)).
Proof.
  destruct (Url.extract_video_id u) as [v|] eqn:E.
  - left. exists v. split; [done|]. split; [by eapply UrlFacts.extract_video_id_valid|].
    by apply UrlFacts.normalize_of_extract.
  - right. split; [done|]. unfold Url.normalize_url. by rewrite E.
Qed.

Lemma url_key_normalize (u1 u2 : string) :
  url_key u1 = url_key u2 <-> normalize_url u1 = normalize_url u2.
Proof.
  unfold Ledger.url_key.
  destruct (normalize_cases u1) as [(v1 & _ & _ & ->)|[_ ->]],
           (normalize_cases u2) as [(v2 & _ & _ & ->)|[_ ->]];
    split; intros H; try done.
  - injection H as ->. done.
  - injection H as _ ->. done.
  - injection H as ->. done.
  - injection H as ->. done.
Qed.

Lemma row_check (u : string) (r : UrlRow) :
  normalized_url r = Some (normalize_url (url r)).1 ->
  video_id r = (normalize_url (url r)).2 ->
  (if truthy_opt (normalize_url u).2 then video_id_is (normalize_url u).2 else normalized_is (normalize_url u).1) r = true
  <-> url_key (url r) = url_key u.
Proof.
  intros Hn Hv. unfold Ledger.url_key.
  destruct (normalize_cases u) as [(v & Eu & Vv & ->)|[Eu ->]]; simpl.
  - apply andb_true_iff in Vv as [Vt Vv]. rewrite Vt.
    unfold video_id_is. rewrite bool_decide_eq_true, Hv.
    destruct (normalize_cases (url r)) as [(v' & Er & Vv' & ->)|[Er ->]]; simpl.
    + split; [intros [_ [= ->]]; done | intros [= ->]; eauto].
    + split; [intros [_ [=]] | done].
  - unfold normalized_is. rewrite bool_decide_eq_true, Hn.
    destruct (normalize_cases (url r)) as [(v' & Er & Vv' & ->)|[Er ->]]; simpl.
    + split; [|done].
      intros [= E]. symmetry in E. by apply fallback_is_no_watch_url in E.
    + split; intros [= ->]; done.
Qed.

Lemma check_spec (u : string) (c : Conn) :
  well_formed c ->
  existsb (if truthy_opt (normalize_url u).2 then video_id_is (normalize_url u).2
           else normalized_is (normalize_url u).1) (used_urls (committed c)) = true
  <-> url_key u ∈ keys c.
Proof.
  intros (_ & Hrows & _). unfold Ledger.keys.
  rewrite existsb_exists, list_elem_of_fmap.
  split.
  - intros (r & Hr%list_elem_of_In & Hc). exists r. split; [|done].
    symmetry. destruct (Hrows r Hr). by apply row_check.
  - intros (r & Hk & Hr). exists r. split; [by apply list_elem_of_In|].
    destruct (Hrows r Hr). by apply row_check.
Qed.

Lemma same_url_same_key (u : string) (c : Conn) :
  existsb (fun r => String.eqb (url r) u) (used_urls (committed c)) = true ->
  url_key u ∈ keys c.
Proof.
  rewrite existsb_exists. intros (r & Hr%list_elem_of_In & <-%String.eqb_eq).
  unfold Ledger.keys. apply list_elem_of_fmap. eauto.
Qed.

Lemma call_add_url_spec (a : AddUrl) (c c' : Conn) (b : bool) :
  well_formed c ->
  call_add_url urlparse a c = (c', b) ->
  (b = true ->
     (url_key (arg_url a) ∉ keys c)
     /\ c' = mkConn (mkTables (audio_hashes (committed c))
                              (used_urls (committed c) ++ [row_of urlparse a])) None)
  /\ (b = false -> c' = c)
  /\ ((forall s, arg_faults a s = false) ->
      b = negb (bool_decide (url_key (arg_url a) ∈ keys c))).
Proof.
  intros Hwf. pose proof Hwf as (Hp & _ & _).
  pose proof (check_spec (arg_url a) c Hwf) as Hchk.
  pose proof (same_url_same_key (arg_url a) c) as Hpk.
  unfold call_add_url, add_url, row_of.
  destruct (normalize_url (arg_url a)) as [n vid]. simpl in Hchk.
  unfold add_url_try, mbind, tx_bind, mret, tx_ret, execute_begin, select_url,
    insert_url, commit, tx_rollback, rollback, current.
  rewrite Hp. simpl.
  assert (Hno : forall s, arg_faults a s = true ->
            (forall s', arg_faults a s' = false) -> False)
    by (intros s Hs H; by rewrite H in Hs).
  destruct (arg_faults a SBegin) eqn:Fb; simpl.
  { intros [= <- <-]. rewrite conn_eta by done.
    split; [done|]. split; [done|]. intros H. by rewrite H in Fb. }
  destruct (truthy_opt vid); simpl in *.
  all: destruct (arg_faults a SSelect) eqn:Fs; simpl;
    [ intros [= <- <-]; rewrite conn_eta by done;
      split; [done|]; split; [done|]; intros H; exfalso; eapply Hno; [eassumption | exact H] |].
  all: match goal with |- context [existsb ?f ?l] => destruct (existsb f l) eqn:Ec end; simpl;
    [ intros [= <- <-]; rewrite conn_eta by done;
      split; [done|]; split; [done|]; intros _;
      rewrite bool_decide_eq_true_2 by (by apply Hchk); done |].
  all: assert (Hnot : url_key (arg_url a) ∉ keys c)
    by (intros Hin; apply Hchk in Hin; congruence).
  all: destruct (arg_faults a SInsert) eqn:Fi; simpl;
    [ intros [= <- <-]; rewrite conn_eta by done;
      split; [done|]; split; [done|]; intros H; exfalso; eapply Hno; [eassumption | exact H] |].
  all: match goal with |- context [existsb ?f ?l] => destruct (existsb f l) eqn:Epk end; simpl;
    [ by destruct Hnot; apply Hpk |].
  all: destruct (arg_faults a SCommit) eqn:Fc; simpl;
    [ intros [= <- <-]; rewrite conn_eta by done;
      split; [done|]; split; [done|]; intros H; exfalso; eapply Hno; [eassumption | exact H] |].
  all: intros [= <- <-]; split; [done|]; split; [done|]; intros _;
    by rewrite bool_decide_eq_false_2.
Qed.

Lemma fresh_conn_well_formed : well_formed fresh_conn.
Proof.
  split; [done|]. split; [|constructor].
  intros r Hr. by apply elem_of_nil in Hr.
Qed.

Lemma row_of_url (a : AddUrl) : url (row_of urlparse a) = arg_url a.
Proof. unfold row_of. by destruct (normalize_url (arg_url a)). Qed.

(** A call keeps the table well formed; it adds the identity of its URL
    when it answers [True], and nothing otherwise. *)
Lemma call_add_url_keeps (a : AddUrl) (c c' : Conn) (b : bool) :
  well_formed c ->
  call_add_url urlparse a c = (c', b) ->
  well_formed c'
  /\ keys c' = (keys c ++ (if b then [url_key (arg_url a)] else []))%list
  /\ (b = true -> url_key (arg_url a) ∉ keys c)
  /\ ((forall s, arg_faults a s = false) ->
      b = negb (bool_decide (url_key (arg_url a) ∈ keys c))).
Proof.
  intros Hwf Hcall.
  destruct (call_add_url_spec a c c' b Hwf Hcall) as (Ht & Hf & Hn).
  destruct b.
  - destruct (Ht eq_refl) as [Hnew ->]. clear Ht Hf.
    destruct Hwf as (Hp & Hrows & Hnd).
    assert (Hk : keys (mkConn (mkTables (audio_hashes (committed c))
                (used_urls (committed c) ++ [row_of urlparse a])) None)
                 = (keys c ++ [url_key (arg_url a)])%list).
    { unfold Ledger.keys. simpl. rewrite fmap_app. simpl. by rewrite (row_of_url a). }
    split; [|by eauto].
    split; [done|]. split.
    + simpl. intros r [Hr|Hr%list_elem_of_singleton]%elem_of_app; [by apply Hrows|].
      subst r. unfold row_of. simpl.
      by destruct (normalize_url (arg_url a)) eqn:E; simpl; rewrite E.
    + rewrite Hk. apply NoDup_app. split; [done|]. split; [|apply NoDup_singleton].
      intros k Hin ->%list_elem_of_singleton. done.
  - rewrite (Hf eq_refl). rewrite app_nil_r. by eauto.
Qed.

Lemma add_urls_cons (a : AddUrl) (rest : list AddUrl) (c : Conn) :
  add_urls urlparse (a :: rest) c
  = ((add_urls urlparse rest (call_add_url urlparse a c).1).1,
     (call_add_url urlparse a c).2
       :: (add_urls urlparse rest (call_add_url urlparse a c).1).2).
Proof.
  simpl. destruct (call_add_url urlparse a c) as [c1 b]. simpl.
  by destruct (add_urls urlparse rest c1).
Qed.

Lemma add_urls_app (l1 l2 : list AddUrl) (c : Conn) :
  (add_urls urlparse (l1 ++ l2) c).1
  = (add_urls urlparse l2 (add_urls urlparse l1 c).1).1.
Proof.
  revert c. induction l1 as [|a l1 IH]; intros c; [done|].
  rewrite <- app_comm_cons, !add_urls_cons. simpl. apply IH.
Qed.

(** Calls keep the table well formed and never remove an identity. *)
Lemma add_urls_keeps (calls : list AddUrl) (c : Conn) :
  well_formed c ->
  well_formed (add_urls urlparse calls c).1
  /\ (forall k, k ∈ keys c -> k ∈ keys (add_urls urlparse calls c).1).
Proof.
  revert c. induction calls as [|a calls IH]; intros c Hwf; [done|].
  rewrite add_urls_cons. simpl.
  destruct (call_add_url urlparse a c) as [c1 b] eqn:E. simpl.
  destruct (call_add_url_keeps a c c1 b Hwf E) as (Hwf1 & Hk & _).
  destruct (IH c1 Hwf1) as [Hwf2 Hmono]. split; [done|].
  intros k Hin. apply Hmono. rewrite Hk. apply elem_of_app. by left.
Qed.

(** In a run without storage faults, a call answers [True] exactly when the
    identity of its URL is not in the table yet and no earlier call of the
    run had it. *)
Lemma add_urls_first (calls : list AddUrl) (c : Conn) (i : nat) (a : AddUrl) (b : bool) :
  well_formed c -> Forall fault_free calls ->
  calls !! i = Some a -> (add_urls urlparse calls c).2 !! i = Some b ->
  (b = true <->
   (url_key (arg_url a) ∉ keys c)
   /\ forall j a', (j < i)%nat -> calls !! j = Some a' ->
        url_key (arg_url a') <> url_key (arg_url a)).
Proof.
  revert c i. induction calls as [|a0 calls IH]; intros c i Hwf Hff Hi Hb; [done|].
  rewrite add_urls_cons in Hb. simpl in Hb.
  destruct (call_add_url urlparse a0 c) as [c1 b0] eqn:E. simpl in Hb.
  apply Forall_cons in Hff as [Hff0 Hff].
  destruct (call_add_url_keeps a0 c c1 b0 Hwf E) as (Hwf1 & Hk & _ & Hb0).
  specialize (Hb0 Hff0).
  destruct i as [|i]; simpl in Hi, Hb.
  - simplify_eq. split.
    + intros Ht. split; [|intros j a' Hj; lia].
      intros Hin. by rewrite bool_decide_eq_true_2 in Ht.
    + intros [Hnot _]. by rewrite bool_decide_eq_false_2.
  - rewrite (IH c1 i Hwf1 Hff Hi Hb). rewrite Hk. split.
    + intros [Hnot Hearlier]. split.
      * intros Hin. apply Hnot, elem_of_app. by left.
      * intros [|j] a' Hj Ha'; simpl in Ha'.
        -- simplify_eq. intros Heq. apply Hnot. rewrite <- Heq.
           destruct (bool_decide (url_key (arg_url a') ∈ keys c)) eqn:Ed; simpl.
           ++ apply bool_decide_eq_true in Ed. rewrite app_nil_r. done.
           ++ apply elem_of_app. right. by apply list_elem_of_singleton.
        -- apply (Hearlier j a'); [lia | done].
    + intros [Hnot Hearlier]. split.
      * intros [Hin|Hin]%elem_of_app; [done|].
        destruct b0; [|by apply elem_of_nil in Hin].
        apply list_elem_of_singleton in Hin.
        by apply (Hearlier 0%nat a0); [lia | | ].
      * intros j a' Hj Ha'. apply (Hearlier (S j) a'); [lia | done].
Qed.

(** Whatever the faults, a call that answers [True] has an identity that
    was not in the table and that no earlier call of the run has claimed
    with [True]. *)
Lemma add_urls_true_is_new (calls : list AddUrl) (c : Conn) (i : nat) (a : AddUrl) :
  well_formed c ->
  calls !! i = Some a -> (add_urls urlparse calls c).2 !! i = Some true ->
  (url_key (arg_url a) ∉ keys c)
  /\ forall j a', (j < i)%nat -> calls !! j = Some a' ->
       (add_urls urlparse calls c).2 !! j = Some true ->
       url_key (arg_url a') <> url_key (arg_url a).
Proof.
  revert c i. induction calls as [|a0 calls IH]; intros c i Hwf Hi Hb; [done|].
  rewrite add_urls_cons in Hb |- *. simpl in Hb |- *.
  destruct (call_add_url urlparse a0 c) as [c1 b0] eqn:E. simpl in Hb |- *.
  destruct (call_add_url_keeps a0 c c1 b0 Hwf E) as (Hwf1 & Hk & Hnew & _).
  destruct i as [|i]; simpl in Hi, Hb.
  - simplify_eq. split; [by apply Hnew | intros j a' Hj; lia].
  - destruct (IH c1 i Hwf1 Hi Hb) as [Hnot Hearlier]. rewrite Hk in Hnot. split.
    + intros Hin. apply Hnot, elem_of_app. by left.
    + intros [|j] a' Hj Ha' Hbj; simpl in Ha', Hbj.
      * simplify_eq. intros Heq. apply Hnot. rewrite <- Heq.
        apply elem_of_app. right. by apply list_elem_of_singleton.
      * apply (Hearlier j a'); [lia | done | done].
Qed.
(** Every form of a claimed URL is reported as used. *)
Lemma has_url_of_key (c : Conn) (u : string) :
  well_formed c -> url_key u ∈ keys c -> has_url urlparse c u = true.
Proof.
  intros Hwf Hin. pose proof Hwf as (Hp & _ & _).
  apply (check_spec u c Hwf) in Hin. unfold has_url, current.
  destruct (normalize_url u) as [n vid]. rewrite Hp. simpl in *.
  destruct (truthy_opt vid); simpl.
  - by rewrite Hin.
  - apply existsb_exists in Hin as (r & Hr & Hc).
    apply existsb_exists. exists r. split; [done|]. by rewrite Hc.
Qed.

(** In a well-formed table no two rows share a normalized URL or a video
    id. *)
Lemma well_formed_no_sharing (c : Conn) (i j : nat) (r1 r2 : UrlRow) :
  well_formed c -> i <> j ->
  used_urls (committed c) !! i = Some r1 ->
  used_urls (committed c) !! j = Some r2 ->
  ~ share_identity r1 r2.
Proof.
  intros (_ & Hrows & Hnd) Hij H1 H2 Hshare. apply Hij.
  apply (NoDup_lookup (keys c) i j (url_key (url r1))); [done | |].
  - unfold Ledger.keys. by rewrite list_lookup_fmap, H1.
  - unfold Ledger.keys. rewrite list_lookup_fmap, H2. simpl. f_equal.
    destruct (Hrows r1) as [Hn1 Hv1]; [by eapply list_elem_of_lookup_2|].
    destruct (Hrows r2) as [Hn2 Hv2]; [by eapply list_elem_of_lookup_2|].
    unfold Ledger.url_key.
    destruct Hshare as [Hs|[[v Hv] Hs]].
    + rewrite Hn1, Hn2 in Hs. injection Hs as Hs.
      destruct (normalize_cases (url r1)) as [(v1 & E1 & V1 & N1)|[E1 N1]],
               (normalize_cases (url r2)) as [(v2 & E2 & V2 & N2)|[E2 N2]];
        rewrite N1, N2 in *; simpl in *.
      * by apply watch_url_inj in Hs as ->.
      * symmetry in Hs. by apply fallback_is_no_watch_url in Hs.
      * by apply fallback_is_no_watch_url in Hs.
      * by rewrite Hs.
    + rewrite Hv in Hs. rewrite Hv1 in Hv. rewrite Hv2 in Hs.
      destruct (normalize_url (url r1)) as [n1 o1], (normalize_url (url r2)) as [n2 o2].
      simpl in *. by subst.
Qed.

End WithUrlparse.

End LedgerFacts.

(** C4.  Whenever a statement of the check-and-insert transaction of
    [add_url] or [add_hash] raises a storage error (the storage layer
    failing at [BEGIN], [SELECT], [INSERT] or [COMMIT], or a constraint
    refusing the row), the call answers [False] and the connection is as it
    was before the call: both tables unchanged, no transaction left open. *)
Theorem storage_error_fails_closed
    (urlparse : string -> Url.ParseResult) (f : Ledger.Faults) (c : Ledger.Conn)
    (u : string) (title search_term theme_name : option string)
    (h : string) (file_path hash_url metadata : option string) :
  Ledger.pending c = None ->
  (Ledger.raises
     (Ledger.add_url_try f u (Url.normalize_url urlparse u).1
        (Url.normalize_url urlparse u).2 title search_term theme_name c) ->
   Ledger.add_url urlparse f u title search_term theme_name c = (c, false))
  /\ (Ledger.raises (Ledger.add_hash_try f h file_path hash_url metadata c) ->
      Ledger.add_hash f h file_path hash_url metadata c = (c, false)).
Proof.
  intros Hp. split; intros [e He].
  - unfold Ledger.add_url. destruct (Url.normalize_url urlparse u) as [n vid].
    simpl in He.
    destruct (Ledger.add_url_try f u n vid title search_term theme_name c)
      as [c1 r] eqn:E.
    simpl in He. subst r.
    apply LedgerFacts.add_url_try_raise in E.
    unfold Ledger.rollback. rewrite E. by rewrite LedgerFacts.conn_eta.
  - unfold Ledger.add_hash.
    destruct (Ledger.add_hash_try f h file_path hash_url metadata c)
      as [c1 r] eqn:E.
    simpl in He. subst r.
    apply LedgerFacts.add_hash_try_raise in E.
    unfold Ledger.rollback. rewrite E. by rewrite LedgerFacts.conn_eta.
Qed.

Lemma storage_error_fails_closed_witness :
  Ledger.pending Ledger.fresh_conn = None
  /\ Ledger.raises
       (Ledger.add_url_try (Ledger.fail_at Ledger.SCommit) "https://youtu.be/abc"
          (Url.normalize_url UrlLib.urlparse "https://youtu.be/abc").1
          (Url.normalize_url UrlLib.urlparse "https://youtu.be/abc").2
          None (Some "rain") (Some "Soft") Ledger.fresh_conn)
  /\ Ledger.add_url UrlLib.urlparse (Ledger.fail_at Ledger.SCommit)
       "https://youtu.be/abc" None (Some "rain") (Some "Soft") Ledger.fresh_conn
     = (Ledger.fresh_conn, false)
  /\ Ledger.raises
       (Ledger.add_hash_try (Ledger.fail_at Ledger.SCommit) "d41d8" None None None
          Ledger.fresh_conn)
  /\ Ledger.add_hash (Ledger.fail_at Ledger.SCommit) "d41d8" None None None
       Ledger.fresh_conn
     = (Ledger.fresh_conn, false).
Proof.
  pose proof (storage_error_fails_closed UrlLib.urlparse
                (Ledger.fail_at Ledger.SCommit) Ledger.fresh_conn
                "https://youtu.be/abc" None (Some "rain") (Some "Soft")
                "d41d8" None None None eq_refl) as [Hu Hh].
  assert (Ru : Ledger.raises
       (Ledger.add_url_try (Ledger.fail_at Ledger.SCommit) "https://youtu.be/abc"
          (Url.normalize_url UrlLib.urlparse "https://youtu.be/abc").1
          (Url.normalize_url UrlLib.urlparse "https://youtu.be/abc").2
          None (Some "rain") (Some "Soft") Ledger.fresh_conn))
    by (eexists; vm_compute; reflexivity).
  assert (Rh : Ledger.raises
       (Ledger.add_hash_try (Ledger.fail_at Ledger.SCommit) "d41d8" None None None
          Ledger.fresh_conn))
    by (eexists; vm_compute; reflexivity).
  split; [reflexivity|]. split; [exact Ru|]. split; [exact (Hu Ru)|].
  split; [exact Rh | exact (Hh Rh)].
Defined.

(** ** The URL splitting of the standard library *)

Module UrlLibFacts.
Import UrlLib.

Lemma scheme_chars_no_query (s : string) :
  Str.all_chars is_scheme_char s = true -> Str.has_char "?" s = false.
Proof.
  induction s as [|c s IH]; [done|]. cbn [Str.all_chars Str.has_char].
  intros [Hc Hs]%andb_true_iff. rewrite IH by done.
  destruct (Ascii.eqb "?" c) eqn:E; [|done].
  apply Ascii.eqb_eq in E as <-. by vm_compute in Hc.
Qed.

Lemma split_scheme_no_query (u : string) :
  Str.has_char "?" (split_scheme u).1 = false.
Proof.
  unfold split_scheme. destruct (split_at ":" u) as [[|c pre] [rest|]]; try done.
  destruct (is_alpha c && _) eqn:E; [|done].
  apply andb_true_iff in E as [_ E]. cbn [fst].
  rewrite LedgerFacts.has_query_lower. by apply scheme_chars_no_query.
Qed.

Lemma split_netloc_no_query (s : string) :
  Str.has_char "?" (split_netloc s).1 = false.
Proof.
  induction s as [|c s IH]; [done|]. cbn [split_netloc].
  destruct (Ascii.eqb c "?") eqn:E.
  - by rewrite orb_true_r.
  - rewrite orb_false_r. destruct (Ascii.eqb c "/" || Ascii.eqb c "#"); [done|].
    destruct (split_netloc s) as [n r]. cbn [fst Str.has_char] in *.
    rewrite IH. by rewrite Ascii.eqb_sym, E.
Qed.

Lemma split_at_no_char (c : ascii) (s : string) :
  Str.has_char c (split_at c s).1 = false.
Proof.
  induction s as [|b s IH]; [done|]. cbn [split_at].
  destruct (Ascii.eqb c b) eqn:E; [done|].
  destruct (split_at c s) as [l r]. cbn [fst Str.has_char] in *. by rewrite E, IH.
Qed.

Lemma split_params_no_char (c : ascii) (s : string) :
  Str.has_char c s = false -> Str.has_char c (split_params s) = false.
Proof.
  induction s as [|b s IH]; [done|]. cbn [split_params Str.has_char].
  intros [Hb Hs]%orb_false_iff.
  destruct (Ascii.eqb b ";" && _); [done|].
  cbn [Str.has_char]. by rewrite Hb, IH.
Qed.

(** The splitting leaves no question mark in scheme, host or path. *)
Lemma urlparse_splits_query : Url.splits_query urlparse.
Proof.
  intros u. unfold urlparse.
  pose proof (split_scheme_no_query u) as Hs.
  destruct (split_scheme u) as [sch url1]. simpl in Hs.
  assert (Hn : forall p, Str.has_char "?"
            (match Str.strip_prefix "//" url1 with
             | Some after => split_netloc after
             | None => (EmptyString, p)
             end).1 = false).
  { intros p. destruct (Str.strip_prefix "//" url1); [apply split_netloc_no_query | done]. }
  specialize (Hn url1).
  destruct (match Str.strip_prefix "//" url1 with
            | Some after => split_netloc after
            | None => (EmptyString, url1)
            end) as [net url2].
  simpl in *. split; [done|]. split; [done|].
  case_bool_decide; [apply split_params_no_char|]; apply split_at_no_char.
Qed.

End UrlLibFacts.

(** C1.  Take any sequence of [add_url] calls on an empty ledger.
    (a) When the storage layer works, a call answers [True] exactly when no
    earlier call had a URL of the same identity (the same video id, or, when
    no id is extracted, the same normalized URL): the first call of each
    identity answers [True], every later one [False].
    (b) Whatever faults occur, no two calls of one identity both answer
    [True].
    (c) Once a call has answered [True], [has_url] answers [True] for every
    URL of that identity, whatever calls follow and whatever faults occur.
    (d) In every state such a sequence reaches, no two rows of [used_urls]
    share a normalized URL or a video id. *)
Theorem url_claimed_at_most_once (urlparse : string -> Url.ParseResult) :
  Url.splits_query urlparse ->
  (forall (calls : list Ledger.AddUrl) (i : nat) (a : Ledger.AddUrl) (b : bool),
      Forall Ledger.fault_free calls ->
      calls !! i = Some a ->
      (Ledger.add_urls urlparse calls Ledger.fresh_conn).2 !! i = Some b ->
      (b = true <->
       forall j a', (j < i)%nat -> calls !! j = Some a' ->
         Ledger.url_key urlparse (Ledger.arg_url a')
         <> Ledger.url_key urlparse (Ledger.arg_url a)))
  /\ (forall (calls : list Ledger.AddUrl) (i j : nat) (a a' : Ledger.AddUrl),
        (j < i)%nat ->
        calls !! i = Some a -> calls !! j = Some a' ->
        (Ledger.add_urls urlparse calls Ledger.fresh_conn).2 !! i = Some true ->
        (Ledger.add_urls urlparse calls Ledger.fresh_conn).2 !! j = Some true ->
        Ledger.url_key urlparse (Ledger.arg_url a')
        <> Ledger.url_key urlparse (Ledger.arg_url a))
  /\ (forall (before after : list Ledger.AddUrl) (a : Ledger.AddUrl) (u : string),
        (Ledger.call_add_url urlparse a
           (Ledger.add_urls urlparse before Ledger.fresh_conn).1).2 = true ->
        Ledger.url_key urlparse u = Ledger.url_key urlparse (Ledger.arg_url a) ->
        Ledger.has_url urlparse
          (Ledger.add_urls urlparse (before ++ a :: after) Ledger.fresh_conn).1 u
        = true)
  /\ (forall (calls : list Ledger.AddUrl) (i j : nat) (r1 r2 : Ledger.UrlRow),
        i <> j ->
        Ledger.used_urls
          (Ledger.current (Ledger.add_urls urlparse calls Ledger.fresh_conn).1) !! i
        = Some r1 ->
        Ledger.used_urls
          (Ledger.current (Ledger.add_urls urlparse calls Ledger.fresh_conn).1) !! j
        = Some r2 ->
        ~ Ledger.share_identity r1 r2).
Proof.
  intros Hsplit.
  pose proof (LedgerFacts.fresh_conn_well_formed urlparse) as Hfresh.
  split; [|split; [|split]].
  - intros calls i a b Hff Hi Hb.
    rewrite (LedgerFacts.add_urls_first urlparse Hsplit calls Ledger.fresh_conn i a b)
      by done.
    split; [by intros [_ H] | intros H; split; [|done]].
    unfold Ledger.keys. simpl. apply not_elem_of_nil.
  - intros calls i j a a' Hji Hi Hj Hbi Hbj.
    destruct (LedgerFacts.add_urls_true_is_new urlparse Hsplit calls Ledger.fresh_conn
                i a Hfresh Hi Hbi) as [_ H].
    by apply (H j a').
  - intros before after a u Ha Hu.
    rewrite LedgerFacts.add_urls_app.
    destruct (LedgerFacts.add_urls_keeps urlparse Hsplit before Ledger.fresh_conn Hfresh)
      as [Hwf1 _].
    set (c1 := (Ledger.add_urls urlparse before Ledger.fresh_conn).1) in *.
    rewrite LedgerFacts.add_urls_cons. simpl.
    destruct (Ledger.call_add_url urlparse a c1) as [c2 b] eqn:E. simpl in *. subst b.
    destruct (LedgerFacts.call_add_url_keeps urlparse Hsplit a c1 c2 true Hwf1 E)
      as (Hwf2 & Hk & _).
    destruct (LedgerFacts.add_urls_keeps urlparse Hsplit after c2 Hwf2) as [Hwf3 Hmono].
    apply LedgerFacts.has_url_of_key; [done..|].
    apply Hmono. rewrite Hk, Hu. apply elem_of_app. right.
    by apply list_elem_of_singleton.
  - intros calls i j r1 r2 Hij H1 H2.
    destruct (LedgerFacts.add_urls_keeps urlparse Hsplit calls Ledger.fresh_conn Hfresh)
      as [Hwf _].
    pose proof Hwf as (Hp & _).
    unfold Ledger.current in H1, H2. rewrite Hp in H1, H2. simpl in H1, H2.
    by eapply (LedgerFacts.well_formed_no_sharing urlparse Hsplit).
Qed.

Lemma url_claimed_at_most_once_witness :
  Url.splits_query UrlLib.urlparse
  /\ (Ledger.add_urls UrlLib.urlparse
        [ Ledger.mkAddUrl "https://youtu.be/abc" None None None Ledger.no_faults;
          Ledger.mkAddUrl "https://www.youtube.com/watch?v=abc&t=10s" None None None
            Ledger.no_faults ]
        Ledger.fresh_conn).2 = [true; false]
  /\ Ledger.has_url UrlLib.urlparse
       (Ledger.add_urls UrlLib.urlparse
          ([] ++ Ledger.mkAddUrl "https://youtu.be/abc" None None None Ledger.no_faults
              :: [])
          Ledger.fresh_conn).1
       "https://youtube.com/embed/abc" = true.
Proof.
  split; [exact UrlLibFacts.urlparse_splits_query|].
  split; [vm_compute; reflexivity|].
  destruct (url_claimed_at_most_once UrlLib.urlparse UrlLibFacts.urlparse_splits_query)
    as (_ & _ & H & _).
  apply H; vm_compute; reflexivity.
Defined.

(** ** Hashing *)

(** C10.  [calculate_file_hash] answers a string for every path and every
    behaviour of the file system: the digest when the file is read to its
    end, the empty string when [open] or a [read] fails.  A file that cannot
    be hashed is then reported as no duplicate by [_is_duplicate], whatever
    the ledger holds (even the empty string as a hash): the check fails
    open, where [add_hash] fails closed. *)
Theorem hashing_fails_open
    (md5_hexdigest : list Byte.byte -> string) (fs : Hashing.FileSystem)
    (file_path : string) (c : Ledger.Conn) :
  (forall digest,
      Hashing.calculate_file_hash_try md5_hexdigest fs file_path = Ok digest ->
      Hashing.calculate_file_hash md5_hexdigest fs file_path = digest)
  /\ (forall e,
        Hashing.calculate_file_hash_try md5_hexdigest fs file_path = Raise e ->
        Hashing.calculate_file_hash md5_hexdigest fs file_path = ""
        /\ Hashing._is_duplicate md5_hexdigest fs c file_path = false).
Proof.
  unfold Hashing._is_duplicate, Hashing.calculate_file_hash.
  split; [intros digest -> | intros e ->]; done.
Qed.

Lemma hashing_fails_open_witness :
  let md5 := fun _ : list Byte.byte => "d41d8cd98f00b204e9800998ecf8427e" in
  let fs := fun p : string =>
              if String.eqb p "gone.wav"
              then Hashing.OpenFails Hashing.FileNotFoundError
              else Hashing.Opened [Hashing.Data [Byte.x78]; Hashing.ReadFails Hashing.OtherOSError] in
  let c := (Ledger.add_hash Ledger.no_faults "" None None None Ledger.fresh_conn).1 in
  Hashing.calculate_file_hash_try md5 fs "gone.wav" = Raise Hashing.FileNotFoundError
  /\ Hashing.calculate_file_hash_try md5 fs "torn.wav" = Raise Hashing.OtherOSError
  /\ Ledger.has_hash c "" = true
  /\ (Hashing.calculate_file_hash md5 fs "gone.wav" = ""
      /\ Hashing._is_duplicate md5 fs c "gone.wav" = false)
  /\ (Hashing.calculate_file_hash md5 fs "torn.wav" = ""
      /\ Hashing._is_duplicate md5 fs c "torn.wav" = false).
Proof.
  intros md5 fs c.
  split; [reflexivity|]. split; [reflexivity|]. split; [reflexivity|].
  split.
  - apply (proj2 (hashing_fails_open md5 fs "gone.wav" c) Hashing.FileNotFoundError).
    reflexivity.
  - apply (proj2 (hashing_fails_open md5 fs "torn.wav" c) Hashing.OtherOSError).
    reflexivity.
Defined.

(** ** Sequential slicing *)

Module SlicingFacts.
Import Slicing.

(** Whenever [add_hash] refuses the slice at the current position, the loop
    ends there: nothing more is appended to [out]. *)
Lemma slice_loop_ends_at_duplicate
    (sound_len clip_ms slice_stride_ms : Z) (slice_hash : Z -> string)
    (out_path : nat -> string) (faults_at : Z -> Ledger.Faults)
    (unlink_raises : Z -> bool) (remaining taken : nat) (start : Z) (st : State) :
  (start + clip_ms <= sound_len)%Z ->
  (Ledger.add_hash (faults_at start) (slice_hash start) (Some (out_path (S taken)))
     None None (conn st)).2 = false ->
  out (slice_loop sound_len clip_ms slice_stride_ms slice_hash out_path faults_at
         unlink_raises (S remaining) taken start st) = out st.
Proof.
  intros Hfit Hdup. cbn [slice_loop].
  rewrite (proj2 (Z.leb_le _ _) Hfit).
  destruct (Ledger.add_hash _ _ _ _ _ _) as [c added]. simpl in Hdup. subst added.
  simpl. by destruct (unlink_raises start).
Qed.

End SlicingFacts.

(** C3, on the code.  A six-second source, two-second clips, a stride of two
    seconds, two slices wanted; the hash of the first slice is in the ledger
    already, the hash of the slice at the next stride position is new.  The
    duplicate is deleted, and the loop ends: no slice is returned, and the
    slice at 2000 ms is never exported nor registered.  The loop as the
    specification words it returns that slice; with an empty ledger the code
    itself yields both slices. *)
Lemma duplicate_slice_ends_slicing :
  let slice_hash := fun start : Z => if (start =? 0)%Z then "aaa" else "bbb" in
  let used := (Ledger.add_hash Ledger.no_faults "aaa" None None None Ledger.fresh_conn).1 in
  let run := fun ledger =>
    Slicing._process_to_candidate_slices 6000 2000 2000 slice_hash
      (fun _ => "clip.wav") (fun _ => Ledger.no_faults) (fun _ => false) 2
      (Slicing.mkState ledger ∅ []) in
  let specified :=
    Slicing.slice_loop_as_specified 6000 2000 2000 slice_hash
      (fun _ => "clip.wav") (fun _ => Ledger.no_faults) 4 2 0 0
      (Slicing.mkState used ∅ []) in
  Slicing.out (run used) = []
  /\ Slicing.processed (run used) = ∅
  /\ Ledger.has_hash (Slicing.conn (run used)) "bbb" = false
  /\ Slicing.slice_start_ms <$> Slicing.out specified = [2000%Z]
  /\ Slicing.slice_start_ms <$> Slicing.out (run Ledger.fresh_conn) = [0%Z; 2000%Z].
Proof. vm_compute. repeat split; reflexivity. Qed.

(** ** Download strategy *)

Module DownloadFacts.
Import Download.

Lemma Qminb_le_l (a b : Q) : (Qminb a b <= a)%Q.
Proof.
  unfold Qminb. destruct (Qle_bool a b) eqn:E; [apply Qle_refl|].
  apply Qlt_le_weak, Qnot_le_lt. intros H. apply Qle_bool_iff in H. congruence.
Qed.

End DownloadFacts.

(** C8, as it fails: a 100-second video, a chunk of 10 seconds, clips of 2
    seconds, the default method.  The centre is 50 and half the chunk is 5,
    yet the range requested is 45 to 57, not 45 to 55: the end is the start
    plus the chunk plus a buffer of two seconds. *)
Lemma center_range_has_buffer :
  let env := Download.mkEnv "smart" true true "best" "bestaudio/best" true 10 in
  Download.download_strategy env (100 # 1) 2000
  = Download.Center 45 (57 # 1)
      (Download.mkOpts "bestaudio/best" false (Some Download.ffmpeg)
         (Some (Download.Range 45 (57 # 1))) true)
  /\ ~ (57 # 1 == inject_Z (Download.py_int ((100 # 1) / 2)) + (10 # 1) / 2)%Q.
Proof. split; [vm_compute; reflexivity | by vm_compute]. Qed.

(** C8, amended.  With the default download method (neither [segment] nor
    [aria2c] forced) and a source not shorter than the clip: when the
    duration exceeds the larger of the chunk size and the clip length, the
    requested range starts at the centre minus half that length, not below
    zero, and ends at the start plus that length plus two seconds, not
    beyond the end of the video; it is fetched with [ffmpeg] as the
    downloader (never [aria2c]), keyframes forced at the cuts.  Otherwise
    the options are those of a fetch from the beginning: the section
    [*0-SEC] when sections are enabled, the whole file when they are not. *)
Theorem download_strategy_smart
    (env : Download.Env) (video_duration : Q) (clip_ms : Z) :
  let clip_seconds := (inject_Z clip_ms / 1000)%Q in
  let chunk := Download.Qmaxb (inject_Z (Download.DOWNLOAD_CHUNK_SECONDS env))
                              clip_seconds in
  let start_time :=
    Z.max 0 (Download.py_int (video_duration / 2) - Download.py_int (chunk / 2)) in
  let end_time :=
    Download.Qminb video_duration (inject_Z start_time + chunk + 2)%Q in
  let long := Download.Qnonzero video_duration && Download.Qltb chunk video_duration in
  Download.DOWNLOAD_METHOD env <> "segment" ->
  Download.DOWNLOAD_METHOD env <> "aria2c" ->
  Download.Qnonzero video_duration && Download.Qltb video_duration clip_seconds = false ->
  (long = true ->
   exists opts,
     Download.download_strategy env video_duration clip_ms
       = Download.Center start_time end_time opts
     /\ Download.download_sections opts = Some (Download.Range start_time end_time)
     /\ Download.external_downloader opts = Some Download.ffmpeg
     /\ Download.force_keyframes_at_cuts opts = true
     /\ (0 <= start_time)%Z
     /\ (end_time <= video_duration)%Q)
  /\ (long = false ->
      Download.download_strategy env video_duration clip_ms
        = Download.Beginning (Download._ydl_opts env (Some clip_ms))
      /\ Download.download_sections (Download._ydl_opts env (Some clip_ms))
         = if Download.YTDLP_USE_SECTIONS env && (0 <? clip_ms)%Z
           then Some (Download.FromStart (Z.max 1 (Download.py_round clip_seconds)))
           else None).
Proof.
  intros clip_seconds chunk start_time end_time long Hseg Haria Hshort.
  apply String.eqb_neq in Hseg, Haria.
  unfold Download.download_strategy.
  fold clip_seconds. rewrite Hshort. fold chunk. rewrite Hseg, Haria. fold long.
  split; intros Hlong; rewrite Hlong.
  - eexists. split; [reflexivity|]. simpl.
    repeat split; [apply Z.le_max_l | apply DownloadFacts.Qminb_le_l].
  - split; [reflexivity|]. unfold Download._ydl_opts. simpl. reflexivity.
Qed.

Lemma download_strategy_smart_witness :
  let env := Download.mkEnv "smart" true true "best" "bestaudio/best" true 10 in
  Download.DOWNLOAD_METHOD env <> "segment"
  /\ Download.DOWNLOAD_METHOD env <> "aria2c"
  /\ Download.Qnonzero (100 # 1)
     && Download.Qltb (100 # 1) (inject_Z 2000 / 1000)%Q = false
  /\ exists opts,
       Download.download_strategy env (100 # 1) 2000 = Download.Center 45 (57 # 1) opts
       /\ Download.external_downloader opts = Some Download.ffmpeg.
Proof.
  intros env.
  assert (H1 : Download.DOWNLOAD_METHOD env <> "segment") by (by vm_compute).
  assert (H2 : Download.DOWNLOAD_METHOD env <> "aria2c") by (by vm_compute).
  assert (H3 : Download.Qnonzero (100 # 1)
               && Download.Qltb (100 # 1) (inject_Z 2000 / 1000)%Q = false)
    by reflexivity.
  split; [exact H1|]. split; [exact H2|]. split; [exact H3|].
  destruct (proj1 (download_strategy_smart env (100 # 1) 2000 H1 H2 H3) eq_refl)
    as (opts & Hs & _ & Hd & _).
  exists opts. split; [exact Hs | exact Hd].
Defined.

(** ** Bank assignment *)

Module PipelineFacts.
Import Pipeline.

Lemma Qltb_lt (a b : Q) : Qltb a b = true <-> (a < b)%Q.
Proof.
  unfold Qltb. rewrite negb_true_iff. split.
  - intros H. apply Qnot_le_lt. intros Hle. apply Qle_bool_iff in Hle. congruence.
  - intros H. destruct (Qle_bool b a) eqn:E; [|done].
    apply Qle_bool_iff in E. by apply Qle_not_lt in E.
Qed.

Lemma Qltb_ge (a b : Q) : Qltb a b = false <-> (b <= a)%Q.
Proof.
  unfold Qltb. rewrite negb_false_iff. apply Qle_bool_iff.
Qed.

Lemma incr_same (k : string) (d : gmap string Z) : incr k d !!! k = (d !!! k + 1)%Z.
Proof. unfold incr. by rewrite lookup_total_insert_eq. Qed.

Lemma incr_other (k t : string) (d : gmap string Z) : t <> k -> incr k d !! t = d !! t.
Proof. intros H. unfold incr. by rewrite lookup_insert_ne. Qed.

Lemma incr_other_total (k t : string) (d : gmap string Z) :
  t <> k -> incr k d !!! t = d !!! t.
Proof. intros H. unfold incr. by rewrite lookup_total_insert_ne. Qed.

Lemma initial_lookup {A} (f : string -> A) (l : list string) (t : string) :
  t ∈ l -> (list_to_map ((fun t => (t, f t)) <$> l) : gmap string A) !! t = Some (f t).
Proof.
  induction l as [|x l IH]; [by intros ?%elem_of_nil|].
  intros Hin. simpl. destruct (decide (x = t)) as [->|Hne].
  - by rewrite lookup_insert_eq.
  - rewrite lookup_insert_ne by done. apply IH.
    apply elem_of_cons in Hin as [->|]; done.
Qed.



Lemma wav_count_empty : wav_count ∅ = 0%Z.
Proof. unfold wav_count. rewrite filter_empty_L by apply _. by rewrite size_empty. Qed.

Lemma wav_count_insert (x : string) (d : gset string) :
  (wav_count ({[ x ]} ∪ d) <= wav_count d + 1)%Z.
Proof.
  unfold wav_count. rewrite filter_union_L by apply _. rewrite size_union_alt.
  assert (size (filter (fun p => is_wav p) ({[ x ]} : gset string)) <= 1)%nat.
  { rewrite <- (size_singleton (C:=gset string) x). apply subseteq_size.
    intros y [_ Hy]%elem_of_filter. done. }
  assert (size (filter (fun p => is_wav p) d
                ∖ filter (fun p => is_wav p) ({[ x ]} : gset string))
          <= size (filter (fun p => is_wav p) d))%nat.
  { apply subseteq_size. by apply subseteq_difference_l. }
  lia.
Qed.

Lemma wav_count_insert_other (x : string) (d : gset string) :
  is_wav x = false -> wav_count ({[ x ]} ∪ d) = wav_count d.
Proof.
  intros Hx. unfold wav_count.
  rewrite filter_union_L by apply _.
  rewrite filter_singleton_False_L;
    [by rewrite union_empty_l_L | apply _ | intros H; by rewrite Hx in H].
Qed.

Lemma ends_with_longer (suffix s : string) :
  (String.length suffix < String.length s)%nat ->
  Str.ends_with suffix s = match s with
                           | EmptyString => false
                           | String _ s' => Str.ends_with suffix s'
                           end.
Proof.
  intros Hlen. destruct s as [|c s]; [simpl in Hlen; lia|].
  cbn [Str.ends_with]. destruct (String.eqb suffix (String c s)) eqn:E; [|done].
  apply String.eqb_eq in E. subst. lia.
Qed.

Lemma length_append (a b : string) :
  String.length (a +:+ b) = (String.length a + String.length b)%nat.
Proof.
  induction a as [|c a IH]; rewrite ?StrFacts.app_cons, ?StrFacts.app_nil; [done|].
  simpl. by rewrite IH.
Qed.

Lemma sidecar_is_no_wav (name : string) : is_wav (with_suffix_json name) = false.
Proof.
  unfold is_wav, with_suffix_json. induction (stem name) as [|c s IH].
  - reflexivity.
  - rewrite StrFacts.app_cons, ends_with_longer; [done|].
    simpl. rewrite length_append. simpl. lia.
Qed.

Lemma count_unfold (t : string) (fs : Files) :
  _count_in_bank t fs = wav_count (default ∅ (banks fs !! t)).
Proof.
  unfold _count_in_bank. destruct (banks fs !! t); [done|].
  simpl. by rewrite wav_count_empty.
Qed.


(** The fuel of [next_free] is enough. *)

Section Fresh.
Variable bank_file : string -> Z -> string.
Variable theme : string.
Hypothesis bank_file_inj : forall a b, bank_file theme a = bank_file theme b -> a = b.

Lemma next_free_search (fuel : nat) (n : Z) (d X : gset string) :
  (forall m, (n <= m)%Z -> bank_file theme m ∈ d -> bank_file theme m ∈ X) ->
  (size X < fuel)%nat ->
  bank_file theme (next_free bank_file fuel theme n d) ∉ d.
Proof.
  revert n X. induction fuel as [|fuel IH]; intros n X Hcover Hsize; [lia|].
  cbn [next_free]. case_bool_decide as Hin; [|done].
  apply (IH (n + 1)%Z (X ∖ {[ bank_file theme n ]})).
  - intros m Hm Hd. apply elem_of_difference. split; [apply Hcover; [lia | done]|].
    intros ->%elem_of_singleton%bank_file_inj. lia.
  - assert (bank_file theme n ∈ X) as HX by (apply Hcover; [lia | done]).
    rewrite size_difference by (by apply singleton_subseteq_l).
    rewrite size_singleton.
    assert (size X <> 0)%nat; [|lia].
    intros H0%size_empty_iff. rewrite H0 in HX. by apply not_elem_of_empty in HX.
Qed.

(** The search of [_move_to_theme] for a free name ends on a name that is
    not in the directory: the fuel of the model is enough. *)
Lemma next_free_is_free (n : Z) (d : gset string) :
  bank_file theme (next_free bank_file (S (size d)) theme n d) ∉ d.
Proof. apply (next_free_search _ n d d); [done | lia]. Qed.
End Fresh.

Section Capacity.

Variable bank_file : string -> Z -> string.
Variable file_number : string -> string -> option Z.
Variable cfg : Config.
Variable t : string.

Local Abbreviation within := (Pipeline.within cfg t).

Lemma count_after_move (path theme : string) (fs : Files) :
  (theme <> t ->
   _count_in_bank t (_move_to_theme bank_file file_number path theme fs).1
   = _count_in_bank t fs)
  /\ (_count_in_bank t (_move_to_theme bank_file file_number path theme fs).1
      <= _count_in_bank t fs
         + (match (_move_to_theme bank_file file_number path theme fs).2 with
            | Some _ => 1 | None => 0 end))%Z.
Proof.
  unfold _move_to_theme. rewrite !count_unfold.
  case_bool_decide; simpl; (split; [intros Hne; by rewrite lookup_insert_ne|]).
  - destruct (decide (theme = t)) as [->|Hne].
    + rewrite lookup_insert_eq. simpl. apply wav_count_insert.
    + rewrite lookup_insert_ne by done. lia.
  - destruct (decide (theme = t)) as [->|Hne].
    + rewrite lookup_insert_eq. simpl. lia.
    + rewrite lookup_insert_ne by done. lia.
Qed.

Lemma count_after_metadata (cand : Candidate) (theme final_path : string) (fs : Files) :
  _count_in_bank t (move_metadata cand theme final_path fs) = _count_in_bank t fs.
Proof.
  unfold move_metadata. rewrite !count_unfold.
  case_bool_decide; [|done].
  destruct (metadata_move cand); simpl; try done;
    (destruct (decide (theme = t)) as [->|Hne];
     [ rewrite lookup_insert_eq; simpl; apply wav_count_insert_other, sidecar_is_no_wav
     | by rewrite lookup_insert_ne ]).
Qed.

(** One candidate: the bound on [t] survives, provided the loop guard holds
    when [t] is the target and the slice does not land in [t] otherwise. *)
Lemma assign_candidate_within (target_theme : string) (cand : Candidate) (st : State) :
  (target_theme = t -> (results st !!! t < samples_per_bank cfg)%Z) ->
  (target_theme <> t -> lands_in cfg target_theme cand <> Some t) ->
  within st ->
  within (assign_candidate bank_file file_number cfg target_theme cand st).1
  /\ ((assign_candidate bank_file file_number cfg target_theme cand st).2 = Continue ->
      target_theme = t ->
      (results (assign_candidate bank_file file_number cfg target_theme cand st).1 !!! t
       < samples_per_bank cfg)%Z).
Proof.
  intros Hguard Hcross [Hres Hcnt]. unfold assign_candidate, lands_in in *.
  destruct (stop_requested cand); [done|].
  destruct (_assign_with_scoring _ _ _ _ _) as [[best|] score]; simpl in *.
  2:{ split; [done | auto]. }
  pose proof (count_after_move (cand_path cand) best (files st)) as [Hmv1 Hmv2].
  destruct (_move_to_theme bank_file file_number (cand_path cand) best (files st))
    as [fs [final|]]; simpl in *.
  2:{ unfold Pipeline.within; simpl. split; [lia | done]. }
  unfold Pipeline.within. simpl. rewrite count_after_metadata.
  destruct (decide (best = t)) as [->|Hne].
  - rewrite incr_same.
    assert (target_theme = t) as ->.
    { destruct (decide (target_theme = t)); [done|]. by destruct Hcross. }
    specialize (Hguard eq_refl). rewrite incr_same.
    split; [split; lia|].
    intros Hc _. destruct (Z.leb_spec (samples_per_bank cfg) (results st !!! t + 1)); [done | lia].
  - rewrite incr_other_total by done. rewrite Hmv1 by done.
    split; [done|]. intros Hc ->. rewrite incr_other_total in Hc by done.
    destruct (Z.leb_spec (samples_per_bank cfg) (results st !!! t)); [done | lia].
Qed.

Lemma assign_all_within (target_theme : string) (cands : list Candidate) (st : State) :
  (target_theme = t -> (results st !!! t < samples_per_bank cfg)%Z) ->
  (target_theme <> t ->
   forall cand, cand ∈ cands -> lands_in cfg target_theme cand <> Some t) ->
  within st ->
  within (assign_all bank_file file_number cfg target_theme cands st).1.
Proof.
  revert st. induction cands as [|cand cands IH]; intros st Hguard Hcross Hin; [done|].
  cbn [assign_all].
  destruct (assign_candidate_within target_theme cand st Hguard) as [Hin' Hnext];
    [intros Hne; apply Hcross; [done | by left] | done |].
  destruct (assign_candidate bank_file file_number cfg target_theme cand st)
    as [st' []]; simpl in *; try done.
  apply IH; [auto | | done].
  intros Hne c Hc. apply Hcross; [done | by right].
Qed.

Lemma within_arrived (st : State) (names : gset string) :
  within st ->
  within (mkState (results st) (retries st)
            (mkFiles (banks (files st)) (names ∪ candidates (files st)))).
Proof. done. Qed.

Lemma fill_theme_within (target_theme : string) (n : Z) (bs : list Batch)
    (idx dl : Z) (st : State) :
  (target_theme <> t ->
   forall b cand, b ∈ bs -> cand ∈ downloaded b ->
                  lands_in cfg target_theme cand <> Some t) ->
  within st ->
  within (fill_theme bank_file file_number cfg target_theme n bs idx dl st).1.
Proof.
  revert idx dl st. induction bs as [|b bs IH]; intros idx dl st Hcross Hin.
  - simpl. by destruct (_ <=? _)%Z.
  - cbn [fill_theme].
    destruct (Z.leb_spec (samples_per_bank cfg) (results st !!! target_theme))
      as [|Hguard]; [done|].
    destruct (stop_at_top b); [done|].
    destruct (negb _ && _); [done|].
    destruct (n <=? (if (n <=? idx)%Z then 0%Z else idx))%Z; [done|].
    destruct (max_per_search cfg <=? dl)%Z.
    all: pose proof (within_arrived st (list_to_set (cand_path <$> downloaded b)) Hin)
      as Harr.
    all: destruct (downloaded b) as [|cand cands] eqn:Ed.
    all: try (destruct (n <=? _)%Z; [done|];
              apply IH; [intros Hne b' c' Hb'; apply Hcross; [done | by right] | done]).
    all: match goal with
         | |- context [assign_all ?a ?b ?c ?d ?e ?f] =>
             pose proof (assign_all_within d e f) as Hall;
             destruct (assign_all a b c d e f) as [st' []]
         end; simpl in *.
    all: try (apply Hall; [by intros -> | | done];
              intros Hne c' Hc'; apply (Hcross Hne b); [by left | by rewrite Ed]).
    all: apply IH; [intros Hne b' c' Hb'; apply Hcross; [done | by right] |].
    all: apply Hall; [by intros -> | | done];
      intros Hne c' Hc'; apply (Hcross Hne b); [by left | by rewrite Ed].
Qed.

Lemma run_theme_within (theme_name : string) (env : ThemeEnv) (st : State) :
  (theme_name <> t ->
   forall b cand, b ∈ batches env -> cand ∈ downloaded b ->
                  lands_in cfg theme_name cand <> Some t) ->
  within st ->
  within (run_theme bank_file file_number cfg theme_name env st).1.
Proof.
  intros Hcross Hin. unfold run_theme.
  destruct (_ <=? _)%Z; [done|]. destruct (stop_at_theme env); [done|].
  by apply fill_theme_within.
Qed.

Lemma run_themes_within (themes : list string) (envs : list ThemeEnv) (st : State) :
  no_cross_into cfg t themes envs ->
  within st ->
  within (run_themes bank_file file_number cfg themes envs st).1.
Proof.
  revert envs st. induction themes as [|theme_name themes IH]; intros envs st Hc Hin;
    [done|].
  destruct envs as [|env envs]; [done|]. cbn [run_themes].
  destruct Hc as [Hhere Hrest].
  pose proof (run_theme_within theme_name env st Hhere Hin) as Hnext.
  destruct (run_theme bank_file file_number cfg theme_name env st) as [st' []];
    simpl in *; try done.
  by apply IH.
Qed.

End Capacity.

End PipelineFacts.

(** C5.  Scoring is enabled and returns a score for a candidate.  When the
    score is strictly below the minimum, processing the candidate leaves
    every bank directory as it was, removes the candidate's file, adds one
    to the retry counter of the target theme and to no other retry counter,
    and changes no [filled] counter.  When the score equals or exceeds the
    minimum, [_assign_with_scoring] answers the scored theme: the slice is
    not discarded by the threshold. *)
Theorem below_threshold_discards
    (bank_file : string -> Z -> string) (file_number : string -> string -> option Z)
    (cfg : Pipeline.Config)
    (target_theme name : string) (score : Q) (cand : Pipeline.Candidate)
    (st : Pipeline.State) :
  Pipeline.scoring_enabled cfg = true ->
  Pipeline.scoring cand = Pipeline.Best name score ->
  Pipeline.stop_requested cand = false ->
  ((score < Pipeline.min_sim cfg)%Q ->
   let st' := (Pipeline.assign_candidate bank_file file_number cfg target_theme cand st).1 in
   Pipeline.banks (Pipeline.files st') = Pipeline.banks (Pipeline.files st)
   /\ Pipeline.candidates (Pipeline.files st')
      = Pipeline.candidates (Pipeline.files st) ∖ {[ Pipeline.cand_path cand ]}
   /\ Pipeline.retries st' !!! target_theme
      = (Pipeline.retries st !!! target_theme + 1)%Z
   /\ (forall t, t <> target_theme ->
         Pipeline.retries st' !! t = Pipeline.retries st !! t)
   /\ Pipeline.results st' = Pipeline.results st)
  /\ ((Pipeline.min_sim cfg <= score)%Q ->
      Pipeline._assign_with_scoring (Pipeline.scoring_enabled cfg) (Pipeline.scoring cand)
        target_theme (filter (fun t => t <> target_theme) (Pipeline.theme_names cfg))
        (Pipeline.min_sim cfg)
      = (Some name, Some score)).
Proof.
  intros Hen Hsc Hstop. unfold Pipeline.assign_candidate, Pipeline._assign_with_scoring.
  rewrite Hstop, Hen, Hsc. split.
  - intros Hlt%PipelineFacts.Qltb_lt. rewrite Hlt. simpl.
    repeat split; [apply PipelineFacts.incr_same|].
    intros t Ht. by apply PipelineFacts.incr_other.
  - intros Hge%PipelineFacts.Qltb_ge. by rewrite Hge.
Qed.

(** C6.  A candidate fetched for [target_theme] and scored highest for a
    different theme [best_theme] (at or above the threshold): the assignment
    adds exactly one to [best_theme]'s [filled] counter and exactly one to
    [target_theme]'s retry counter, leaves [target_theme]'s [filled] counter
    unchanged, and changes no other [filled] or retry counter. *)
Theorem cross_assignment_accounting
    (bank_file : string -> Z -> string) (file_number : string -> string -> option Z)
    (cfg : Pipeline.Config)
    (target_theme best_theme : string) (score : Q) (cand : Pipeline.Candidate)
    (st : Pipeline.State) :
  Pipeline.scoring_enabled cfg = true ->
  Pipeline.scoring cand = Pipeline.Best best_theme score ->
  (Pipeline.min_sim cfg <= score)%Q ->
  best_theme <> target_theme ->
  Pipeline.stop_requested cand = false ->
  Pipeline.cand_path cand ∈ Pipeline.candidates (Pipeline.files st) ->
  let st' := (Pipeline.assign_candidate bank_file file_number cfg target_theme cand st).1 in
  Pipeline.results st' !!! best_theme = (Pipeline.results st !!! best_theme + 1)%Z
  /\ Pipeline.retries st' !!! target_theme = (Pipeline.retries st !!! target_theme + 1)%Z
  /\ Pipeline.results st' !!! target_theme = Pipeline.results st !!! target_theme
  /\ (forall t, t <> best_theme -> Pipeline.results st' !! t = Pipeline.results st !! t)
  /\ (forall t, t <> target_theme -> Pipeline.retries st' !! t = Pipeline.retries st !! t).
Proof.
  intros Hen Hsc Hge%PipelineFacts.Qltb_ge Hne Hstop Hin.
  unfold Pipeline.assign_candidate, Pipeline._assign_with_scoring, Pipeline._move_to_theme.
  rewrite Hstop, Hen, Hsc, Hge.
  rewrite bool_decide_eq_true_2 by done.
  rewrite bool_decide_eq_true_2 by done. simpl.
  split; [apply PipelineFacts.incr_same|].
  split; [apply PipelineFacts.incr_same|].
  split; [by apply PipelineFacts.incr_other_total|].
  split; intros t Ht; by apply PipelineFacts.incr_other.
Qed.


Lemma below_threshold_discards_witness :
  let st := Pipeline.mkState {[ "Soft" := 0%Z; "Loud" := 0%Z ]}
              {[ "Soft" := 0%Z; "Loud" := 0%Z ]}
              (Pipeline.mkFiles ∅ {[ "x_s1.wav" ]}) in
  let low := Scenario.scored "x_s1.wav" "Soft" (1 # 10) in
  let st' := (Pipeline.assign_candidate Pipeline.Names.bank_file
                Pipeline.Names.file_number Scenario.cfg "Loud" low st).1 in
  Pipeline.scoring_enabled Scenario.cfg = true
  /\ Pipeline.scoring low = Pipeline.Best "Soft" (1 # 10)
  /\ Pipeline.stop_requested low = false
  /\ (1 # 10 < Pipeline.min_sim Scenario.cfg)%Q
  /\ Pipeline.banks (Pipeline.files st') = ∅
  /\ Pipeline.retries st' !!! "Loud" = 1%Z
  /\ Pipeline.results st' = Pipeline.results st.
Proof.
  intros st low st'.
  assert (Hlt : (1 # 10 < Pipeline.min_sim Scenario.cfg)%Q) by reflexivity.
  destruct (proj1 (below_threshold_discards Pipeline.Names.bank_file
                     Pipeline.Names.file_number Scenario.cfg "Loud" "Soft" (1 # 10)
                     low st eq_refl eq_refl eq_refl) Hlt)
    as (Hb & _ & Hr & _ & Hres).
  split; [reflexivity|]. split; [reflexivity|]. split; [reflexivity|].
  split; [exact Hlt|]. split; [exact Hb|]. split; [exact Hr | exact Hres].
Defined.

Lemma cross_assignment_accounting_witness :
  let st := Pipeline.mkState {[ "Soft" := 1%Z; "Loud" := 0%Z ]}
              {[ "Soft" := 0%Z; "Loud" := 0%Z ]}
              (Pipeline.mkFiles {[ "Soft" := {[ "Soft_01.wav" ]} ]} {[ "c_s1.wav" ]}) in
  let cand := Scenario.scored "c_s1.wav" "Soft" (5 # 10) in
  let st' := (Pipeline.assign_candidate Pipeline.Names.bank_file
                Pipeline.Names.file_number Scenario.cfg "Loud" cand st).1 in
  Pipeline.scoring_enabled Scenario.cfg = true
  /\ Pipeline.scoring cand = Pipeline.Best "Soft" (5 # 10)
  /\ (Pipeline.min_sim Scenario.cfg <= 5 # 10)%Q
  /\ "Soft" <> "Loud"
  /\ Pipeline.stop_requested cand = false
  /\ Pipeline.cand_path cand ∈ Pipeline.candidates (Pipeline.files st)
  /\ Pipeline.results st' !!! "Soft" = 2%Z
  /\ Pipeline.retries st' !!! "Loud" = 1%Z
  /\ Pipeline.results st' !!! "Loud" = 0%Z.
Proof.
  intros st cand st'.
  assert (Hge : (Pipeline.min_sim Scenario.cfg <= 5 # 10)%Q) by (by vm_compute).
  assert (Hne : "Soft" <> "Loud") by (by vm_compute).
  assert (Hin : Pipeline.cand_path cand ∈ Pipeline.candidates (Pipeline.files st))
    by (apply (bool_decide_unpack _); vm_compute; exact I).
  destruct (cross_assignment_accounting Pipeline.Names.bank_file
              Pipeline.Names.file_number Scenario.cfg "Loud" "Soft" (5 # 10) cand st
              eq_refl eq_refl Hge Hne eq_refl Hin)
    as (H1 & H2 & H3 & _).
  split; [reflexivity|]. split; [reflexivity|]. split; [exact Hge|].
  split; [exact Hne|]. split; [reflexivity|]. split; [exact Hin|].
  split; [exact H1|]. split; [exact H2 | exact H3].
Defined.


(** C2, as it fails: both banks start empty with a target of two.  Two
    slices fetched for [Soft] fill its bank; the next slice, fetched for
    [Loud], scores highest for [Soft] and is placed there without any check
    of capacity: [Soft] then counts three, with three audio files in its
    directory. *)
Lemma cross_assignment_overfills_bank :
  let st := (Scenario.run Scenario.empty_session Scenario.crossing).1 in
  Pipeline.samples_per_bank Scenario.cfg = 2%Z
  /\ Pipeline.results st !!! "Soft" = 3%Z
  /\ Pipeline._count_in_bank "Soft" (Pipeline.files st) = 3%Z
  /\ Pipeline.retries st !!! "Loud" = 1%Z.
Proof. vm_compute. repeat split; reflexivity. Qed.



(** ** Hash sequences, queries and migration *)

Module LedgerQueriesFacts.
Import Ledger LedgerQueries.

Lemma has_hash_hashes (c : Conn) (h : string) :
  has_hash c h = true <-> h ∈ hashes c.
Proof.
  unfold has_hash, hashes. rewrite existsb_exists, list_elem_of_fmap. split.
  - intros (r & Hr%list_elem_of_In & <-%String.eqb_eq). eauto.
  - intros (r & -> & Hr%list_elem_of_In). exists r. split; [done|]. apply String.eqb_refl.
Qed.

Lemma has_hash_false (c : Conn) (h : string) :
  has_hash c h = false <-> h ∉ hashes c.
Proof. rewrite <- has_hash_hashes. by destruct (has_hash c h). Qed.

(** One call of [add_hash] between transactions. *)
Lemma call_add_hash_spec (a : AddHash) (c c' : Conn) (b : bool) :
  pending c = None ->
  call_add_hash a c = (c', b) ->
  pending c' = None
  /\ hashes c' = (hashes c ++ (if b then [arg_hash a] else []))%list
  /\ used_urls (committed c') = used_urls (committed c)
  /\ (b = true -> arg_hash a ∉ hashes c)
  /\ (b = false -> c' = c)
  /\ ((forall s, arg_hash_faults a s = false) ->
      b = negb (bool_decide (arg_hash a ∈ hashes c))).
Proof.
  intros Hp.
  pose proof (has_hash_hashes c (arg_hash a)) as Hin.
  unfold has_hash, hashes in Hin |- *.
  unfold call_add_hash, add_hash, add_hash_try, mbind, tx_bind, mret, tx_ret,
    execute_begin, select_hash, insert_hash, commit, tx_rollback, rollback, current in *.
  rewrite Hp in *. simpl in *.
  assert (Hno : forall s, arg_hash_faults a s = true ->
            (forall s', arg_hash_faults a s' = false) -> False)
    by (intros s Hs H; by rewrite H in Hs).
  assert (Hsame : forall P : Prop,
    P -> @None Tables = None /\ hash <$> audio_hashes (committed c)
           = ((hash <$> audio_hashes (committed c)) ++ [])%list /\
         used_urls (committed c) = used_urls (committed c) /\
         (false = true -> arg_hash a ∉ hash <$> audio_hashes (committed c)) /\
         (false = false -> c = c) /\ P).
  { intros P HP. rewrite app_nil_r. done. }
  destruct (arg_hash_faults a SBegin) eqn:Fb; simpl.
  { intros [= <- <-]. rewrite LedgerFacts.conn_eta by done. rewrite Hp. simpl. apply Hsame.
    intros H. by rewrite H in Fb. }
  destruct (arg_hash_faults a SSelect) eqn:Fs; simpl.
  { intros [= <- <-]. rewrite LedgerFacts.conn_eta by done. rewrite Hp. simpl. apply Hsame.
    intros H. by rewrite H in Fs. }
  destruct (existsb _ _) eqn:Ec; simpl.
  { intros [= <- <-]. rewrite LedgerFacts.conn_eta by done. rewrite Hp. simpl. apply Hsame.
    intros _. rewrite bool_decide_eq_true_2; [done|]. by apply Hin. }
  assert (Hnot : arg_hash a ∉ hash <$> audio_hashes (committed c)).
  { intros H. apply Hin in H. congruence. }
  destruct (arg_hash_faults a SInsert) eqn:Fi; simpl.
  { intros [= <- <-]. rewrite LedgerFacts.conn_eta by done. rewrite Hp. simpl. apply Hsame.
    intros H. by rewrite H in Fi. }
  rewrite Ec. simpl.
  destruct (arg_hash_faults a SCommit) eqn:Fc; simpl.
  { intros [= <- <-]. rewrite LedgerFacts.conn_eta by done. rewrite Hp. simpl. apply Hsame.
    intros H. by rewrite H in Fc. }
  intros [= <- <-]. simpl. rewrite fmap_app. simpl.
  repeat split; try done. intros _. by rewrite bool_decide_eq_false_2.
Qed.

Lemma add_hashes_cons (a : AddHash) (rest : list AddHash) (c : Conn) :
  add_hashes (a :: rest) c
  = ((add_hashes rest (call_add_hash a c).1).1,
     (call_add_hash a c).2 :: (add_hashes rest (call_add_hash a c).1).2).
Proof.
  simpl. destruct (call_add_hash a c) as [c1 b]. simpl.
  by destruct (add_hashes rest c1).
Qed.

(** Calls keep the table free of repeated hashes and never remove one. *)
Lemma add_hashes_keeps (calls : list AddHash) (c : Conn) :
  pending c = None ->
  pending (add_hashes calls c).1 = None
  /\ (NoDup (hashes c) -> NoDup (hashes (add_hashes calls c).1))
  /\ (forall h, h ∈ hashes c -> h ∈ hashes (add_hashes calls c).1)
  /\ used_urls (committed (add_hashes calls c).1) = used_urls (committed c).
Proof.
  revert c. induction calls as [|a calls IH]; intros c Hp; [done|].
  rewrite add_hashes_cons. simpl.
  destruct (call_add_hash a c) as [c1 b] eqn:E. simpl.
  destruct (call_add_hash_spec a c c1 b Hp E) as (Hp1 & Hh & Hu & Hnew & _).
  destruct (IH c1 Hp1) as (Hp2 & Hnd & Hmono & Hu2).
  split; [done|]. split; [|split].
  - intros H. apply Hnd. rewrite Hh. destruct b; [|by rewrite app_nil_r].
    apply NoDup_app. split; [done|]. split; [|apply NoDup_singleton].
    intros h Hin ->%list_elem_of_singleton. by apply Hnew.
  - intros h Hin. apply Hmono. rewrite Hh. apply elem_of_app. by left.
  - by rewrite Hu2.
Qed.

Lemma add_hashes_true_is_new (calls : list AddHash) (c : Conn) (i : nat) (a : AddHash) :
  pending c = None ->
  calls !! i = Some a -> (add_hashes calls c).2 !! i = Some true ->
  (arg_hash a ∉ hashes c)
  /\ arg_hash a ∈ hashes (add_hashes calls c).1
  /\ forall j a', (j < i)%nat -> calls !! j = Some a' ->
       (add_hashes calls c).2 !! j = Some true -> arg_hash a' <> arg_hash a.
Proof.
  revert c i. induction calls as [|a0 calls IH]; intros c i Hp Hi Hb; [done|].
  rewrite add_hashes_cons in Hb |- *. simpl in Hb |- *.
  destruct (call_add_hash a0 c) as [c1 b0] eqn:E. simpl in Hb |- *.
  destruct (call_add_hash_spec a0 c c1 b0 Hp E) as (Hp1 & Hh & _ & Hnew & _).
  destruct i as [|i]; simpl in Hi, Hb.
  - simplify_eq. split; [by apply Hnew|]. split; [|intros j a' Hj; lia].
    apply (add_hashes_keeps calls c1 Hp1). rewrite Hh.
    apply elem_of_app. right. by apply list_elem_of_singleton.
  - destruct (IH c1 i Hp1 Hi Hb) as (Hnot & Hin & Hearlier). rewrite Hh in Hnot.
    split; [|split; [done|]].
    + intros H. apply Hnot, elem_of_app. by left.
    + intros [|j] a' Hj Ha' Hbj; simpl in Ha', Hbj.
      * simplify_eq. intros Heq. apply Hnot. rewrite <- Heq.
        apply elem_of_app. right. by apply list_elem_of_singleton.
      * apply (Hearlier j a'); [lia | done | done].
Qed.

Lemma add_hashes_first (calls : list AddHash) (c : Conn) (i : nat) (a : AddHash) (b : bool) :
  pending c = None ->
  Forall (fun a => forall s, arg_hash_faults a s = false) calls ->
  calls !! i = Some a -> (add_hashes calls c).2 !! i = Some b ->
  (b = true <->
   (arg_hash a ∉ hashes c)
   /\ forall j a', (j < i)%nat -> calls !! j = Some a' -> arg_hash a' <> arg_hash a).
Proof.
  revert c i. induction calls as [|a0 calls IH]; intros c i Hp Hff Hi Hb; [done|].
  rewrite add_hashes_cons in Hb. simpl in Hb.
  destruct (call_add_hash a0 c) as [c1 b0] eqn:E. simpl in Hb.
  apply Forall_cons in Hff as [Hff0 Hff].
  destruct (call_add_hash_spec a0 c c1 b0 Hp E) as (Hp1 & Hh & _ & _ & _ & Hb0).
  specialize (Hb0 Hff0).
  destruct i as [|i]; simpl in Hi, Hb.
  - simplify_eq. split.
    + intros Ht. split; [|intros j a' Hj; lia].
      intros Hin. by rewrite bool_decide_eq_true_2 in Ht.
    + intros [Hnot _]. by rewrite bool_decide_eq_false_2.
  - rewrite (IH c1 i Hp1 Hff Hi Hb). rewrite Hh. split.
    + intros [Hnot Hearlier]. split.
      * intros Hin. apply Hnot, elem_of_app. by left.
      * intros [|j] a' Hj Ha'; simpl in Ha'.
        -- simplify_eq. intros Heq. apply Hnot. rewrite <- Heq.
           destruct (bool_decide (arg_hash a' ∈ hashes c)) eqn:Ed; simpl.
           ++ apply bool_decide_eq_true in Ed. rewrite app_nil_r. done.
           ++ apply elem_of_app. right. by apply list_elem_of_singleton.
        -- apply (Hearlier j a'); [lia | done].
    + intros [Hnot Hearlier]. split.
      * intros [Hin|Hin]%elem_of_app; [done|].
        destruct b0; [|by apply elem_of_nil in Hin].
        apply list_elem_of_singleton in Hin.
        by apply (Hearlier 0%nat a0); [lia | | ].
      * intros j a' Hj Ha'. apply (Hearlier (S j) a'); [lia | done].
Qed.


Lemma length_omap_le {A B} (f : A -> option B) (l : list A) :
  (length (omap f l) <= length l)%nat.
Proof.
  induction l as [|x l IH]; [done|].
  change (omap f (x :: l)) with (match f x with Some y => y :: omap f l | None => omap f l end).
  destruct (f x); simpl; lia.
Qed.

Section WithUrlparse.

Variable urlparse : string -> Url.ParseResult.
Hypothesis Hsplit : Url.splits_query urlparse.

Local Abbreviation normalize_url := (Url.normalize_url urlparse).
Local Abbreviation url_key := (Ledger.url_key urlparse).
Local Abbreviation keys := (Ledger.keys urlparse).
Local Abbreviation well_formed := (Ledger.well_formed urlparse).

Lemma identity_is_unfold (u : string) :
  identity_is urlparse u
  = if truthy_opt (normalize_url u).2 then video_id_is (normalize_url u).2
    else normalized_is (normalize_url u).1.
Proof. unfold identity_is. by destruct (normalize_url u). Qed.

(** In a well-formed table the condition selects the rows of the URL's
    identity. *)
Lemma identity_is_key (c : Conn) (u : string) (r : UrlRow) :
  well_formed c -> r ∈ used_urls (committed c) ->
  identity_is urlparse u r = true <-> url_key (url r) = url_key u.
Proof.
  intros (_ & Hrows & _) Hr. rewrite identity_is_unfold.
  destruct (Hrows r Hr). by apply LedgerFacts.row_check.
Qed.

Lemma find_by_key (rows : list UrlRow) (p : UrlRow -> bool) (k : string + string)
    (r : UrlRow) :
  (forall r', r' ∈ rows -> p r' = true <-> url_key (url r') = k) ->
  NoDup ((fun r => url_key (url r)) <$> rows) ->
  List.find p rows = Some r <-> r ∈ rows /\ url_key (url r) = k.
Proof.
  induction rows as [|r0 rows IH]; intros Hp Hnd.
  - simpl. split; [done|]. intros [H _]. by apply elem_of_nil in H.
  - rewrite fmap_cons in Hnd. apply NoDup_cons in Hnd as [Hnot Hnd]. simpl.
    destruct (p r0) eqn:E.
    + apply (Hp r0) in E; [|by left]. split.
      * intros [= <-]. split; [by left | done].
      * intros [[->|Hin]%elem_of_cons Hk]; [done|].
        destruct Hnot. rewrite E, <- Hk. apply list_elem_of_fmap. eauto.
    + rewrite IH; [|intros r' Hr'; apply Hp; by right | done]. split.
      * intros [Hin Hk]. split; [by right | done].
      * intros [[->|Hin]%elem_of_cons Hk]; [|done].
        apply (Hp r0) in Hk; [congruence | by left].
Qed.

(** [get_url_info] answers the one row of the URL's identity. *)
Lemma get_url_info_spec (c : Conn) (u : string) (i : UrlInfo) :
  well_formed c ->
  get_url_info urlparse c u = Some i
  <-> exists r, r ∈ used_urls (committed c) /\ url_key (url r) = url_key u
                /\ i = info_of r.
Proof.
  intros Hwf. pose proof Hwf as (Hp & _ & Hnd).
  unfold get_url_info, current. rewrite Hp. simpl. rewrite fmap_Some.
  split.
  - intros (r & Hf & ->). exists r.
    apply (find_by_key _ _ (url_key u)) in Hf as [? ?]; [done| |done].
    intros r' Hr'. by apply (identity_is_key c).
  - intros (r & Hr & Hk & ->). exists r. split; [|done].
    apply (find_by_key _ _ (url_key u)); [|done|done].
    intros r' Hr'. by apply (identity_is_key c).
Qed.

Lemma get_url_info_None (c : Conn) (u : string) :
  well_formed c -> get_url_info urlparse c u = None <-> url_key u ∉ keys c.
Proof.
  intros Hwf. split.
  - intros Hn Hin. unfold Ledger.keys in Hin.
    apply list_elem_of_fmap in Hin as (r & Hk & Hr).
    assert (get_url_info urlparse c u = Some (info_of r)) as E; [|congruence].
    apply get_url_info_spec; [done|]. eauto.
  - intros Hnot. destruct (get_url_info urlparse c u) as [i|] eqn:E; [|done].
    apply get_url_info_spec in E as (r & Hr & Hk & _); [|done].
    destruct Hnot. rewrite <- Hk. unfold Ledger.keys. apply list_elem_of_fmap. eauto.
Qed.

(** In a well-formed table [has_url] answers whether the identity is
    claimed. *)
Lemma has_url_key (c : Conn) (u : string) :
  well_formed c -> has_url urlparse c u = true <-> url_key u ∈ keys c.
Proof.
  intros Hwf. split; [|by apply LedgerFacts.has_url_of_key].
  pose proof Hwf as (Hp & Hrows & _).
  pose proof (LedgerFacts.check_spec urlparse Hsplit u c Hwf) as Hchk.
  unfold has_url, current. rewrite Hp. simpl.
  destruct (normalize_url u) as [n vid] eqn:En. simpl in Hchk.
  destruct (truthy_opt vid) eqn:Et; simpl.
  - destruct (existsb (video_id_is vid) _) eqn:Ev; [intros _; by apply Hchk|].
    rewrite existsb_exists.
    intros (r & Hr%list_elem_of_In & [Hn|Hu%String.eqb_eq]%orb_true_iff).
    + unfold normalized_is in Hn. apply bool_decide_eq_true in Hn.
      destruct (Hrows r Hr) as [Hrn Hrv]. rewrite Hrn in Hn. injection Hn as Hn.
      destruct (LedgerFacts.normalize_cases urlparse u) as [(v & Eu & Vv & Nu)|[Eu Nu]];
        rewrite En in Nu; injection Nu as -> ->; [|done].
      destruct (LedgerFacts.normalize_cases urlparse (url r))
        as [(v' & Er & Vv' & Nr)|[Er Nr]]; rewrite Nr in Hn; simpl in Hn.
      * apply LedgerFacts.watch_url_inj in Hn as ->.
        unfold Ledger.keys. apply list_elem_of_fmap. exists r. split; [|done].
        unfold Ledger.url_key. by rewrite En, Nr.
      * by apply (LedgerFacts.fallback_is_no_watch_url urlparse Hsplit) in Hn.
    + subst u. unfold Ledger.keys. apply list_elem_of_fmap. eauto.
  - rewrite existsb_exists.
    intros (r & Hr%list_elem_of_In & [Hn|Hu%String.eqb_eq]%orb_true_iff).
    + apply Hchk. apply existsb_exists. exists r. split; [by apply list_elem_of_In | done].
    + subst u. unfold Ledger.keys. apply list_elem_of_fmap. eauto.
Qed.

(** The key of a row that carries the normalization of its URL. *)
Lemma key_of_row (c : Conn) (r : UrlRow) :
  well_formed c -> r ∈ used_urls (committed c) ->
  url_key (url r)
  = match video_id r with
    | Some v => inl v
    | None => inr (default "" (normalized_url r))
    end.
Proof.
  intros (_ & Hrows & _) Hr. destruct (Hrows r Hr) as [Hn Hv].
  unfold Ledger.url_key. rewrite Hn, Hv. by destruct (normalize_url (url r)) as [n [v|]].
Qed.

Lemma has_video_id_key (c : Conn) (v : string) :
  well_formed c -> has_video_id c v = true <-> inl v ∈ keys c.
Proof.
  intros Hwf. pose proof Hwf as (Hp & _ & _).
  unfold has_video_id, current. rewrite Hp. simpl.
  rewrite existsb_exists. unfold Ledger.keys. rewrite list_elem_of_fmap. split.
  - intros (r & Hr%list_elem_of_In & Hv). exists r. split; [|done].
    unfold video_id_is in Hv. apply bool_decide_eq_true in Hv as [_ Hv].
    by rewrite (key_of_row c r), Hv.
  - intros (r & Hk & Hr). exists r. split; [by apply list_elem_of_In|].
    rewrite (key_of_row c r) in Hk by done.
    unfold video_id_is. apply bool_decide_eq_true.
    destruct (video_id r); simplify_eq. eauto.
Qed.

(** The identities in the table after a sequence of calls: those it held,
    and those of the calls answered [True]. *)
Lemma add_urls_keys (calls : list AddUrl) (c : Conn) (k : string + string) :
  well_formed c ->
  k ∈ keys (add_urls urlparse calls c).1
  <-> k ∈ keys c
      \/ exists i a, calls !! i = Some a
                     /\ (add_urls urlparse calls c).2 !! i = Some true
                     /\ url_key (arg_url a) = k.
Proof.
  revert c. induction calls as [|a0 calls IH]; intros c Hwf.
  - simpl. split; [by left|]. intros [H|(i & a & H & _)]; done.
  - rewrite LedgerFacts.add_urls_cons. simpl.
    destruct (call_add_url urlparse a0 c) as [c1 b0] eqn:E. simpl.
    destruct (LedgerFacts.call_add_url_keeps urlparse Hsplit a0 c c1 b0 Hwf E)
      as (Hwf1 & Hk & _).
    rewrite (IH c1 Hwf1), Hk, elem_of_app. split.
    + intros [[H|H]|(i & a & Hi & Hb & Ha)].
      * by left.
      * destruct b0; [|by apply elem_of_nil in H].
        apply list_elem_of_singleton in H. right. by exists 0%nat, a0.
      * right. by exists (S i), a.
    + intros [H|(i & a & Hi & Hb & Ha)]; [by left; left|].
      destruct i as [|i]; simpl in Hi, Hb.
      * simplify_eq. left. right. by apply list_elem_of_singleton.
      * right. by exists i, a.
Qed.

(** Calls append rows and leave those in the table as they are. *)
Lemma add_urls_rows (calls : list AddUrl) (c : Conn) :
  well_formed c ->
  exists new,
    used_urls (committed (add_urls urlparse calls c).1)
    = (used_urls (committed c) ++ new)%list.
Proof.
  revert c. induction calls as [|a0 calls IH]; intros c Hwf.
  - exists []. simpl. by rewrite app_nil_r.
  - rewrite LedgerFacts.add_urls_cons. simpl.
    destruct (call_add_url urlparse a0 c) as [c1 b0] eqn:E. simpl.
    destruct (LedgerFacts.call_add_url_keeps urlparse Hsplit a0 c c1 b0 Hwf E)
      as (Hwf1 & _).
    destruct (LedgerFacts.call_add_url_spec urlparse Hsplit a0 c c1 b0 Hwf E)
      as (Ht & Hf & _).
    destruct (IH c1 Hwf1) as [new ->].
    destruct b0.
    + destruct (Ht eq_refl) as [_ ->]. simpl.
      exists (row_of urlparse a0 :: new). by rewrite <- app_assoc.
    + rewrite (Hf eq_refl). by exists new.
Qed.

(** The counts of [get_stats] after a sequence of calls. *)
Lemma add_urls_counts (calls : list AddUrl) (c : Conn) :
  well_formed c ->
  length (used_urls (committed (add_urls urlparse calls c).1))
  = (length (used_urls (committed c))
     + length (filter (fun b : bool => b = true) (add_urls urlparse calls c).2))%nat
  /\ length (omap video_id (used_urls (committed (add_urls urlparse calls c).1)))
     = (length (omap video_id (used_urls (committed c)))
        + length (filter (fun p : AddUrl * bool =>
                            p.2 = true /\ is_Some (normalize_url (arg_url p.1)).2)
                         (zip calls (add_urls urlparse calls c).2)))%nat
  /\ audio_hashes (committed (add_urls urlparse calls c).1) = audio_hashes (committed c).
Proof.
  revert c. induction calls as [|a0 calls IH]; intros c Hwf.
  - simpl. by rewrite !Nat.add_0_r.
  - rewrite LedgerFacts.add_urls_cons. simpl.
    destruct (call_add_url urlparse a0 c) as [c1 b0] eqn:E. simpl.
    destruct (LedgerFacts.call_add_url_keeps urlparse Hsplit a0 c c1 b0 Hwf E)
      as (Hwf1 & _).
    destruct (LedgerFacts.call_add_url_spec urlparse Hsplit a0 c c1 b0 Hwf E)
      as (Ht & Hf & _).
    destruct (IH c1 Hwf1) as (-> & -> & ->).
    rewrite !filter_cons. simpl. destruct b0.
    + destruct (Ht eq_refl) as [_ ->]. simpl.
      rewrite length_app, omap_app, length_app. simpl.
      unfold row_of. destruct (normalize_url (arg_url a0)) as [n [v|]] eqn:En; simpl.
      * split; [lia|]. split; [lia|done].
      * split; [lia|]. split; [lia|done].
    + by rewrite (Hf eq_refl).
Qed.

Lemma NoDup_video_ids (rows : list UrlRow) (f : UrlRow -> string + string) :
  (forall r v, r ∈ rows -> video_id r = Some v -> f r = inl v) ->
  NoDup (f <$> rows) -> NoDup (omap video_id rows).
Proof.
  induction rows as [|r rows IH]; intros Hf Hnd; [constructor|].
  rewrite fmap_cons in Hnd. apply NoDup_cons in Hnd as [Hnot Hnd]. simpl.
  assert (NoDup (omap video_id rows)) as IH'.
  { apply IH; [|done]. intros r' v Hr'. apply Hf. by right. }
  destruct (video_id r) as [v|] eqn:Ev; [|done].
  apply NoDup_cons. split; [|done].
  intros (r' & Hr' & Hv')%list_elem_of_omap. destruct Hnot.
  rewrite (Hf r v) by (done || by left).
  apply list_elem_of_fmap. exists r'. split; [|done].
  symmetry. apply Hf; [by right | done].
Qed.

(** In a well-formed table no URL and no video id occurs twice. *)
Lemma well_formed_distinct (c : Conn) :
  well_formed c ->
  NoDup (url <$> used_urls (committed c))
  /\ NoDup (omap video_id (used_urls (committed c))).
Proof.
  intros Hwf. pose proof Hwf as (_ & _ & Hnd). split.
  - unfold Ledger.keys in Hnd.
    rewrite (list_fmap_compose url url_key) in Hnd. by apply NoDup_fmap_1 in Hnd.
  - apply (NoDup_video_ids _ (fun r => url_key (url r))); [|done].
    intros r v Hr Hv. by rewrite (key_of_row c r), Hv.
Qed.

End WithUrlparse.

(** *** Migration of the legacy lists *)

Lemma implicit_begin_current (c : Conn) : current (implicit_begin c) = current c.
Proof. unfold implicit_begin, current. destruct (pending c) eqn:E; simpl; by rewrite ?E. Qed.

Lemma url_column (rows : list UrlRow) (u : string) :
  existsb (fun r => String.eqb (url r) u) rows = true <-> u ∈ url <$> rows.
Proof.
  rewrite existsb_exists, list_elem_of_fmap. split.
  - intros (r & Hr%list_elem_of_In & <-%String.eqb_eq). eauto.
  - intros (r & -> & Hr%list_elem_of_In). exists r. split; [done|]. apply String.eqb_refl.
Qed.

Lemma tables_eq (t1 t2 : Tables) :
  audio_hashes t1 = audio_hashes t2 -> used_urls t1 = used_urls t2 -> t1 = t2.
Proof. destruct t1, t2; simpl; by intros -> ->. Qed.

(** One [INSERT OR IGNORE]. *)
Lemma insert_or_ignore_spec (u : string) (c : Conn) :
  audio_hashes (current (insert_or_ignore_url u c)) = audio_hashes (current c)
  /\ used_urls (current (insert_or_ignore_url u c))
     = (used_urls (current c)
        ++ (if bool_decide (u ∈ url <$> used_urls (current c)) then []
            else [mkUrlRow u None None None None None]))%list.
Proof.
  unfold insert_or_ignore_url. rewrite implicit_begin_current.
  pose proof (url_column (used_urls (current c)) u) as Hcol.
  destruct (existsb _ _).
  - rewrite bool_decide_eq_true_2 by (by apply Hcol). rewrite app_nil_r.
    by rewrite implicit_begin_current.
  - rewrite bool_decide_eq_false_2; [done|].
    intros H. apply Hcol in H. done.
Qed.

(** The inserts of a migration. *)
Lemma migrate_fold (urls : list string) (c : Conn) :
  audio_hashes (current (foldl (fun c u => insert_or_ignore_url u c) c urls))
  = audio_hashes (current c)
  /\ exists new,
       used_urls (current (foldl (fun c u => insert_or_ignore_url u c) c urls))
       = (used_urls (current c) ++ new)%list
       /\ Forall (fun r => r = mkUrlRow (url r) None None None None None
                           /\ url r ∈ urls) new
       /\ (forall u, u ∈ urls -> u ∈ url <$> (used_urls (current c) ++ new)%list)
       /\ (forall u, u ∈ url <$> new -> u ∉ url <$> used_urls (current c))
       /\ NoDup (url <$> new)
       /\ ((forall u, u ∈ urls -> u ∈ url <$> used_urls (current c)) -> new = []).
Proof.
  revert c. induction urls as [|u urls IH]; intros c; simpl.
  - split; [done|]. exists []. rewrite app_nil_r.
    repeat split; try done.
    + intros u H. by apply elem_of_nil in H.
    + intros u H. by apply elem_of_nil in H.
    + constructor.
  - destruct (insert_or_ignore_spec u c) as [Ha Hr].
    destruct (IH (insert_or_ignore_url u c)) as (Ha1 & new1 & Hr1 & Hall & Hin & Hnot & Hnd & Hnone).
    rewrite Ha1, Ha. split; [done|].
    rewrite Hr1, Hr. rewrite Hr in Hin, Hnot, Hnone.
    destruct (bool_decide (u ∈ url <$> used_urls (current c))) eqn:Ed.
    + apply bool_decide_eq_true in Ed. rewrite app_nil_r in *.
      exists new1. split; [done|]. split; [|split; [|split; [|split]]]; try done.
      * eapply Forall_impl; [exact Hall|]. intros r [? ?]. split; [done|by right].
      * intros u' [->|H]%elem_of_cons; [|by apply Hin].
        rewrite fmap_app. apply elem_of_app. by left.
      * intros Hpres. apply Hnone. intros u' Hu'. apply Hpres. by right.
    + apply bool_decide_eq_false in Ed.
      exists (mkUrlRow u None None None None None :: new1).
      split; [by rewrite <- app_assoc|]. split; [|split; [|split; [|split]]].
      * constructor; [split; [done|by left]|].
        eapply Forall_impl; [exact Hall|]. intros r [? ?]. split; [done|by right].
      * intros u' [->|H]%elem_of_cons.
        -- rewrite fmap_app. apply elem_of_app. right. simpl. by left.
        -- apply Hin in H. by rewrite <- app_assoc in H.
      * intros u'. rewrite fmap_cons. simpl. intros [->|H]%elem_of_cons; [done|].
        apply Hnot in H. intros H'. apply H. rewrite fmap_app. apply elem_of_app. by left.
      * rewrite fmap_cons. simpl. apply NoDup_cons. split; [|done].
        intros H. apply Hnot in H. apply H. rewrite fmap_app. apply elem_of_app.
        right. simpl. by left.
      * intros Hpres. destruct Ed. apply Hpres. by left.
Qed.

Section Migration.

Variable urlparse : string -> Url.ParseResult.

(** The primary key of [used_urls] refuses a URL that is in the table,
    whatever the other columns of its row hold. *)
Lemma add_url_existing (f : Faults) (u : string) (t s th : option string) (c : Conn) :
  pending c = None -> u ∈ url <$> used_urls (committed c) ->
  add_url urlparse f u t s th c = (c, false).
Proof.
  intros Hp Hin. apply url_column in Hin.
  unfold add_url. destruct (Url.normalize_url urlparse u) as [n vid].
  unfold add_url_try, mbind, tx_bind, mret, tx_ret, execute_begin, select_url,
    insert_url, commit, tx_rollback, rollback, current.
  rewrite Hp. simpl.
  destruct (f SBegin); simpl; [by rewrite LedgerFacts.conn_eta|].
  destruct (truthy_opt vid); simpl.
  all: destruct (f SSelect); simpl; [by rewrite LedgerFacts.conn_eta|].
  all: match goal with |- context [existsb ?g ?l] => destruct (existsb g l) end; simpl;
    [by rewrite LedgerFacts.conn_eta|].
  all: destruct (f SInsert); simpl; [by rewrite LedgerFacts.conn_eta|].
  all: rewrite Hin; simpl; by rewrite LedgerFacts.conn_eta.
Qed.

(** [has_url] finds a URL that is in the table as it is written. *)
Lemma has_url_existing (u : string) (c : Conn) :
  u ∈ url <$> used_urls (current c) -> has_url urlparse c u = true.
Proof.
  intros Hin. apply url_column in Hin. unfold has_url.
  destruct (Url.normalize_url urlparse u) as [n vid].
  destruct (_ && _); [done|].
  apply existsb_exists. apply existsb_exists in Hin as (r & Hr & Hu).
  exists r. split; [done|]. rewrite Hu. apply orb_true_r.
Qed.

(** The updates of [_populate_missing_url_data]. *)
Lemma update_url_data_spec (u : string) (rows : list UrlRow) :
  update_url_data urlparse u rows
  = (fun r => if String.eqb (url r) u then with_url_data urlparse r else r) <$> rows.
Proof.
  unfold update_url_data, with_url_data.
  destruct (Url.normalize_url urlparse u) as [n vid] eqn:E.
  apply list_fmap_ext. intros i r _. simpl.
  destruct (String.eqb_spec (url r) u) as [->|]; [|done]. by rewrite E.
Qed.

Lemma with_url_data_idemp (r : UrlRow) :
  with_url_data urlparse (with_url_data urlparse r) = with_url_data urlparse r.
Proof. done. Qed.

Lemma update_all_spec (us : list string) (rows : list UrlRow) :
  foldl (fun rows u => update_url_data urlparse u rows) rows us
  = (fun r => if bool_decide (url r ∈ us) then with_url_data urlparse r else r) <$> rows.
Proof.
  revert rows. induction us as [|u us IH]; intros rows; simpl.
  - rewrite <- (list_fmap_id rows) at 1. by apply list_fmap_ext.
  - rewrite IH, update_url_data_spec, <- list_fmap_compose.
    apply list_fmap_ext. intros i r _. simpl.
    destruct (String.eqb_spec (url r) u) as [Heq|Hne].
    + simpl. rewrite (bool_decide_eq_true_2 (url r ∈ u :: us)) by (rewrite Heq; by left).
      by destruct (bool_decide (url r ∈ us)).
    + destruct (bool_decide (url r ∈ us)) eqn:Ed.
      * apply bool_decide_eq_true in Ed. rewrite bool_decide_eq_true_2; [done|by right].
      * apply bool_decide_eq_false in Ed. rewrite bool_decide_eq_false_2; [done|].
        intros [?|?]%elem_of_cons; done.
Qed.

(** With the primary key in force, the rows updated are those that miss a
    column. *)
Lemma populate_rows (c : Conn) :
  NoDup (url <$> used_urls (current c)) ->
  used_urls (current (_populate_missing_url_data urlparse c))
  = (fun r => if missing_url_data r then with_url_data urlparse r else r)
      <$> used_urls (current c).
Proof.
  intros Hnd. unfold _populate_missing_url_data.
  set (rows := used_urls (current c)) in *.
  assert (Hfix : (fun r => if bool_decide (url r ∈ url <$> List.filter missing_url_data rows)
                           then with_url_data urlparse r else r) <$> rows
                 = (fun r => if missing_url_data r then with_url_data urlparse r else r)
                     <$> rows).
  { apply list_fmap_ext. intros i r Hi. simpl.
    destruct (missing_url_data r) eqn:Em.
    - rewrite bool_decide_eq_true_2; [done|].
      apply list_elem_of_fmap. exists r. split; [done|].
      apply list_elem_of_In, filter_In. split; [|done].
      apply list_elem_of_In. by eapply list_elem_of_lookup_2.
    - rewrite bool_decide_eq_false_2; [done|].
      intros (r' & Hu & Hr')%list_elem_of_fmap.
      apply list_elem_of_In, filter_In in Hr' as [Hr'%list_elem_of_In Hm'].
      apply list_elem_of_lookup in Hr' as [j Hj].
      assert (i = j) as ->.
      { apply (NoDup_lookup (url <$> rows) i j (url r)); [done| |].
        - by rewrite list_lookup_fmap, Hi.
        - by rewrite list_lookup_fmap, Hj, Hu. }
      congruence. }
  destruct (url <$> List.filter missing_url_data rows) as [|u0 us] eqn:Eus.
  - fold rows. rewrite <- Hfix. rewrite <- (list_fmap_id rows) at 1.
    by apply list_fmap_ext.
  - unfold current at 1. simpl. rewrite <- Hfix. apply (update_all_spec (u0 :: us)).
Qed.

Lemma populate_hashes (c : Conn) :
  audio_hashes (current (_populate_missing_url_data urlparse c))
  = audio_hashes (current c).
Proof.
  unfold _populate_missing_url_data. by destruct (url <$> List.filter _ _).
Qed.

End Migration.

End LedgerQueriesFacts.

(** X1.  A content hash is registered at most once.  Take any sequence of
    [add_hash] calls on a connection with no transaction open, whose table
    holds no hash twice.  Afterwards the table still holds no hash twice and
    every hash it held is still reported by [has_hash].  Whatever faults
    occur, a call that answers [True] has a hash that was not in the table,
    that is in it afterwards, and that no earlier call of the sequence was
    answered [True] for.  When the storage layer works, a call answers
    [True] exactly when its hash was not in the table and no earlier call
    had it. *)
Theorem hash_registered_at_most_once
    (c : Ledger.Conn) (calls : list LedgerQueries.AddHash) :
  Ledger.pending c = None ->
  NoDup (LedgerQueries.hashes c) ->
  NoDup (LedgerQueries.hashes (LedgerQueries.add_hashes calls c).1)
  /\ (forall h, Ledger.has_hash c h = true ->
        Ledger.has_hash (LedgerQueries.add_hashes calls c).1 h = true)
  /\ (forall i a,
        calls !! i = Some a ->
        (LedgerQueries.add_hashes calls c).2 !! i = Some true ->
        Ledger.has_hash c (LedgerQueries.arg_hash a) = false
        /\ Ledger.has_hash (LedgerQueries.add_hashes calls c).1
             (LedgerQueries.arg_hash a) = true
        /\ forall j a', (j < i)%nat -> calls !! j = Some a' ->
             (LedgerQueries.add_hashes calls c).2 !! j = Some true ->
             LedgerQueries.arg_hash a' <> LedgerQueries.arg_hash a)
  /\ (Forall (fun a => forall s, LedgerQueries.arg_hash_faults a s = false) calls ->
      forall i a b,
        calls !! i = Some a ->
        (LedgerQueries.add_hashes calls c).2 !! i = Some b ->
        (b = true <->
         Ledger.has_hash c (LedgerQueries.arg_hash a) = false
         /\ forall j a', (j < i)%nat -> calls !! j = Some a' ->
              LedgerQueries.arg_hash a' <> LedgerQueries.arg_hash a)).
Proof.
  intros Hp Hnd.
  destruct (LedgerQueriesFacts.add_hashes_keeps calls c Hp) as (_ & Hnd' & Hmono & _).
  split; [by apply Hnd'|]. split; [|split].
  - intros h. rewrite !LedgerQueriesFacts.has_hash_hashes. apply Hmono.
  - intros i a Hi Hb.
    rewrite LedgerQueriesFacts.has_hash_false, LedgerQueriesFacts.has_hash_hashes.
    by apply LedgerQueriesFacts.add_hashes_true_is_new.
  - intros Hff i a b Hi Hb. rewrite LedgerQueriesFacts.has_hash_false.
    by apply LedgerQueriesFacts.add_hashes_first.
Qed.

Lemma hash_registered_at_most_once_witness :
  (LedgerQueries.add_hashes
     [ LedgerQueries.mkAddHash "d41d" (Some "a_s1.wav") None None Ledger.no_faults;
       LedgerQueries.mkAddHash "9e10" None None None (Ledger.fail_at Ledger.SCommit);
       LedgerQueries.mkAddHash "d41d" None None None Ledger.no_faults;
       LedgerQueries.mkAddHash "9e10" None None None Ledger.no_faults ]
     Ledger.fresh_conn).2 = [true; false; false; true]
  /\ NoDup (LedgerQueries.hashes
       (LedgerQueries.add_hashes
          [ LedgerQueries.mkAddHash "d41d" (Some "a_s1.wav") None None Ledger.no_faults;
            LedgerQueries.mkAddHash "9e10" None None None (Ledger.fail_at Ledger.SCommit);
            LedgerQueries.mkAddHash "d41d" None None None Ledger.no_faults;
            LedgerQueries.mkAddHash "9e10" None None None Ledger.no_faults ]
          Ledger.fresh_conn).1).
Proof.
  split; [vm_compute; reflexivity|].
  apply hash_registered_at_most_once; [reflexivity | constructor].
Defined.

(** X2.  [get_url_info] answers the data of the call that claimed the
    identity.  Once a call of [add_url] on a ledger grown from the empty one
    has answered [True], [get_url_info] answers, for every URL of the same
    identity and whatever calls follow, the URL, video id, title, search
    term and theme name of that call: later calls with another form of the
    URL or other details never change what is stored. *)
Theorem url_info_first_writer_wins (urlparse : string -> Url.ParseResult) :
  Url.splits_query urlparse ->
  forall (before after : list Ledger.AddUrl) (a : Ledger.AddUrl) (u : string),
    (Ledger.call_add_url urlparse a
       (Ledger.add_urls urlparse before Ledger.fresh_conn).1).2 = true ->
    Ledger.url_key urlparse u = Ledger.url_key urlparse (Ledger.arg_url a) ->
    LedgerQueries.get_url_info urlparse
      (Ledger.add_urls urlparse (before ++ a :: after) Ledger.fresh_conn).1 u
    = Some (LedgerQueries.mkUrlInfo
              (Ledger.arg_url a)
              (Url.normalize_url urlparse (Ledger.arg_url a)).2
              (Ledger.arg_title a) (Ledger.arg_search_term a)
              (Ledger.arg_theme_name a)).
Proof.
  intros Hsplit before after a u Ha Hu.
  pose proof (LedgerFacts.fresh_conn_well_formed urlparse) as Hfresh.
  destruct (LedgerFacts.add_urls_keeps urlparse Hsplit before Ledger.fresh_conn Hfresh)
    as [Hwf1 _].
  destruct (LedgerFacts.add_urls_keeps urlparse Hsplit (before ++ a :: after)
              Ledger.fresh_conn Hfresh) as [Hwf3 _].
  apply (LedgerQueriesFacts.get_url_info_spec urlparse Hsplit); [done|].
  exists (Ledger.row_of urlparse a). split; [|split].
  - rewrite LedgerFacts.add_urls_app.
    set (c1 := (Ledger.add_urls urlparse before Ledger.fresh_conn).1) in *.
    rewrite LedgerFacts.add_urls_cons. simpl.
    destruct (Ledger.call_add_url urlparse a c1) as [c2 b] eqn:E. simpl in *. subst b.
    destruct (LedgerFacts.call_add_url_keeps urlparse Hsplit a c1 c2 true Hwf1 E)
      as (Hwf2 & _).
    destruct (LedgerFacts.call_add_url_spec urlparse Hsplit a c1 c2 true Hwf1 E)
      as (Ht & _).
    destruct (LedgerQueriesFacts.add_urls_rows urlparse Hsplit after c2 Hwf2)
      as [new ->].
    destruct (Ht eq_refl) as [_ ->]. simpl.
    apply elem_of_app. left. apply elem_of_app. right. by apply list_elem_of_singleton.
  - by rewrite LedgerFacts.row_of_url.
  - unfold Ledger.row_of, LedgerQueries.info_of.
    by destruct (Url.normalize_url urlparse (Ledger.arg_url a)).
Qed.

Lemma url_info_first_writer_wins_witness :
  LedgerQueries.get_url_info UrlLib.urlparse
    (Ledger.add_urls UrlLib.urlparse
       ([] ++ Ledger.mkAddUrl "https://youtu.be/abc" None (Some "rain") (Some "Soft")
                Ledger.no_faults
           :: [Ledger.mkAddUrl "https://www.youtube.com/watch?v=abc" (Some "Rain sounds")
                 (Some "storm") (Some "Loud") Ledger.no_faults])
       Ledger.fresh_conn).1
    "https://youtube.com/embed/abc"
  = Some (LedgerQueries.mkUrlInfo "https://youtu.be/abc" (Some "abc") None (Some "rain")
            (Some "Soft")).
Proof.
  apply (url_info_first_writer_wins UrlLib.urlparse UrlLibFacts.urlparse_splits_query
           [] _ (Ledger.mkAddUrl "https://youtu.be/abc" None (Some "rain") (Some "Soft")
                   Ledger.no_faults));
    vm_compute; reflexivity.
Defined.

(** X3.  The look-ups of the ledger agree.  On a ledger grown from the
    empty one by calls of [add_url], whatever faults occurred:
    (a) [has_url] answers [True] for a URL exactly when a call with a URL of
    the same identity has answered [True];
    (b) [get_url_info] answers a row exactly when [has_url] answers [True];
    (c) for a URL with a video id, [has_video_id] of that id answers as
    [has_url] does;
    (d) every URL of [get_all_urls] is reported as used;
    (e) [get_all_video_ids] holds the ids [has_video_id] accepts. *)
Theorem ledger_lookups_agree (urlparse : string -> Url.ParseResult) :
  Url.splits_query urlparse ->
  forall (calls : list Ledger.AddUrl) (u : string),
    (Ledger.has_url urlparse (Ledger.add_urls urlparse calls Ledger.fresh_conn).1 u = true
     <-> exists i a,
           calls !! i = Some a
           /\ (Ledger.add_urls urlparse calls Ledger.fresh_conn).2 !! i = Some true
           /\ Ledger.url_key urlparse (Ledger.arg_url a) = Ledger.url_key urlparse u)
    /\ (is_Some (LedgerQueries.get_url_info urlparse
                   (Ledger.add_urls urlparse calls Ledger.fresh_conn).1 u)
        <-> Ledger.has_url urlparse
              (Ledger.add_urls urlparse calls Ledger.fresh_conn).1 u = true)
    /\ (forall v, (Url.normalize_url urlparse u).2 = Some v ->
          Ledger.has_video_id (Ledger.add_urls urlparse calls Ledger.fresh_conn).1 v
          = Ledger.has_url urlparse
              (Ledger.add_urls urlparse calls Ledger.fresh_conn).1 u)
    /\ (u ∈ LedgerQueries.get_all_urls
              (Ledger.add_urls urlparse calls Ledger.fresh_conn).1 ->
        Ledger.has_url urlparse
          (Ledger.add_urls urlparse calls Ledger.fresh_conn).1 u = true)
    /\ (forall v,
          v ∈ LedgerQueries.get_all_video_ids
                (Ledger.add_urls urlparse calls Ledger.fresh_conn).1
          <-> Ledger.has_video_id
                (Ledger.add_urls urlparse calls Ledger.fresh_conn).1 v = true).
Proof.
  intros Hsplit calls u.
  pose proof (LedgerFacts.fresh_conn_well_formed urlparse) as Hfresh.
  destruct (LedgerFacts.add_urls_keeps urlparse Hsplit calls Ledger.fresh_conn Hfresh)
    as [Hwf _].
  pose proof (LedgerQueriesFacts.add_urls_keys urlparse Hsplit calls Ledger.fresh_conn)
    as Hkeys.
  set (c := (Ledger.add_urls urlparse calls Ledger.fresh_conn).1) in *.
  pose proof Hwf as (Hp & _ & _).
  split; [|split; [|split; [|split]]].
  - rewrite (LedgerQueriesFacts.has_url_key urlparse Hsplit c u Hwf), (Hkeys _ Hfresh).
    split; [|by right]. intros [H|H]; [|done]. by apply elem_of_nil in H.
  - rewrite (LedgerQueriesFacts.has_url_key urlparse Hsplit c u Hwf).
    rewrite <- not_eq_None_Some.
    rewrite (LedgerQueriesFacts.get_url_info_None urlparse Hsplit c u Hwf).
    split; [|by intros H Hn]. intros H. by destruct (decide (Ledger.url_key urlparse u ∈ Ledger.keys urlparse c)).
  - intros v Hv.
    pose proof (LedgerQueriesFacts.has_video_id_key urlparse c v Hwf) as H1.
    pose proof (LedgerQueriesFacts.has_url_key urlparse Hsplit c u Hwf) as H2.
    assert (Ledger.url_key urlparse u = inl v) as Hk.
    { unfold Ledger.url_key. destruct (Url.normalize_url urlparse u). simpl in Hv. by subst. }
    rewrite Hk in H2.
    destruct (Ledger.has_video_id c v), (Ledger.has_url urlparse c u); try done.
    + symmetry. apply H2, H1. done.
    + apply H1, H2. done.
  - unfold LedgerQueries.get_all_urls, Ledger.current. rewrite Hp. simpl.
    rewrite elem_of_list_to_set, list_elem_of_fmap. intros (r & -> & Hr).
    apply (LedgerQueriesFacts.has_url_key urlparse Hsplit c _ Hwf).
    unfold Ledger.keys. apply list_elem_of_fmap. eauto.
  - intros v. unfold LedgerQueries.get_all_video_ids, Ledger.has_video_id.
    rewrite elem_of_list_to_set, list_elem_of_omap, existsb_exists.
    split.
    + intros (r & Hr & Hv). exists r. split; [by apply list_elem_of_In|].
      unfold Ledger.video_id_is. apply bool_decide_eq_true. eauto.
    + intros (r & Hr%list_elem_of_In & Hv). exists r. split; [done|].
      unfold Ledger.video_id_is in Hv. by apply bool_decide_eq_true in Hv as [_ Hv].
Qed.

Lemma ledger_lookups_agree_witness :
  Ledger.has_video_id
    (Ledger.add_urls UrlLib.urlparse
       [Ledger.mkAddUrl "https://youtu.be/abc" None None None Ledger.no_faults]
       Ledger.fresh_conn).1 "abc"
  = Ledger.has_url UrlLib.urlparse
      (Ledger.add_urls UrlLib.urlparse
         [Ledger.mkAddUrl "https://youtu.be/abc" None None None Ledger.no_faults]
         Ledger.fresh_conn).1 "https://www.youtube.com/shorts/abc".
Proof.
  destruct (ledger_lookups_agree UrlLib.urlparse UrlLibFacts.urlparse_splits_query
              [Ledger.mkAddUrl "https://youtu.be/abc" None None None Ledger.no_faults]
              "https://www.youtube.com/shorts/abc") as (_ & _ & H & _).
  apply H. vm_compute. reflexivity.
Defined.

(** X4.  [get_stats] counts claims.  On a ledger grown from the empty one
    by calls of [add_url], [total_urls] is the number of calls that answered
    [True] and [youtube_videos] the number of those whose URL has a video
    id; no URL and no video id is counted twice, so these are the sizes of
    [get_all_urls] and [get_all_video_ids]; [total_hashes] stays 0. *)
Theorem stats_count_claims (urlparse : string -> Url.ParseResult) :
  Url.splits_query urlparse ->
  forall (calls : list Ledger.AddUrl),
    LedgerQueries.total_urls
      (LedgerQueries.get_stats (Ledger.add_urls urlparse calls Ledger.fresh_conn).1)
    = length (filter (fun b : bool => b = true)
                     (Ledger.add_urls urlparse calls Ledger.fresh_conn).2)
    /\ LedgerQueries.youtube_videos
         (LedgerQueries.get_stats (Ledger.add_urls urlparse calls Ledger.fresh_conn).1)
       = length (filter (fun p : Ledger.AddUrl * bool =>
                           p.2 = true
                           /\ is_Some (Url.normalize_url urlparse (Ledger.arg_url p.1)).2)
                        (zip calls (Ledger.add_urls urlparse calls Ledger.fresh_conn).2))
    /\ LedgerQueries.total_hashes
         (LedgerQueries.get_stats (Ledger.add_urls urlparse calls Ledger.fresh_conn).1)
       = 0%nat
    /\ size (LedgerQueries.get_all_urls
               (Ledger.add_urls urlparse calls Ledger.fresh_conn).1)
       = LedgerQueries.total_urls
           (LedgerQueries.get_stats (Ledger.add_urls urlparse calls Ledger.fresh_conn).1)
    /\ size (LedgerQueries.get_all_video_ids
               (Ledger.add_urls urlparse calls Ledger.fresh_conn).1)
       = LedgerQueries.youtube_videos
           (LedgerQueries.get_stats (Ledger.add_urls urlparse calls Ledger.fresh_conn).1)
    /\ (LedgerQueries.youtube_videos
          (LedgerQueries.get_stats (Ledger.add_urls urlparse calls Ledger.fresh_conn).1)
        <= LedgerQueries.total_urls
             (LedgerQueries.get_stats (Ledger.add_urls urlparse calls Ledger.fresh_conn).1))%nat.
Proof.
  intros Hsplit calls.
  pose proof (LedgerFacts.fresh_conn_well_formed urlparse) as Hfresh.
  destruct (LedgerFacts.add_urls_keeps urlparse Hsplit calls Ledger.fresh_conn Hfresh)
    as [Hwf _].
  destruct (LedgerQueriesFacts.add_urls_counts urlparse Hsplit calls Ledger.fresh_conn
              Hfresh) as (Hn & Hy & Hh).
  destruct (LedgerQueriesFacts.well_formed_distinct urlparse _ Hwf) as [Hdu Hdv].
  pose proof Hwf as (Hp & _ & _).
  unfold LedgerQueries.get_stats, LedgerQueries.get_all_urls,
    LedgerQueries.get_all_video_ids, Ledger.current.
  rewrite Hp. simpl.
  rewrite !size_list_to_set by done. rewrite length_fmap.
  pose proof (LedgerQueriesFacts.length_omap_le Ledger.video_id
    (Ledger.used_urls (Ledger.committed
       (Ledger.add_urls urlparse calls Ledger.fresh_conn).1))) as Hle.
  rewrite Hn, Hy in Hle. rewrite Hn, Hy, Hh. simpl in *.
  repeat split; done.
Qed.

Lemma stats_count_claims_witness :
  LedgerQueries.get_stats
    (Ledger.add_urls UrlLib.urlparse
       [ Ledger.mkAddUrl "https://youtu.be/abc" None None None Ledger.no_faults;
         Ledger.mkAddUrl "https://example.com/a.mp3?x=1" None None None Ledger.no_faults;
         Ledger.mkAddUrl "https://www.youtube.com/watch?v=abc" None None None
           Ledger.no_faults ]
       Ledger.fresh_conn).1
  = LedgerQueries.mkStats 0 2 1
  /\ (size (LedgerQueries.get_all_video_ids
             (Ledger.add_urls UrlLib.urlparse
                [ Ledger.mkAddUrl "https://youtu.be/abc" None None None Ledger.no_faults;
                  Ledger.mkAddUrl "https://example.com/a.mp3?x=1" None None None
                    Ledger.no_faults;
                  Ledger.mkAddUrl "https://www.youtube.com/watch?v=abc" None None None
                    Ledger.no_faults ]
                Ledger.fresh_conn).1)
     = LedgerQueries.youtube_videos
         (LedgerQueries.get_stats
            (Ledger.add_urls UrlLib.urlparse
               [ Ledger.mkAddUrl "https://youtu.be/abc" None None None Ledger.no_faults;
                 Ledger.mkAddUrl "https://example.com/a.mp3?x=1" None None None
                   Ledger.no_faults;
                 Ledger.mkAddUrl "https://www.youtube.com/watch?v=abc" None None None
                   Ledger.no_faults ]
               Ledger.fresh_conn).1)).
Proof.
  split; [vm_compute; reflexivity|].
  apply (stats_count_claims UrlLib.urlparse UrlLibFacts.urlparse_splits_query).
Defined.

(** X5.  Migrating a legacy URL list keeps its URLs claimed.  For the URL
    part of [_migrate_legacy_data] with a working storage layer, from any
    connection: the rows and hashes present are left as they are and the
    rows added hold a URL of the list with every other column [NULL]; each
    URL of the list is then reported by [has_url], and [add_url] on it
    answers [False] and changes nothing, whatever the storage layer does;
    the primary key is kept; and migrating the same list again, as every
    start of the program does, changes nothing. *)
Theorem legacy_urls_stay_claimed
    (urlparse : string -> Url.ParseResult) (urls : list string) (c : Ledger.Conn) :
  Ledger.pending (LedgerQueries.migrate_urls urls c) = None
  /\ Ledger.audio_hashes (Ledger.committed (LedgerQueries.migrate_urls urls c))
     = Ledger.audio_hashes (Ledger.current c)
  /\ (exists new,
        Ledger.used_urls (Ledger.committed (LedgerQueries.migrate_urls urls c))
        = (Ledger.used_urls (Ledger.current c) ++ new)%list
        /\ Forall (fun r => r = Ledger.mkUrlRow (Ledger.url r) None None None None None
                            /\ Ledger.url r ∈ urls) new)
  /\ (forall u, u ∈ urls ->
        Ledger.has_url urlparse (LedgerQueries.migrate_urls urls c) u = true
        /\ forall f t s th,
             Ledger.add_url urlparse f u t s th (LedgerQueries.migrate_urls urls c)
             = (LedgerQueries.migrate_urls urls c, false))
  /\ (NoDup (Ledger.url <$> Ledger.used_urls (Ledger.current c)) ->
      NoDup (Ledger.url <$>
               Ledger.used_urls (Ledger.committed (LedgerQueries.migrate_urls urls c))))
  /\ LedgerQueries.migrate_urls urls (LedgerQueries.migrate_urls urls c)
     = LedgerQueries.migrate_urls urls c.
Proof.
  destruct (LedgerQueriesFacts.migrate_fold urls c)
    as (Ha & new & Hr & Hall & Hin & Hnot & Hnd & _).
  set (c1 := LedgerQueries.migrate_urls urls c).
  assert (Hcom : Ledger.committed c1
                 = Ledger.current (foldl (fun c u => LedgerQueries.insert_or_ignore_url u c)
                                         c urls)) by done.
  assert (Hcur : Ledger.current c1 = Ledger.committed c1) by done.
  assert (Hp : Ledger.pending c1 = None) by done.
  rewrite <- Hcom in Ha, Hr.
  split; [done|]. split; [done|]. split; [by eauto|].
  split; [|split].
  - intros u Hu. split.
    + apply LedgerQueriesFacts.has_url_existing. rewrite Hcur, Hr. by apply Hin.
    + intros f t s th. apply LedgerQueriesFacts.add_url_existing; [done|].
      rewrite Hr. by apply Hin.
  - intros Hnd0. rewrite Hr, fmap_app. apply NoDup_app. split; [done|].
    split; [|done]. intros u Hu Hu'. by apply Hnot in Hu'.
  - destruct (LedgerQueriesFacts.migrate_fold urls c1)
      as (Ha1 & new1 & Hr1 & _ & _ & _ & _ & Hnone).
    rewrite Hnone in Hr1.
    + rewrite app_nil_r in Hr1.
      transitivity (Ledger.mkConn (Ledger.committed c1) None); [|done].
      unfold LedgerQueries.migrate_urls at 1. f_equal.
      rewrite <- Hcur. by apply LedgerQueriesFacts.tables_eq.
    + intros u Hu. rewrite Hcur, Hr. by apply Hin.
Qed.

(** X6.  [_populate_missing_url_data] fills in what is missing and nothing
    else.  With a working storage layer and the primary key of [used_urls]
    in force: every row that lacks its normalized URL or its video id gets
    both from its URL, every other row and every hash is left as it is; a
    table in which every row carries the normalization of its URL is not
    changed; running it a second time (as [_ensure_url_data_populated]
    does) changes nothing more; and afterwards [has_url] answers [True] for
    every form of the URL of a row that was filled in. *)
Theorem populate_fills_url_data
    (urlparse : string -> Url.ParseResult) (c : Ledger.Conn) :
  NoDup (Ledger.url <$> Ledger.used_urls (Ledger.current c)) ->
  Ledger.used_urls (Ledger.current (LedgerQueries._populate_missing_url_data urlparse c))
  = (fun r => if LedgerQueries.missing_url_data r
              then LedgerQueries.with_url_data urlparse r else r)
      <$> Ledger.used_urls (Ledger.current c)
  /\ Ledger.audio_hashes
       (Ledger.current (LedgerQueries._populate_missing_url_data urlparse c))
     = Ledger.audio_hashes (Ledger.current c)
  /\ (LedgerQueries.populated urlparse c ->
      Ledger.current (LedgerQueries._populate_missing_url_data urlparse c)
      = Ledger.current c)
  /\ Ledger.current
       (LedgerQueries._populate_missing_url_data urlparse
          (LedgerQueries._populate_missing_url_data urlparse c))
     = Ledger.current (LedgerQueries._populate_missing_url_data urlparse c)
  /\ (forall r u',
        r ∈ Ledger.used_urls (Ledger.current c) ->
        LedgerQueries.missing_url_data r = true ->
        Url.normalize_url urlparse u' = Url.normalize_url urlparse (Ledger.url r) ->
        Ledger.has_url urlparse
          (LedgerQueries._populate_missing_url_data urlparse c) u' = true).
Proof.
  intros Hnd.
  pose proof (LedgerQueriesFacts.populate_rows urlparse c Hnd) as Hrows.
  pose proof (LedgerQueriesFacts.populate_hashes urlparse c) as Hh.
  set (c' := LedgerQueries._populate_missing_url_data urlparse c) in *.
  set (fix_row := fun r => if LedgerQueries.missing_url_data r
                           then LedgerQueries.with_url_data urlparse r else r) in *.
  assert (Hurl : forall r, Ledger.url (fix_row r) = Ledger.url r).
  { intros r. unfold fix_row. by destruct (LedgerQueries.missing_url_data r). }
  assert (Hnd' : NoDup (Ledger.url <$> Ledger.used_urls (Ledger.current c'))).
  { rewrite Hrows, <- list_fmap_compose.
    erewrite list_fmap_ext; [exact Hnd|]. intros i r _. apply Hurl. }
  split; [done|]. split; [done|]. split; [|split].
  - intros Hpop. apply LedgerQueriesFacts.tables_eq; [done|].
    rewrite Hrows. rewrite <- (list_fmap_id (Ledger.used_urls (Ledger.current c))) at 2.
    apply list_fmap_ext. intros i r Hi. simpl.
    destruct (Hpop r) as [Hn Hv]; [by eapply list_elem_of_lookup_2|].
    unfold fix_row. destruct (LedgerQueries.missing_url_data r); [|done].
    unfold LedgerQueries.with_url_data. destruct r; simpl in *. by rewrite Hn, Hv.
  - apply LedgerQueriesFacts.tables_eq.
    + by rewrite LedgerQueriesFacts.populate_hashes.
    + rewrite (LedgerQueriesFacts.populate_rows urlparse c' Hnd'). fold fix_row.
      rewrite Hrows, <- list_fmap_compose.
      apply list_fmap_ext. intros i r _. simpl.
      unfold fix_row.
      destruct (LedgerQueries.missing_url_data r) eqn:Em; [|by rewrite Em].
      destruct (LedgerQueries.missing_url_data (LedgerQueries.with_url_data urlparse r));
        reflexivity.
  - intros r u' Hr Hm Hu'.
    assert (Hin : LedgerQueries.with_url_data urlparse r
                  ∈ Ledger.used_urls (Ledger.current c')).
    { rewrite Hrows. apply list_elem_of_fmap. exists r. split; [|done].
      unfold fix_row. by rewrite Hm. }
    apply list_elem_of_In in Hin.
    unfold Ledger.has_url. rewrite Hu'.
    destruct (Url.normalize_url urlparse (Ledger.url r)) as [n vid] eqn:En.
    destruct (Ledger.truthy_opt vid) eqn:Et; simpl.
    + assert (existsb (Ledger.video_id_is vid) (Ledger.used_urls (Ledger.current c'))
              = true) as ->; [|done].
      apply existsb_exists. eexists. split; [exact Hin|].
      unfold Ledger.video_id_is, LedgerQueries.with_url_data. simpl. rewrite En. simpl.
      apply bool_decide_eq_true. split; [|done]. by destruct vid.
    + apply existsb_exists. eexists. split; [exact Hin|].
      unfold Ledger.normalized_is, LedgerQueries.with_url_data. simpl. rewrite En. simpl.
      by rewrite bool_decide_eq_true_2.
Qed.

Lemma populate_fills_url_data_witness :
  Ledger.has_url UrlLib.urlparse
    (LedgerQueries._populate_missing_url_data UrlLib.urlparse
       (LedgerQueries.migrate_urls ["https://youtu.be/abc"] Ledger.fresh_conn))
    "https://www.youtube.com/watch?v=abc&t=10s" = true
  /\ Ledger.has_url UrlLib.urlparse
       (LedgerQueries.migrate_urls ["https://youtu.be/abc"] Ledger.fresh_conn)
       "https://www.youtube.com/watch?v=abc&t=10s" = false.
Proof.
  split; [|vm_compute; reflexivity].
  destruct (populate_fills_url_data UrlLib.urlparse
              (LedgerQueries.migrate_urls ["https://youtu.be/abc"] Ledger.fresh_conn))
    as (_ & _ & _ & _ & H).
  - apply (bool_decide_unpack _). vm_compute. exact I.
  - apply (H (Ledger.mkUrlRow "https://youtu.be/abc" None None None None None)).
    + apply list_elem_of_here.
    + reflexivity.
    + vm_compute. reflexivity.
Defined.

(** ** The session cache, the search filter and the gate *)

Module SessionFacts.
Import Ledger Session.

Section WithUrlparse.

Variable urlparse : string -> Url.ParseResult.

Local Abbreviation normalize_url := (Url.normalize_url urlparse).

Lemma is_used_spec (s : Cache) (u : string) :
  is_url_used_in_session urlparse s u = true
  <-> u ∈ _session_used_urls s
      \/ (normalize_url u).1 ∈ _session_used_urls s
      \/ exists v, (normalize_url u).2 = Some v /\ Str.truthy v = true
                   /\ v ∈ _session_used_video_ids s.
Proof.
  unfold is_url_used_in_session. destruct (normalize_url u) as [n vid]. simpl.
  destruct (bool_decide (u ∈ _)) eqn:E1; simpl.
  { apply bool_decide_eq_true in E1. split; [auto|done]. }
  apply bool_decide_eq_false in E1.
  destruct (bool_decide (n ∈ _)) eqn:E2; simpl.
  { apply bool_decide_eq_true in E2. split; [auto|done]. }
  apply bool_decide_eq_false in E2.
  destruct vid as [v|].
  - rewrite andb_true_iff, bool_decide_eq_true. split.
    + intros [? ?]. right. right. eauto.
    + intros [?|[?|(v' & [= <-] & ? & ?)]]; done.
  - split; [done|]. intros [?|[?|(v' & [=] & _)]]; done.
Qed.

Lemma mark_urls (s : Cache) (u x : string) :
  x ∈ _session_used_urls (mark_url_used_in_session urlparse s u)
  <-> x = (normalize_url u).1 \/ x = u \/ x ∈ _session_used_urls s.
Proof.
  unfold mark_url_used_in_session. destruct (normalize_url u) as [n vid]. simpl.
  set_solver.
Qed.

Lemma mark_ids (s : Cache) (u x : string) :
  x ∈ _session_used_video_ids (mark_url_used_in_session urlparse s u)
  <-> ((normalize_url u).2 = Some x /\ Str.truthy x = true)
      \/ x ∈ _session_used_video_ids s.
Proof.
  unfold mark_url_used_in_session. destruct (normalize_url u) as [n [v|]]; simpl.
  - destruct (Str.truthy v) eqn:Et.
    + rewrite elem_of_union, elem_of_singleton. split.
      * intros [->|?]; auto.
      * intros [[[= ->] _]|?]; auto.
    + split; [auto|]. intros [[[= ->] ?]|?]; [congruence|done].
  - split; [auto|]. intros [[[=] _]|?]; done.
Qed.

(** A URL marked in the session is recognised in every form that
    normalizes like it. *)
Lemma marked_is_used (s : Cache) (u u' : string) :
  normalize_url u' = normalize_url u ->
  is_url_used_in_session urlparse (mark_url_used_in_session urlparse s u) u' = true.
Proof.
  intros H. apply is_used_spec. right. left. rewrite H. apply mark_urls. by left.
Qed.

Lemma mark_keeps_used (s : Cache) (u u' : string) :
  is_url_used_in_session urlparse s u' = true ->
  is_url_used_in_session urlparse (mark_url_used_in_session urlparse s u) u' = true.
Proof.
  rewrite !is_used_spec. intros [?|[?|(v & ? & ? & ?)]].
  - left. apply mark_urls. auto.
  - right. left. apply mark_urls. auto.
  - right. right. exists v. split; [done|]. split; [done|]. apply mark_ids. auto.
Qed.

End WithUrlparse.


Lemma filter_sublist {A} (p : A -> bool) (l : list A) : sublist (List.filter p l) l.
Proof.
  induction l as [|x l IH]; simpl; [constructor|].
  destruct (p x); by constructor.
Qed.

Lemma world_eta (w : World) :
  mkWorld (cache w) (conn w) (urls_file w) (hashes_file w) = w.
Proof. by destruct w. Qed.

Lemma last_n_length {A} (n : nat) (l : list A) : (length (last_n n l) <= n)%nat.
Proof. unfold last_n. rewrite length_drop. lia. Qed.

Lemma last_n_suffix {A} (n : nat) (l : list A) : last_n n l `suffix_of` l.
Proof. apply suffix_drop. Qed.

Lemma last_n_last {A} (n : nat) (l : list A) (x : A) :
  (0 < n)%nat -> last (last_n n (l ++ [x])) = Some x.
Proof.
  intros Hn. unfold last_n. rewrite length_app. simpl.
  rewrite drop_app_le by lia. by rewrite last_snoc.
Qed.

Section Gate.

Variable urlparse : string -> Url.ParseResult.
Hypothesis Hsplit : Url.splits_query urlparse.

Local Abbreviation normalize_url := (Url.normalize_url urlparse).
Local Abbreviation url_key := (Ledger.url_key urlparse).
Local Abbreviation keys := (Ledger.keys urlparse).
Local Abbreviation well_formed := (Ledger.well_formed urlparse).

(** What [_extract_search] returns. *)
Lemma extract_search_spec (w : World) (entries : list Entry) (vid u : string) :
  (vid, u) ∈ _extract_search urlparse w entries
  <-> (vid, u) ∈ all_results entries /\ filtered_out urlparse w vid u = false.
Proof.
  unfold _extract_search. rewrite list_elem_of_In, filter_In, <- list_elem_of_In. simpl.
  by rewrite negb_true_iff.
Qed.

Lemma filtered_out_false (w : World) (vid u : string) :
  filtered_out urlparse w vid u = false
  <-> has_url urlparse (conn w) u = false
      /\ is_url_used_in_session urlparse (cache w) u = false
      /\ has_video_id (conn w) vid = false.
Proof. unfold filtered_out. rewrite !orb_false_iff. tauto. Qed.

Lemma all_results_truthy (entries : list Entry) (vid u : string) :
  (vid, u) ∈ all_results entries -> Str.truthy vid = true /\ Str.truthy u = true.
Proof.
  unfold all_results. rewrite list_elem_of_omap. intros (e & _ & He).
  unfold entry_pair in He.
  destruct (entry_id e) as [v|]; [|done].
  destruct (or_else _ _) as [x|]; [|done].
  destruct (Str.truthy v) eqn:E1, (Str.truthy x) eqn:E2; simpl in He; by simplify_eq.
Qed.

(** The gate in terms of [add_url]. *)
Lemma gate_spec (f : Faults) (wf : bool) (u term : string) (theme : option string)
    (w w' : World) (r : Gate) :
  well_formed (conn w) ->
  gate urlparse f wf u term theme w = (w', r) ->
  cache w' = mark_url_used_in_session urlparse (cache w) u
  /\ hashes_file w' = hashes_file w
  /\ well_formed (conn w')
  /\ (r = AlreadyUsed -> conn w' = conn w /\ urls_file w' = urls_file w
                         /\ url_key u ∈ keys (conn w))
  /\ (r = LostRace -> conn w' = conn w /\ urls_file w' = urls_file w)
  /\ (r = Proceeds ->
        (url_key u ∉ keys (conn w))
        /\ conn w'
           = mkConn (mkTables (audio_hashes (committed (conn w)))
                              (used_urls (committed (conn w))
                               ++ [mkUrlRow u (Some (normalize_url u).1) (normalize_url u).2
                                            None (Some term) theme]))
                    None).
Proof.
  intros Hwf. unfold gate. simpl.
  destruct (has_url urlparse (conn w) u) eqn:Eh.
  { intros [= <- <-]. simpl. split; [done|]. split; [done|]. split; [done|].
    split; [|by split]. intros _. split; [done|]. split; [done|].
    by apply (LedgerQueriesFacts.has_url_key urlparse Hsplit). }
  unfold _save_used_url. simpl.
  destruct (add_url urlparse f u None (Some term) theme (conn w)) as [c b] eqn:Ea.
  pose proof (LedgerFacts.call_add_url_spec urlparse Hsplit
                (mkAddUrl u None (Some term) theme f) (conn w) c b Hwf Ea)
    as (Ht & Hf & _).
  pose proof (LedgerFacts.call_add_url_keeps urlparse Hsplit
                (mkAddUrl u None (Some term) theme f) (conn w) c b Hwf Ea)
    as (Hwf' & _).
  destruct b; intros [= <- <-]; simpl.
  - destruct (Ht eq_refl) as [Hnew Hc].
    split; [done|]. split; [done|]. split; [done|]. split; [done|]. split; [done|].
    intros _. split; [done|].
    rewrite Hc. unfold row_of. simpl. by destruct (normalize_url u).
  - rewrite (Hf eq_refl) in *.
    split; [done|]. split; [done|]. split; [done|]. split; [done|]. by split.
Qed.

End Gate.

End SessionFacts.

(** X7.  The session cache recognises every form of a marked URL.  After
    [mark_url_used_in_session(u)], [is_url_used_in_session] answers [True]
    for a URL exactly when it did before, or the URL or its normalized form
    is [u] or the normalized form of [u], or both have the same non-empty
    video id; in particular for every URL that normalizes like [u].
    Nothing is forgotten by a mark, and after [clear_session_urls] no URL is
    reported. *)
Theorem session_cache_recognises_forms
    (urlparse : string -> Url.ParseResult) (s : Session.Cache) (u u' : string) :
  (Session.is_url_used_in_session urlparse
     (Session.mark_url_used_in_session urlparse s u) u' = true
   <-> Session.is_url_used_in_session urlparse s u' = true
       \/ u' = u
       \/ u' = (Url.normalize_url urlparse u).1
       \/ (Url.normalize_url urlparse u').1 = u
       \/ (Url.normalize_url urlparse u').1 = (Url.normalize_url urlparse u).1
       \/ exists v, (Url.normalize_url urlparse u').2 = Some v
                    /\ (Url.normalize_url urlparse u).2 = Some v
                    /\ Str.truthy v = true)
  /\ (Url.normalize_url urlparse u' = Url.normalize_url urlparse u ->
      Session.is_url_used_in_session urlparse
        (Session.mark_url_used_in_session urlparse s u) u' = true)
  /\ Session.is_url_used_in_session urlparse (Session.clear_session_urls s) u' = false.
Proof.
  split; [|split].
  - rewrite !SessionFacts.is_used_spec.
    setoid_rewrite SessionFacts.mark_urls. setoid_rewrite SessionFacts.mark_ids.
    split.
    + intros [[H|[H|H]]|[[H|[H|H]]|(v & Hv & Ht & [[Hv2 _]|Hin])]].
      * right; right; by left.
      * right; by left.
      * left; by left.
      * do 4 right; by left.
      * do 3 right; by left.
      * left; right; by left.
      * do 5 right. by exists v.
      * left; right; right. by exists v.
    + intros [[H|[H|(v & Hv & Ht & Hin)]]|[H|[H|[H|[H|(v & Hv & Hv2 & Ht)]]]]].
      * left; right; by right.
      * right; left; right; by right.
      * right; right. exists v. split; [done|]. split; [done|]. by right.
      * left; right; by left.
      * left; by left.
      * right; left; right; by left.
      * right; left; by left.
      * right; right. exists v. split; [done|]. split; [done|]. by left.
  - apply SessionFacts.marked_is_used.
  - apply not_true_iff_false. rewrite SessionFacts.is_used_spec. simpl.
    intros [?|[?|(v & _ & _ & ?)]]; set_solver.
Qed.

(** X8.  [_extract_search] returns only results that are not used.  The
    list returned is a sub-list, in order, of the results that have an id
    and a URL; each pair returned has a non-empty id and URL, a URL that
    neither [has_url] nor the session cache reports, and an id
    [has_video_id] does not report; each pair left out is reported by one
    of the three.  Hence, on a ledger grown from the empty one by calls of
    [add_url], no returned URL has the identity of a call that answered
    [True], nor the video id of one; and no returned URL normalizes like a
    URL marked in the session. *)
Theorem search_filter_excludes_used (urlparse : string -> Url.ParseResult) :
  Url.splits_query urlparse ->
  forall (w : Session.World) (entries : list Session.Entry),
    sublist (Session._extract_search urlparse w entries) (Session.all_results entries)
    /\ (forall vid u,
          (vid, u) ∈ Session._extract_search urlparse w entries ->
          Str.truthy vid = true /\ Str.truthy u = true
          /\ Ledger.has_url urlparse (Session.conn w) u = false
          /\ Session.is_url_used_in_session urlparse (Session.cache w) u = false
          /\ Ledger.has_video_id (Session.conn w) vid = false)
    /\ (forall vid u,
          (vid, u) ∈ Session.all_results entries ->
          (vid, u) ∉ Session._extract_search urlparse w entries ->
          Ledger.has_url urlparse (Session.conn w) u = true
          \/ Session.is_url_used_in_session urlparse (Session.cache w) u = true
          \/ Ledger.has_video_id (Session.conn w) vid = true)
    /\ (forall calls vid u i a,
          Session.conn w = (Ledger.add_urls urlparse calls Ledger.fresh_conn).1 ->
          (vid, u) ∈ Session._extract_search urlparse w entries ->
          calls !! i = Some a ->
          (Ledger.add_urls urlparse calls Ledger.fresh_conn).2 !! i = Some true ->
          Ledger.url_key urlparse (Ledger.arg_url a) <> Ledger.url_key urlparse u
          /\ (Url.normalize_url urlparse (Ledger.arg_url a)).2 <> Some vid)
    /\ (forall s u0 vid u,
          Session.cache w = Session.mark_url_used_in_session urlparse s u0 ->
          (vid, u) ∈ Session._extract_search urlparse w entries ->
          Url.normalize_url urlparse u <> Url.normalize_url urlparse u0).
Proof.
  intros Hsplit w entries.
  split; [apply SessionFacts.filter_sublist|]. split; [|split; [|split]].
  - intros vid u [Hall Hf]%SessionFacts.extract_search_spec.
    apply SessionFacts.filtered_out_false in Hf.
    apply SessionFacts.all_results_truthy in Hall. tauto.
  - intros vid u Hall Hnot.
    destruct (Session.filtered_out urlparse w vid u) eqn:Ef.
    + unfold Session.filtered_out in Ef.
      apply orb_true_iff in Ef as [[?|?]%orb_true_iff|?]; auto.
    + destruct Hnot. by apply SessionFacts.extract_search_spec.
  - intros calls vid u i a Hc [_ Hf]%SessionFacts.extract_search_spec Hi Hb.
    apply SessionFacts.filtered_out_false in Hf as (Hu & _ & Hv).
    pose proof (LedgerFacts.fresh_conn_well_formed urlparse) as Hfresh.
    destruct (LedgerFacts.add_urls_keeps urlparse Hsplit calls Ledger.fresh_conn Hfresh)
      as [Hwf _].
    rewrite <- Hc in Hwf.
    assert (Hin : Ledger.url_key urlparse (Ledger.arg_url a)
                  ∈ Ledger.keys urlparse (Session.conn w)).
    { rewrite Hc. apply (LedgerQueriesFacts.add_urls_keys urlparse Hsplit); [done|].
      right. by exists i, a. }
    split.
    + intros Heq. rewrite Heq in Hin.
      apply (LedgerQueriesFacts.has_url_key urlparse Hsplit) in Hin; [|done]. congruence.
    + intros Hvid.
      assert (Ledger.url_key urlparse (Ledger.arg_url a) = inl vid) as Hk.
      { unfold Ledger.url_key.
        destruct (Url.normalize_url urlparse (Ledger.arg_url a)). simpl in Hvid. by subst. }
      rewrite Hk in Hin.
      apply (LedgerQueriesFacts.has_video_id_key urlparse) in Hin; [|done]. congruence.
  - intros s u0 vid u Hs [_ Hf]%SessionFacts.extract_search_spec Hn.
    apply SessionFacts.filtered_out_false in Hf as (_ & Hs' & _).
    rewrite Hs, (SessionFacts.marked_is_used urlparse s u0 u Hn) in Hs'. done.
Qed.

Lemma search_filter_excludes_used_witness :
  Session._extract_search UrlLib.urlparse
    (Session.mkWorld
       (Session.mark_url_used_in_session UrlLib.urlparse (Session.mkCache ∅ ∅)
          "https://www.youtube.com/watch?v=zzz")
       (Ledger.add_urls UrlLib.urlparse
          [Ledger.mkAddUrl "https://youtu.be/abc" None None None Ledger.no_faults]
          Ledger.fresh_conn).1
       Session.Missing Session.Missing)
    [ Session.mkEntry (Some "abc") (Some "https://www.youtube.com/watch?v=abc") None;
      Session.mkEntry (Some "zzz") None (Some "https://www.youtube.com/shorts/zzz");
      Session.mkEntry (Some "new") (Some "") (Some "https://www.youtube.com/watch?v=new");
      Session.mkEntry None (Some "https://www.youtube.com/watch?v=q") None ]
  = [("new", "https://www.youtube.com/watch?v=new")]
  /\ Ledger.has_url UrlLib.urlparse
       (Ledger.add_urls UrlLib.urlparse
          [Ledger.mkAddUrl "https://youtu.be/abc" None None None Ledger.no_faults]
          Ledger.fresh_conn).1
       "https://www.youtube.com/watch?v=new" = false.
Proof.
  split; [vm_compute; reflexivity|].
  destruct (search_filter_excludes_used UrlLib.urlparse UrlLibFacts.urlparse_splits_query
              (Session.mkWorld
                 (Session.mark_url_used_in_session UrlLib.urlparse (Session.mkCache ∅ ∅)
                    "https://www.youtube.com/watch?v=zzz")
                 (Ledger.add_urls UrlLib.urlparse
                    [Ledger.mkAddUrl "https://youtu.be/abc" None None None Ledger.no_faults]
                    Ledger.fresh_conn).1
                 Session.Missing Session.Missing)
              [ Session.mkEntry (Some "abc") (Some "https://www.youtube.com/watch?v=abc") None;
                Session.mkEntry (Some "zzz") None (Some "https://www.youtube.com/shorts/zzz");
                Session.mkEntry (Some "new") (Some "")
                  (Some "https://www.youtube.com/watch?v=new");
                Session.mkEntry None (Some "https://www.youtube.com/watch?v=q") None ])
    as (_ & H & _).
  apply (H "new" "https://www.youtube.com/watch?v=new").
  apply (bool_decide_unpack _). vm_compute. exact I.
Defined.

(** X9.  The gate of [_download_one].  On a ledger grown from the empty one
    by calls of [add_url], whatever the storage layer and the legacy file
    do:
    (a) whether or not the download goes on, the URL is marked in the
    session, so that [_extract_search] returns no URL that normalizes like
    it for the rest of the session;
    (b) the download goes on only for a URL whose identity was not claimed;
    it is claimed afterwards, with the search term and theme of this call
    and no title, and every later [_save_used_url] for the URL, such as the
    one made once the title is known, answers [False] and leaves ledger and
    files as they are;
    (c) when the download does not go on, ledger and legacy files are as
    before. *)
Theorem download_gate_claims_once (urlparse : string -> Url.ParseResult) :
  Url.splits_query urlparse ->
  forall (before : list Ledger.AddUrl) (s : Session.Cache)
         (uf hf : Session.Json string) (f : Ledger.Faults) (write_fails : bool)
         (u term : string) (theme : option string) (w' : Session.World)
         (r : Session.Gate),
    Session.gate urlparse f write_fails u term theme
      (Session.mkWorld s (Ledger.add_urls urlparse before Ledger.fresh_conn).1 uf hf)
    = (w', r) ->
    (forall entries vid u',
        (vid, u') ∈ Session._extract_search urlparse w' entries ->
        Url.normalize_url urlparse u' <> Url.normalize_url urlparse u)
    /\ (r = Session.Proceeds ->
          Ledger.has_url urlparse
            (Ledger.add_urls urlparse before Ledger.fresh_conn).1 u = false
          /\ Ledger.has_url urlparse (Session.conn w') u = true
          /\ LedgerQueries.get_url_info urlparse (Session.conn w') u
             = Some (LedgerQueries.mkUrlInfo u (Url.normalize_url urlparse u).2 None
                       (Some term) theme)
          /\ forall f2 write_fails2 title term2 theme2,
               Session._save_used_url urlparse f2 write_fails2 u title term2 theme2 w'
               = (w', false))
    /\ (r <> Session.Proceeds ->
          Session.conn w' = (Ledger.add_urls urlparse before Ledger.fresh_conn).1
          /\ Session.urls_file w' = uf)
    /\ Session.hashes_file w' = hf.
Proof.
  intros Hsplit before s uf hf f wfl u term theme w' r Hg.
  pose proof (LedgerFacts.fresh_conn_well_formed urlparse) as Hfresh.
  destruct (LedgerFacts.add_urls_keeps urlparse Hsplit before Ledger.fresh_conn Hfresh)
    as [Hwf _].
  apply (SessionFacts.gate_spec urlparse Hsplit) in Hg
    as (Hc & Hh & Hwf' & Hused & Hrace & Hgo); [|done].
  simpl in *. split; [|split; [|split]]; [| | |done].
  - intros entries vid u' [_ Hf]%SessionFacts.extract_search_spec Hn.
    apply SessionFacts.filtered_out_false in Hf as (_ & Hs' & _).
    rewrite Hc, (SessionFacts.marked_is_used urlparse s u u' Hn) in Hs'. done.
  - intros ->. destruct (Hgo eq_refl) as [Hnew Hconn].
    assert (Hrow : Ledger.mkUrlRow u (Some (Url.normalize_url urlparse u).1)
                     (Url.normalize_url urlparse u).2 None (Some term) theme
                   ∈ Ledger.used_urls (Ledger.committed (Session.conn w'))).
    { rewrite Hconn. simpl. apply elem_of_app. right. by apply list_elem_of_singleton. }
    assert (Hcol : u ∈ Ledger.url <$> Ledger.used_urls (Ledger.committed (Session.conn w'))).
    { apply list_elem_of_fmap. eexists. split; [|exact Hrow]. done. }
    pose proof Hwf' as (Hp' & _).
    split; [|split; [|split]].
    + apply not_true_iff_false. intros H.
      by apply (LedgerQueriesFacts.has_url_key urlparse Hsplit) in H.
    + apply LedgerQueriesFacts.has_url_existing.
      unfold Ledger.current. by rewrite Hp'.
    + apply (LedgerQueriesFacts.get_url_info_spec urlparse Hsplit); [done|].
      eexists. split; [exact Hrow|]. done.
    + intros f2 wf2 title term2 theme2. unfold Session._save_used_url.
      rewrite (LedgerQueriesFacts.add_url_existing urlparse f2 u title term2 theme2
                 (Session.conn w') Hp' Hcol).
      by rewrite SessionFacts.world_eta.
  - intros Hr. destruct r; [|by apply Hrace|done].
    destruct (Hused eq_refl) as (? & ? & _). done.
Qed.

Lemma download_gate_claims_once_witness :
  LedgerQueries.get_url_info UrlLib.urlparse
    (Session.conn
       (Session.gate UrlLib.urlparse Ledger.no_faults false "https://youtu.be/abc" "rain"
          (Some "Soft")
          (Session.mkWorld (Session.mkCache ∅ ∅)
             (Ledger.add_urls UrlLib.urlparse [] Ledger.fresh_conn).1
             Session.Missing Session.Missing)).1)
    "https://youtu.be/abc"
  = Some (LedgerQueries.mkUrlInfo "https://youtu.be/abc"
            (Url.normalize_url UrlLib.urlparse "https://youtu.be/abc").2 None
            (Some "rain") (Some "Soft")).
Proof.
  destruct (download_gate_claims_once UrlLib.urlparse UrlLibFacts.urlparse_splits_query
              [] (Session.mkCache ∅ ∅) Session.Missing Session.Missing Ledger.no_faults
              false "https://youtu.be/abc" "rain" (Some "Soft")
              (Session.gate UrlLib.urlparse Ledger.no_faults false "https://youtu.be/abc"
                 "rain" (Some "Soft")
                 (Session.mkWorld (Session.mkCache ∅ ∅)
                    (Ledger.add_urls UrlLib.urlparse [] Ledger.fresh_conn).1
                    Session.Missing Session.Missing)).1
              Session.Proceeds) as (_ & H & _).
  - vm_compute. reflexivity.
  - apply H. reflexivity.
Defined.

(** X10.  The legacy hash file.  [_save_hash] answers what [add_hash]
    answers and leaves the ledger as [add_hash] does; when the answer is
    [False] the file is untouched, and when it is [True] and the file can
    be written, the file holds at most 5000 entries, the new hash last,
    the entries being the end of the old list followed by the new hash.
    In [_download_one] the hash has just been registered by [add_hash]
    when [_save_hash] is called, so that call answers [False]: the file is
    kept exactly when the first [add_hash] answers [True], the ledger is as
    that call leaves it, and the legacy file is never written. *)
Theorem legacy_hash_file
    (f1 f2 : Ledger.Faults) (write_fails : bool) (h p u : string)
    (metadata : option string) (w : Session.World) :
  Ledger.pending (Session.conn w) = None ->
  (Session.conn (Session._save_hash f1 write_fails h w).1,
   (Session._save_hash f1 write_fails h w).2)
  = Ledger.add_hash f1 h None None None (Session.conn w)
  /\ ((Session._save_hash f1 write_fails h w).2 = false ->
      Session.hashes_file (Session._save_hash f1 write_fails h w).1
      = Session.hashes_file w)
  /\ ((Session._save_hash f1 write_fails h w).2 = true -> write_fails = false ->
      exists data,
        Session.hashes_file (Session._save_hash f1 write_fails h w).1 = Session.Holds data
        /\ (length data <= 5000)%nat
        /\ last data = Some h
        /\ data `suffix_of`
             (match Session.hashes_file w with
              | Session.Holds old => old
              | _ => []
              end ++ [h])%list)
  /\ (Session.conn (Session.register_download f1 f2 write_fails h p u metadata w).1,
      (Session.register_download f1 f2 write_fails h p u metadata w).2)
     = Ledger.add_hash f1 h (Some p) (Some u) metadata (Session.conn w)
  /\ Session.hashes_file (Session.register_download f1 f2 write_fails h p u metadata w).1
     = Session.hashes_file w.
Proof.
  intros Hp. split; [|split; [|split; [|split]]].
  - unfold Session._save_hash.
    destruct (Ledger.add_hash f1 h None None None (Session.conn w)) as [c b].
    by destruct b.
  - unfold Session._save_hash.
    destruct (Ledger.add_hash f1 h None None None (Session.conn w)) as [c b].
    by destruct b.
  - unfold Session._save_hash.
    destruct (Ledger.add_hash f1 h None None None (Session.conn w)) as [c b].
    destruct b; [|done]. simpl. intros _ ->. eexists. split; [done|].
    split; [apply SessionFacts.last_n_length|].
    split; [apply SessionFacts.last_n_last; lia | apply SessionFacts.last_n_suffix].
  - unfold Session.register_download.
    destruct (Ledger.add_hash f1 h (Some p) (Some u) metadata (Session.conn w))
      as [c b] eqn:E.
    destruct b; simpl; [|done].
    destruct (LedgerQueriesFacts.call_add_hash_spec
                (LedgerQueries.mkAddHash h (Some p) (Some u) metadata f1)
                (Session.conn w) c true Hp E) as (Hp1 & Hh & _).
    unfold Session._save_hash. simpl.
    destruct (Ledger.add_hash f2 h None None None c) as [c2 b2] eqn:E2.
    destruct (LedgerQueriesFacts.call_add_hash_spec
                (LedgerQueries.mkAddHash h None None None f2) c c2 b2 Hp1 E2)
      as (_ & _ & _ & Hnew & Hsame & _).
    destruct b2; simpl.
    + destruct (Hnew eq_refl). simpl. rewrite Hh. apply elem_of_app. right.
      by apply list_elem_of_singleton.
    + by rewrite (Hsame eq_refl).
  - unfold Session.register_download.
    destruct (Ledger.add_hash f1 h (Some p) (Some u) metadata (Session.conn w))
      as [c b] eqn:E.
    destruct b; simpl; [|done].
    destruct (LedgerQueriesFacts.call_add_hash_spec
                (LedgerQueries.mkAddHash h (Some p) (Some u) metadata f1)
                (Session.conn w) c true Hp E) as (Hp1 & Hh & _).
    unfold Session._save_hash. simpl.
    destruct (Ledger.add_hash f2 h None None None c) as [c2 b2] eqn:E2.
    destruct (LedgerQueriesFacts.call_add_hash_spec
                (LedgerQueries.mkAddHash h None None None f2) c c2 b2 Hp1 E2)
      as (_ & _ & _ & Hnew & Hsame & _).
    destruct b2; simpl; [|done].
    destruct (Hnew eq_refl). simpl. rewrite Hh. apply elem_of_app. right.
    by apply list_elem_of_singleton.
Qed.

Lemma legacy_hash_file_witness :
  Session.register_download Ledger.no_faults Ledger.no_faults false
    "d41d" "rain_abc.wav" "https://youtu.be/abc" None
    (Session.mkWorld (Session.mkCache ∅ ∅) Ledger.fresh_conn Session.Missing
       (Session.Holds ["9e10"]))
  = (Session.mkWorld (Session.mkCache ∅ ∅)
       (Ledger.add_hash Ledger.no_faults "d41d" (Some "rain_abc.wav")
          (Some "https://youtu.be/abc") None Ledger.fresh_conn).1
       Session.Missing (Session.Holds ["9e10"]),
     true)
  /\ Session.hashes_file
       (Session.register_download Ledger.no_faults Ledger.no_faults false
          "d41d" "rain_abc.wav" "https://youtu.be/abc" None
          (Session.mkWorld (Session.mkCache ∅ ∅) Ledger.fresh_conn Session.Missing
             (Session.Holds ["9e10"]))).1
     = Session.Holds ["9e10"].
Proof.
  split; [vm_compute; reflexivity|].
  apply (legacy_hash_file Ledger.no_faults Ledger.no_faults false
           "d41d" "rain_abc.wav" "https://youtu.be/abc" None
           (Session.mkWorld (Session.mkCache ∅ ∅) Ledger.fresh_conn Session.Missing
              (Session.Holds ["9e10"]))).
  reflexivity.
Defined.

(** ** Sequential slicing: the slices returned *)

Module SlicingBounds.
Import Slicing.

Section Loop.

Variable sound_len clip_ms slice_stride_ms : Z.
Variable slice_hash : Z -> string.
Variable out_path : nat -> string.
Variable faults_at : Z -> Ledger.Faults.
Variable unlink_raises : Z -> bool.

Local Abbreviation slice_loop :=
  (Slicing.slice_loop sound_len clip_ms slice_stride_ms slice_hash out_path faults_at
     unlink_raises).
Local Abbreviation hashes := LedgerQueries.hashes.

(** What holds of the slices taken so far: the slice at position [i] is the
    window at [i] strides, inside the sound, its file is in place, and its
    hash, new to the ledger the run started from, is registered; no two
    slices have the same hash. *)
Local Abbreviation taken_ok := (fun (c0 : Ledger.Conn) (st : State) =>
  (forall i sl, out st !! i = Some sl ->
     slice_index sl = S i
     /\ slice_start_ms sl = (Z.of_nat i * Z.max slice_stride_ms 1)%Z
     /\ slice_duration_ms sl = clip_ms
     /\ audio_hash sl = slice_hash (slice_start_ms sl)
     /\ (slice_start_ms sl + clip_ms <= sound_len)%Z
     /\ S i ∈ processed st
     /\ (audio_hash sl ∉ hashes c0)
     /\ audio_hash sl ∈ hashes (conn st))
  /\ NoDup (audio_hash <$> out st)
  /\ Ledger.pending (conn st) = None
  /\ (forall h, h ∈ hashes c0 -> h ∈ hashes (conn st))).

Lemma slice_loop_inv (c0 : Ledger.Conn) (remaining taken : nat) (start : Z) (st : State) :
  length (out st) = taken ->
  start = (Z.of_nat taken * Z.max slice_stride_ms 1)%Z ->
  taken_ok c0 st ->
  (length (out (slice_loop remaining taken start st)) <= taken + remaining)%nat
  /\ taken_ok c0 (slice_loop remaining taken start st).
Proof.
  revert taken start st.
  induction remaining as [|remaining IH]; intros taken start st Hlen Hstart Hok.
  { simpl. split; [lia | done]. }
  cbn [Slicing.slice_loop].
  destruct (start + clip_ms <=? sound_len)%Z eqn:Efit; [|split; [lia | done]].
  apply Z.leb_le in Efit.
  destruct Hok as (Hsl & Hnd & Hp & Hmono).
  destruct (Ledger.add_hash (faults_at start) (slice_hash start)
              (Some (out_path (S taken))) None None (conn st)) as [c added] eqn:Ea.
  destruct (LedgerQueriesFacts.call_add_hash_spec
              (LedgerQueries.mkAddHash (slice_hash start) (Some (out_path (S taken)))
                 None None (faults_at start)) (conn st) c added Hp Ea)
    as (Hp1 & Hh & _ & Hnew & Hsame & _).
  destruct added; simpl.
  - (* the slice is taken *)
    specialize (Hnew eq_refl).
    destruct (IH (S taken) (start + Z.max slice_stride_ms 1)%Z
                (mkState c ({[S taken]} ∪ processed st)
                   (out st ++ [mkSlice (S taken) start clip_ms (slice_hash start)])))
      as [Hle Hok'].
    + simpl. rewrite length_app. simpl. lia.
    + lia.
    + simpl. split; [|split; [|split]].
      * intros i sl Hi. apply lookup_app_Some in Hi as [Hi|[Hge Hi]].
        -- destruct (Hsl i sl Hi) as (? & ? & ? & ? & ? & ? & ? & ?).
           repeat split; try done; [apply elem_of_union; by right|].
           rewrite Hh. apply elem_of_app. by left.
        -- rewrite Hlen in Hge, Hi.
           destruct (i - taken)%nat as [|k] eqn:Ek; simpl in Hi; [|done].
           assert (i = taken) as -> by lia. simplify_eq. simpl.
           repeat split; try done;
             [apply elem_of_union; left; by apply elem_of_singleton | |].
           ++ intros Hin. apply Hnew. by apply Hmono.
           ++ rewrite Hh. apply elem_of_app. right. by apply list_elem_of_singleton.
      * rewrite fmap_app. simpl. apply NoDup_app. split; [done|].
        split; [|apply NoDup_singleton].
        intros h Hin ->%list_elem_of_singleton. apply Hnew.
        apply list_elem_of_fmap in Hin as (sl & -> & Hsl').
        apply list_elem_of_lookup in Hsl' as [i Hi].
        by destruct (Hsl i sl Hi) as (_ & _ & _ & _ & _ & _ & _ & ?).
      * done.
      * intros h Hin. rewrite Hh. apply elem_of_app. left. by apply Hmono.
    + split; [lia | done].
  - (* the slice is refused: the loop ends *)
    rewrite (Hsame eq_refl) in *.
    assert (Hkeep : forall i, (i < taken)%nat -> S i ∈ processed st ->
              S i ∈ ({[S taken]} ∪ processed st) ∖ ({[S taken]} : gset nat)).
    { intros i Hi Hin. apply elem_of_difference. split; [apply elem_of_union; by right|].
      intros [= ->]%elem_of_singleton. lia. }
    destruct (unlink_raises start); simpl.
    + split; [lia|]. split; [|done].
      intros i sl Hi. destruct (Hsl i sl Hi) as (? & ? & ? & ? & ? & ? & ? & ?).
      repeat split; try done. apply elem_of_union; by right.
    + split; [lia|]. split; [|done].
      intros i sl Hi. destruct (Hsl i sl Hi) as (? & ? & ? & ? & ? & ? & ? & ?).
      repeat split; try done. apply Hkeep; [|done].
      apply lookup_lt_Some in Hi. lia.
Qed.

End Loop.

End SlicingBounds.

(** X11.  The slices [_process_to_candidate_slices] returns.  From a
    ledger with no transaction open, whatever the storage layer and
    [unlink] do: at most [slices_per_video] slices are returned; the [i]-th
    of them (from 1) carries index [i], is the window of [clip_ms] that
    starts [i - 1] strides of [max(slice_stride_ms, 1)] into the sound and
    ends inside it, carries the hash of that window, and has its file in
    the candidates directory; its hash was not in the ledger before and is
    in it afterwards; no two slices returned have the same hash; and every
    hash the ledger held is still there. *)
Theorem sequential_slices_are_new_windows
    (sound_len clip_ms slice_stride_ms : Z) (slice_hash : Z -> string)
    (out_path : nat -> string) (faults_at : Z -> Ledger.Faults)
    (unlink_raises : Z -> bool) (slices_per_video : Z) (st : Slicing.State) :
  Ledger.pending (Slicing.conn st) = None ->
  (length (Slicing.out
             (Slicing._process_to_candidate_slices sound_len clip_ms slice_stride_ms
                slice_hash out_path faults_at unlink_raises slices_per_video st))
   <= Z.to_nat slices_per_video)%nat
  /\ (forall i sl,
        Slicing.out
          (Slicing._process_to_candidate_slices sound_len clip_ms slice_stride_ms
             slice_hash out_path faults_at unlink_raises slices_per_video st) !! i
        = Some sl ->
        Slicing.slice_index sl = S i
        /\ Slicing.slice_start_ms sl = (Z.of_nat i * Z.max slice_stride_ms 1)%Z
        /\ Slicing.slice_duration_ms sl = clip_ms
        /\ Slicing.audio_hash sl = slice_hash (Slicing.slice_start_ms sl)
        /\ (0 <= Slicing.slice_start_ms sl)%Z
        /\ (Slicing.slice_start_ms sl + clip_ms <= sound_len)%Z
        /\ S i ∈ Slicing.processed
                   (Slicing._process_to_candidate_slices sound_len clip_ms
                      slice_stride_ms slice_hash out_path faults_at unlink_raises
                      slices_per_video st)
        /\ Ledger.has_hash (Slicing.conn st) (Slicing.audio_hash sl) = false
        /\ Ledger.has_hash
             (Slicing.conn
                (Slicing._process_to_candidate_slices sound_len clip_ms slice_stride_ms
                   slice_hash out_path faults_at unlink_raises slices_per_video st))
             (Slicing.audio_hash sl) = true)
  /\ NoDup (Slicing.audio_hash <$>
              Slicing.out
                (Slicing._process_to_candidate_slices sound_len clip_ms slice_stride_ms
                   slice_hash out_path faults_at unlink_raises slices_per_video st))
  /\ (forall h,
        Ledger.has_hash (Slicing.conn st) h = true ->
        Ledger.has_hash
          (Slicing.conn
             (Slicing._process_to_candidate_slices sound_len clip_ms slice_stride_ms
                slice_hash out_path faults_at unlink_raises slices_per_video st))
          h = true).
Proof.
  intros Hp. unfold Slicing._process_to_candidate_slices.
  destruct (sound_len <? clip_ms)%Z.
  { simpl. split; [lia|]. split; [done|]. split; [constructor | done]. }
  destruct (SlicingBounds.slice_loop_inv sound_len clip_ms slice_stride_ms slice_hash
              out_path faults_at unlink_raises (Slicing.conn st)
              (Z.to_nat slices_per_video) 0 0
              (Slicing.mkState (Slicing.conn st) (Slicing.processed st) []))
    as (Hlen & Hsl & Hnd & _ & Hmono); [done | done | |].
  { simpl. split; [done|]. split; [constructor|]. done. }
  split; [simpl in Hlen; lia|]. split; [|split; [done|]].
  - intros i sl Hi. destruct (Hsl i sl Hi) as (? & Hs & ? & ? & ? & ? & ? & ?).
    rewrite LedgerQueriesFacts.has_hash_false, LedgerQueriesFacts.has_hash_hashes.
    repeat split; try done. rewrite Hs. apply Z.mul_nonneg_nonneg; lia.
  - intros h. rewrite !LedgerQueriesFacts.has_hash_hashes. apply Hmono.
Qed.

Lemma sequential_slices_are_new_windows_witness :
  Slicing.slice_start_ms <$>
    Slicing.out
      (Slicing._process_to_candidate_slices 7000 2000 2500
         (fun start => if (start =? 0)%Z then "aaa" else if (start =? 2500)%Z then "bbb"
                       else "aaa")
         (fun _ => "clip.wav") (fun _ => Ledger.no_faults) (fun _ => false) 3
         (Slicing.mkState Ledger.fresh_conn ∅ []))
  = [0%Z; 2500%Z]
  /\ NoDup (Slicing.audio_hash <$>
              Slicing.out
                (Slicing._process_to_candidate_slices 7000 2000 2500
                   (fun start => if (start =? 0)%Z then "aaa"
                                 else if (start =? 2500)%Z then "bbb" else "aaa")
                   (fun _ => "clip.wav") (fun _ => Ledger.no_faults) (fun _ => false) 3
                   (Slicing.mkState Ledger.fresh_conn ∅ []))).
Proof.
  split; [vm_compute; reflexivity|].
  apply (sequential_slices_are_new_windows 7000 2000 2500
           (fun start => if (start =? 0)%Z then "aaa"
                         else if (start =? 2500)%Z then "bbb" else "aaa")
           (fun _ => "clip.wav") (fun _ => Ledger.no_faults) (fun _ => false) 3
           (Slicing.mkState Ledger.fresh_conn ∅ [])).
  reflexivity.
Defined.

From Stdlib Require Import Lqa.

(** ** The centred range *)

Module DownloadBounds.
Import Download.
Local Open Scope Q_scope.

Lemma Qminb_le_r (a b : Q) : Qminb a b <= b.
Proof.
  unfold Qminb. destruct (Qle_bool a b) eqn:E; [by apply Qle_bool_iff | apply Qle_refl].
Qed.

Lemma Qminb_cases (a b : Q) : (Qminb a b = a /\ a <= b) \/ (Qminb a b = b /\ b <= a).
Proof.
  unfold Qminb. destruct (Qle_bool a b) eqn:E.
  - left. split; [done | by apply Qle_bool_iff].
  - right. split; [done|]. apply Qlt_le_weak, Qnot_le_lt. intros H.
    apply Qle_bool_iff in H. congruence.
Qed.

Lemma Qmaxb_ge_r (a b : Q) : b <= Qmaxb a b.
Proof.
  unfold Qmaxb. destruct (Qle_bool b a) eqn:E; [by apply Qle_bool_iff | apply Qle_refl].
Qed.

Lemma Qmaxb_l (a b : Q) : b <= a -> Qmaxb a b = a.
Proof. intros H. unfold Qmaxb. by rewrite (proj2 (Qle_bool_iff b a) H). Qed.

Lemma py_int_nonneg (x : Q) : 0 <= x -> py_int x = Qfloor x.
Proof. intros H. unfold py_int. by rewrite (proj2 (Qle_bool_iff 0 x) H). Qed.

Lemma Qltb_true (a b : Q) : Qltb a b = true -> a < b.
Proof.
  unfold Qltb. rewrite negb_true_iff. intros E. apply Qnot_le_lt. intros H.
  apply Qle_bool_iff in H. congruence.
Qed.

Lemma Qfloor_half (c : Z) : Qfloor (inject_Z c / 2) = (c / 2)%Z.
Proof. unfold Qdiv, Qmult, Qinv, inject_Z. simpl. by rewrite Z.mul_1_r. Qed.

Lemma inject_Z_max0 (z : Z) :
  (inject_Z (Z.max 0 z) == 0 /\ (z <= 0)%Z)
  \/ (inject_Z (Z.max 0 z) == inject_Z z /\ (0 < z)%Z).
Proof.
  destruct (Z.max_spec 0 z) as [[H ->]|[H ->]]; [by right | left].
  split; [done | lia].
Qed.

(** The range of a centred fetch: what [start_time] and [end_time] of
    [_download_one] satisfy for a duration [d >= 0] and a length
    [eff >= 0]. *)
Lemma center_range (d eff : Q) :
  0 <= d -> 0 <= eff ->
  let s := Z.max 0 (py_int (d / 2) - py_int (eff / 2)) in
  let e := Qminb d (inject_Z s + eff + 2) in
  (0 <= s)%Z /\ inject_Z s <= d / 2 /\ d / 2 <= e /\ e <= d
  /\ e - inject_Z s <= eff + 2.
Proof.
  intros Hd He s e.
  assert (Hd2 : 0 <= d / 2) by (apply Qle_shift_div_l; [done | lra]).
  assert (He2 : 0 <= eff / 2) by (apply Qle_shift_div_l; [done | lra]).
  pose proof (Qfloor_le (d / 2)) as Hfd1.
  pose proof (Qlt_floor (d / 2)) as Hfd2.
  pose proof (Qfloor_le (eff / 2)) as Hfe1.
  pose proof (Qlt_floor (eff / 2)) as Hfe2.
  assert (Hfe0 : (0 <= Qfloor (eff / 2))%Z).
  { change 0%Z with (Qfloor 0). by apply Qfloor_resp_le. }
  unfold e, s. clear e s. rewrite !py_int_nonneg by done.
  set (fd := Qfloor (d / 2)) in *. set (fe := Qfloor (eff / 2)) in *.
  rewrite inject_Z_plus in Hfd2, Hfe2.
  assert (Hs : inject_Z (Z.max 0 (fd - fe)) <= d / 2
               /\ inject_Z fd - inject_Z fe <= inject_Z (Z.max 0 (fd - fe))).
  { destruct (inject_Z_max0 (fd - fe)) as [[-> Hz]|[-> Hz]].
    - split; [done|]. rewrite Zle_Qle in Hz.
      unfold Z.sub in Hz. rewrite inject_Z_plus, inject_Z_opp in Hz.
      change (inject_Z 0) with 0 in Hz. lra.
    - unfold Z.sub. rewrite inject_Z_plus, inject_Z_opp.
      rewrite Zle_Qle in Hfe0. change (inject_Z 0) with 0 in Hfe0. split; lra. }
  destruct Hs as [Hs1 Hs2].
  split; [apply Z.le_max_l|]. split; [done|].
  pose proof (DownloadFacts.Qminb_le_l d (inject_Z (Z.max 0 (fd - fe)) + eff + 2)) as Hm1.
  pose proof (Qminb_le_r d (inject_Z (Z.max 0 (fd - fe)) + eff + 2)) as Hm2.
  split; [|split; [exact Hm1 | lra]].
  destruct (Qminb_cases d (inject_Z (Z.max 0 (fd - fe)) + eff + 2)) as [[-> _]|[-> _]].
  - assert (d / 2 * 2 == d) by field. lra.
  - change (inject_Z 1) with 1 in *.
    assert (eff / 2 * 2 == eff) by field. lra.
Qed.

(** With a whole number of seconds as the length and a longer video, the
    range is at least that long. *)
Lemma center_range_long (d : Q) (c : Z) :
  0 <= d -> (0 <= c)%Z -> inject_Z c < d ->
  let s := Z.max 0 (py_int (d / 2) - py_int (inject_Z c / 2)) in
  let e := Qminb d (inject_Z s + inject_Z c + 2) in
  inject_Z c <= e - inject_Z s.
Proof.
  intros Hd Hc Hlong s e.
  assert (Hc' : 0 <= inject_Z c) by (rewrite Zle_Qle in Hc; done).
  assert (Hd2 : 0 <= d / 2) by (apply Qle_shift_div_l; [done | lra]).
  assert (He2 : 0 <= inject_Z c / 2) by (apply Qle_shift_div_l; [done | lra]).
  pose proof (Qfloor_le (d / 2)) as Hfd1.
  unfold e, s. clear e s. rewrite !py_int_nonneg by done. rewrite Qfloor_half.
  set (fd := Qfloor (d / 2)) in *.
  assert (Hhalf : (2 * (c / 2) <= c <= 2 * (c / 2) + 1)%Z).
  { pose proof (Z.div_mod c 2). pose proof (Z.mod_pos_bound c 2). lia. }
  assert (Hd' : d / 2 * 2 == d) by field.
  destruct (Qminb_cases d (inject_Z (Z.max 0 (fd - c / 2)) + inject_Z c + 2))
    as [[-> _]|[-> _]]; [|lra].
  destruct (inject_Z_max0 (fd - c / 2)) as [[-> Hz]|[-> Hz]]; [lra|].
  assert (Hz' : (c + (fd - c / 2) <= 2 * fd)%Z) by lia.
  rewrite Zle_Qle in Hz'.
  rewrite inject_Z_plus, inject_Z_mult in Hz'.
  change (inject_Z 2) with 2 in Hz'. lra.
Qed.

End DownloadBounds.

(** X12.  The range of a centred fetch.  Whenever [_download_one] decides
    on a centred fetch (in any download method) for a video of duration
    [d >= 0] and clips of [clip_ms >= 0]: the range starts at or after 0 and
    not after the middle of the video, ends at or after the middle and not
    after the end of the video, and is at most the chunk length plus the
    two seconds of buffer long.  When the method is not [segment] and the
    clip is not longer than [DOWNLOAD_CHUNK_SECONDS], the range is at least
    that many seconds long, hence holds a full clip. *)
Theorem center_range_holds_a_clip
    (env : Download.Env) (d : Q) (clip_ms : Z) (s : Z) (e : Q) (opts : Download.Opts) :
  (0 <= d)%Q -> (0 <= clip_ms)%Z ->
  Download.download_strategy env d clip_ms = Download.Center s e opts ->
  (0 <= s)%Z
  /\ (inject_Z s <= d / 2)%Q
  /\ (d / 2 <= e)%Q
  /\ (e <= d)%Q
  /\ (e - inject_Z s
      <= Download.Qmaxb (inject_Z (Download.DOWNLOAD_CHUNK_SECONDS env))
                        (inject_Z clip_ms / 1000) + 2)%Q
  /\ (Download.DOWNLOAD_METHOD env <> "segment" ->
      (inject_Z clip_ms / 1000 <= inject_Z (Download.DOWNLOAD_CHUNK_SECONDS env))%Q ->
      (inject_Z clip_ms / 1000 <= e - inject_Z s)%Q
      /\ (inject_Z (Download.DOWNLOAD_CHUNK_SECONDS env) <= e - inject_Z s)%Q).
Proof.
  intros Hd Hclip. unfold Download.download_strategy.
  set (clip_seconds := (inject_Z clip_ms / 1000)%Q).
  set (eff := Download.Qmaxb (inject_Z (Download.DOWNLOAD_CHUNK_SECONDS env)) clip_seconds).
  assert (Hcs : (0 <= clip_seconds)%Q).
  { unfold clip_seconds. apply Qle_shift_div_l; [done|].
    rewrite Zle_Qle in Hclip. change (inject_Z 0) with 0%Q in Hclip. lra. }
  assert (Heff : (0 <= eff)%Q).
  { eapply Qle_trans; [exact Hcs | apply DownloadBounds.Qmaxb_ge_r]. }
  destruct (Download.Qnonzero d && Download.Qltb d clip_seconds); [done|].
  destruct (DownloadBounds.center_range d eff Hd Heff) as (H1 & H2 & H3 & H4 & H5).
  destruct (String.eqb (Download.DOWNLOAD_METHOD env) "segment") eqn:Eseg.
  { intros [= <- <- _]. repeat split; try done.
    all: apply String.eqb_eq in Eseg; done. }
  destruct (String.eqb (Download.DOWNLOAD_METHOD env) "aria2c"); [done|].
  destruct (Download.Qnonzero d && Download.Qltb eff d) eqn:Elong; [|done].
  intros [= <- <- _]. split; [done|]. split; [done|]. split; [done|]. split; [done|].
  split; [done|]. intros _ Hchunk.
  apply andb_true_iff in Elong as [_ Hlt%DownloadBounds.Qltb_true].
  assert (Heq : eff = inject_Z (Download.DOWNLOAD_CHUNK_SECONDS env))
    by (by apply DownloadBounds.Qmaxb_l).
  rewrite Heq in *.
  assert (Hc : (0 <= Download.DOWNLOAD_CHUNK_SECONDS env)%Z).
  { rewrite Zle_Qle. change (inject_Z 0) with 0%Q. lra. }
  pose proof (DownloadBounds.center_range_long d (Download.DOWNLOAD_CHUNK_SECONDS env)
                Hd Hc Hlt) as Hlong.
  simpl in Hlong. split; [|exact Hlong].
  eapply Qle_trans; [exact Hchunk | exact Hlong].
Qed.

Lemma center_range_holds_a_clip_witness :
  (inject_Z 2000 / 1000 <= (57 # 1) - inject_Z 45)%Q.
Proof.
  refine (proj1 (proj2 (proj2 (proj2 (proj2 (proj2
    (center_range_holds_a_clip
       (Download.mkEnv "smart" true true "best" "bestaudio/best" true 10) (100 # 1) 2000
       45 (57 # 1)
       (Download.mkOpts "bestaudio/best" false (Some Download.ffmpeg)
          (Some (Download.Range 45 (57 # 1))) true)
       _ _ _))))) _ _)).
  - by vm_compute.
  - lia.
  - vm_compute. reflexivity.
  - by vm_compute.
  - by vm_compute.
Defined.


(** ** Names in a bank *)

Module NamesFacts.
Import Pipeline Pipeline.Names.

Local Abbreviation is_digit :=
  (fun c : ascii => ((48 <=? nat_of_ascii c) && (nat_of_ascii c <=? 57))%nat).

Lemma digit_code (n : Z) : (0 <= n < 10)%Z -> nat_of_ascii (digit n) = (48 + Z.to_nat n)%nat.
Proof. intros H. unfold digit. apply nat_ascii_embedding. lia. Qed.

Lemma read_digit (n : Z) (s : string) (a : Z) :
  (0 <= n < 10)%Z ->
  read_digits (String (digit n) s) a = read_digits s (10 * a + n)%Z.
Proof.
  intros H. cbn [read_digits]. rewrite digit_code by done.
  replace ((48 <=? 48 + Z.to_nat n) && (48 + Z.to_nat n <=? 57))%nat with true.
  - f_equal. lia.
  - symmetry. apply andb_true_iff. split; apply Nat.leb_le; lia.
Qed.

(** Reading the digits written for [n] continues from the number read so
    far, shifted by their count. *)
Lemma read_digits_written (fuel : nat) (n : Z) (acc : string) :
  (0 <= n)%Z -> (Z.to_nat n < fuel)%nat ->
  exists k : Z, (0 < k)%Z /\ (n < k)%Z
    /\ forall a, read_digits (digits fuel n acc) a = read_digits acc (a * k + n)%Z.
Proof.
  revert n acc. induction fuel as [|fuel IH]; intros n acc Hn Hf; [lia|].
  cbn [digits]. destruct (Z.ltb_spec n 10) as [Hlt|Hge].
  - exists 10%Z. split; [lia|]. split; [done|]. intros a.
    rewrite Z.mod_small by lia. rewrite read_digit by lia. f_equal. lia.
  - assert (Hdiv : (0 <= n / 10 < n)%Z).
    { split; [apply Z.div_pos; lia | apply Z.div_lt; lia]. }
    destruct (IH (n / 10)%Z (String (digit (n mod 10)) acc)) as (k & Hk & Hnk & Hread);
      [lia | lia |].
    exists (10 * k)%Z. split; [lia|]. split.
    + pose proof (Z.div_mod n 10). pose proof (Z.mod_pos_bound n 10). lia.
    + intros a. rewrite Hread.
      rewrite read_digit by (apply Z.mod_pos_bound; lia). f_equal.
      pose proof (Z.div_mod n 10). lia.
Qed.

Lemma read_decimal (n : Z) : (0 <= n)%Z -> read_digits (decimal n) 0 = Some n.
Proof.
  intros Hn. unfold decimal.
  destruct (read_digits_written (S (Z.to_nat n)) n "" Hn) as (k & _ & _ & H); [lia|].
  rewrite H. simpl. done.
Qed.

Lemma read_pad2 (n : Z) : (0 <= n)%Z -> read_digits (pad2 n) 0 = Some n.
Proof.
  intros Hn. unfold pad2. rewrite (proj2 (Z.ltb_ge n 0) Hn).
  destruct (n <? 10)%Z; [|by apply read_decimal].
  rewrite StrFacts.app_cons, StrFacts.app_nil.
  change "0"%char with (digit 0). rewrite read_digit by lia. by apply read_decimal.
Qed.

Lemma digit_is_digit (n : Z) : (0 <= n < 10)%Z -> is_digit (digit n) = true.
Proof.
  intros H. cbv beta. rewrite digit_code by done.
  apply andb_true_iff. split; apply Nat.leb_le; lia.
Qed.

Lemma digits_are_digits (fuel : nat) (n : Z) (acc : string) :
  (0 <= n)%Z -> Str.all_chars is_digit acc = true ->
  Str.all_chars is_digit (digits fuel n acc) = true.
Proof.
  revert n acc. induction fuel as [|fuel IH]; intros n acc Hn Hacc; [done|].
  cbn [digits].
  assert (Str.all_chars is_digit (String (digit (n mod 10)) acc) = true) as Hacc'.
  { cbn [Str.all_chars]. rewrite digit_is_digit by (apply Z.mod_pos_bound; lia). done. }
  destruct (n <? 10)%Z; [done|]. apply IH; [apply Z.div_pos; lia | done].
Qed.

Lemma digits_nonempty (fuel : nat) (n : Z) (acc : string) :
  Str.truthy acc = true -> Str.truthy (digits fuel n acc) = true.
Proof.
  revert n acc. induction fuel as [|fuel IH]; intros n acc Hacc; [done|].
  cbn [digits]. destruct (n <? 10)%Z; [done|]. by apply IH.
Qed.

Lemma pad2_digits (n : Z) :
  (0 <= n)%Z -> Str.all_chars is_digit (pad2 n) = true /\ Str.truthy (pad2 n) = true.
Proof.
  intros Hn. unfold pad2, decimal. rewrite (proj2 (Z.ltb_ge n 0) Hn).
  destruct (n <? 10)%Z.
  - rewrite StrFacts.app_cons, StrFacts.app_nil. split; [|done].
    cbn [Str.all_chars]. rewrite digits_are_digits by done. done.
  - split; [by apply digits_are_digits|].
    cbn [digits]. destruct (n <? 10)%Z; [done|]. by apply digits_nonempty.
Qed.

Lemma digits_no_dot (s : string) :
  Str.all_chars is_digit s = true -> Str.has_char "." s = false.
Proof.
  induction s as [|c s IH]; [done|]. cbn [Str.all_chars Str.has_char].
  intros [Hc Hs]%andb_true_iff. rewrite (IH Hs), orb_false_r.
  destruct (Ascii.eqb_spec "."%char c) as [<-|]; [done | done].
Qed.

Lemma stem_wav (s : string) : stem (s +:+ ".wav") = s.
Proof.
  induction s as [|c s IH]; [done|]. rewrite StrFacts.app_cons. cbn [stem].
  rewrite IH, StrFacts.has_char_append.
  replace (Str.has_char "." ".wav") with true by reflexivity.
  by rewrite orb_true_r, andb_false_r.
Qed.

Lemma is_wav_append (s : string) : is_wav (s +:+ ".wav") = true.
Proof.
  unfold is_wav. induction s as [|c s IH]; [done|].
  rewrite StrFacts.app_cons. cbn [Str.ends_with]. rewrite IH.
  by destruct (String.eqb _ _).
Qed.

Lemma bank_file_is_wav (theme : string) (n : Z) : is_wav (bank_file theme n) = true.
Proof.
  unfold bank_file. rewrite <- !StrFacts.append_assoc. apply is_wav_append.
Qed.

Lemma digits_no_underscore (s : string) :
  Str.all_chars is_digit s = true -> Str.has_char "_" s = false.
Proof.
  induction s as [|c s IH]; [done|]. cbn [Str.all_chars Str.has_char].
  intros [Hc Hs]%andb_true_iff. rewrite (IH Hs), orb_false_r.
  destruct (Ascii.eqb_spec "_"%char c) as [<-|]; [done | done].
Qed.

(** *** Reading a name back *)

Lemma remove_from_skip (old a b : string) :
  remove_from (String.length a) old (a +:+ b) = remove_from 0 old b.
Proof.
  induction a as [|c a IH]; [done|]. rewrite StrFacts.app_cons. cbn [String.length].
  destruct b as [|x b].
  - rewrite StrFacts.append_empty. clear IH. simpl.
    induction a as [|y a IH]; [done|]. simpl. exact IH.
  - cbn [remove_from]. exact IH.
Qed.

Lemma remove_all_absent (c : ascii) (old s : string) :
  Str.has_char c old = true -> Str.has_char c s = false -> remove_all old s = s.
Proof.
  intros Hold. unfold remove_all. induction s as [|x s IH]; [done|].
  intros Hs. cbn [remove_from].
  rewrite (StrFacts.strip_prefix_missing_char c old (String x s) Hold Hs).
  rewrite IH; [done|]. simpl in Hs. by apply orb_false_iff in Hs as [_ ?].
Qed.

(** The prefix of a generated name is removed, and nothing else of it. *)
Lemma remove_all_prefix (c x : ascii) (old s : string) :
  Str.has_char c (String x old) = true -> Str.has_char c s = false ->
  remove_all (String x old) (String x old +:+ s) = s.
Proof.
  intros Hold Hs. unfold remove_all. rewrite StrFacts.app_cons. cbn [remove_from].
  rewrite <- StrFacts.app_cons, StrFacts.strip_prefix_append.
  replace (String.length (String x old) - 1)%nat with (String.length old)
    by (simpl; lia).
  rewrite remove_from_skip. by apply (remove_all_absent c).
Qed.

Lemma digit_no_blank (c : ascii) : is_digit c = true -> is_blank c = false.
Proof.
  cbv beta. intros [H1 H2]%andb_true_iff. apply Nat.leb_le in H1, H2.
  unfold is_blank. apply orb_false_iff. split.
  - apply andb_false_iff. right. apply Nat.leb_gt. lia.
  - apply Nat.eqb_neq. lia.
Qed.

Lemma lstrip_digits (s : string) : Str.all_chars is_digit s = true -> lstrip s = s.
Proof.
  destruct s as [|c s]; [done|]. cbn [Str.all_chars lstrip].
  intros [Hc _]%andb_true_iff. by rewrite (digit_no_blank c Hc).
Qed.

Lemma rstrip_digits (s : string) : Str.all_chars is_digit s = true -> rstrip s = s.
Proof.
  induction s as [|c s IH]; [done|]. cbn [Str.all_chars rstrip].
  intros [Hc Hs]%andb_true_iff. rewrite (IH Hs), (digit_no_blank c Hc).
  by destruct s.
Qed.

Lemma read_grouped_digits (s : string) (a : Z) (b : bool) :
  Str.all_chars is_digit s = true -> Str.truthy s = true ->
  read_grouped s a b = read_digits s a.
Proof.
  revert a b. induction s as [|c s IH]; intros a b Hd Ht; [done|].
  cbn [Str.all_chars] in Hd. apply andb_true_iff in Hd as [Hc Hs].
  cbn [read_grouped read_digits]. cbv beta in Hc. rewrite Hc.
  destruct s as [|c' s]; [done|]. by apply IH.
Qed.

Lemma py_int_digits (s : string) :
  Str.all_chars is_digit s = true -> Str.truthy s = true ->
  py_int s = read_digits s 0.
Proof.
  intros Hd Ht. unfold py_int. rewrite lstrip_digits, rstrip_digits by done.
  destruct s as [|c s]; [done|].
  assert (Hc : is_digit c = true).
  { cbn [Str.all_chars] in Hd. by apply andb_true_iff in Hd as [? _]. }
  cbv beta in Hc.
  destruct (Ascii.eqb_spec c "-") as [->|_]; [by vm_compute in Hc|].
  destruct (Ascii.eqb_spec c "+") as [->|_]; [by vm_compute in Hc|].
  by apply read_grouped_digits.
Qed.

(** The number read in a generated name is the number it was generated
    from. *)
Lemma file_number_bank_file (theme : string) (n : Z) :
  (0 <= n)%Z -> file_number theme (bank_file theme n) = Some n.
Proof.
  intros Hn. unfold file_number, bank_file.
  destruct (pad2_digits n Hn) as [Hd Ht].
  rewrite <- (StrFacts.append_assoc theme "_"), StrFacts.strip_prefix_append.
  rewrite is_wav_append. rewrite <- StrFacts.append_assoc, stem_wav.
  assert (Hpre : exists x old, theme +:+ "_" = String x old
                               /\ Str.has_char "_" (String x old) = true).
  { destruct (theme +:+ "_") as [|x old] eqn:E.
    - destruct theme; discriminate.
    - exists x, old. split; [done|]. rewrite <- E, StrFacts.has_char_append.
      by rewrite orb_true_r. }
  destruct Hpre as (x & old & -> & Hold).
  rewrite (remove_all_prefix "_" x old) by (by try apply digits_no_underscore).
  rewrite py_int_digits by done. by apply read_pad2.
Qed.

Lemma bank_file_inj (theme : string) (a b : Z) :
  (0 <= a)%Z -> (0 <= b)%Z -> bank_file theme a = bank_file theme b -> a = b.
Proof.
  intros Ha Hb H. apply (f_equal (file_number theme)) in H.
  rewrite !file_number_bank_file in H by done. by injection H.
Qed.

Lemma strip_prefix_ends_with (suffix lit s rest : string) :
  Str.strip_prefix lit s = Some rest -> Str.ends_with suffix rest = true ->
  Str.ends_with suffix s = true.
Proof.
  revert s. induction lit as [|a lit IH]; intros s; cbn [Str.strip_prefix].
  - by intros [= ->].
  - destruct s as [|b s]; [done|]. destruct (Ascii.eqb a b); [|done].
    intros Hs Hr. cbn [Str.ends_with]. rewrite (IH s Hs Hr).
    by destruct (String.eqb _ _).
Qed.

(** Only names the glob ["*.wav"] selects carry a number. *)
Lemma file_number_is_wav (theme name : string) (k : Z) :
  file_number theme name = Some k -> is_wav name = true.
Proof.
  unfold file_number. destruct (Str.strip_prefix _ _) as [rest|] eqn:E; [|done].
  destruct (is_wav rest) eqn:Ew; [|done]. intros _.
  by apply (strip_prefix_ends_with _ _ _ _ E).
Qed.

(** *** Names for every integer *)

Lemma format_02d_no_dot (n : Z) : Str.has_char "." (BankNames.format_02d n) = false.
Proof.
  unfold BankNames.format_02d. destruct (Z.ltb_spec n 0).
  - rewrite StrFacts.app_cons, StrFacts.app_nil. cbn [Str.has_char].
    rewrite digits_no_dot; [done|]. by apply digits_are_digits; [lia|].
  - apply digits_no_dot. by apply pad2_digits.
Qed.

Lemma format_02d_inj (a b : Z) :
  BankNames.format_02d a = BankNames.format_02d b -> a = b.
Proof.
  unfold BankNames.format_02d.
  destruct (Z.ltb_spec a 0) as [Ha|Ha], (Z.ltb_spec b 0) as [Hb|Hb];
    rewrite ?StrFacts.app_cons, ?StrFacts.app_nil; intros E.
  - injection E as E. apply (f_equal (fun s => read_digits s 0)) in E.
    rewrite !read_decimal in E by lia. injection E. lia.
  - apply (f_equal (Str.all_chars is_digit)) in E.
    rewrite (proj1 (pad2_digits b Hb)) in E. done.
  - apply (f_equal (Str.all_chars is_digit)) in E.
    rewrite (proj1 (pad2_digits a Ha)) in E. done.
  - apply (f_equal (fun s => read_digits s 0)) in E.
    rewrite !read_pad2 in E by done. by injection E.
Qed.

Lemma bank_file_all_inj (theme : string) (a b : Z) :
  BankNames.bank_file theme a = BankNames.bank_file theme b -> a = b.
Proof.
  unfold BankNames.bank_file. rewrite <- !(StrFacts.append_assoc theme "_"). intros E.
  apply (f_equal (Str.strip_prefix (theme +:+ "_"))) in E.
  rewrite !StrFacts.strip_prefix_append in E. injection E as E.
  apply (f_equal stem) in E.
  rewrite !stem_wav in E. by apply format_02d_inj.
Qed.

Lemma bank_file_all_is_wav (theme : string) (n : Z) :
  is_wav (BankNames.bank_file theme n) = true.
Proof.
  unfold BankNames.bank_file. rewrite <- !StrFacts.append_assoc. apply is_wav_append.
Qed.

(** The two spellings of the scheme agree. *)
Lemma bank_file_all_same (theme : string) (n : Z) :
  BankNames.bank_file theme n = bank_file theme n.
Proof.
  unfold BankNames.bank_file, BankNames.format_02d, bank_file, pad2.
  by destruct (n <? 0)%Z.
Qed.

End NamesFacts.


(** ** Moves into a bank *)

Module PipelineMoves.
Import Pipeline.

Lemma wav_count_insert_new (x : string) (d : gset string) :
  x ∉ d -> is_wav x = true -> wav_count ({[ x ]} ∪ d) = (wav_count d + 1)%Z.
Proof.
  intros Hx Hw. unfold wav_count. rewrite filter_union_L by apply _.
  rewrite filter_singleton_L by apply _.
  rewrite decide_True by (by apply Is_true_true_2).
  rewrite size_union; [rewrite size_singleton; lia|].
  apply elem_of_disjoint. intros y ->%elem_of_singleton [_ Hy]%elem_of_filter. done.
Qed.

Lemma foldr_max_ge (k : Z) (ks : list Z) :
  (k <= foldr Z.max k ks)%Z /\ (forall x, x ∈ ks -> x <= foldr Z.max k ks)%Z.
Proof.
  induction ks as [|a ks [IH1 IH2]]; simpl.
  - split; [lia|]. by intros x ?%elem_of_nil.
  - split; [lia|]. intros x [->|Hin]%elem_of_cons; [lia|].
    specialize (IH2 x Hin). lia.
Qed.

Lemma foldr_max_in (k : Z) (ks : list Z) : foldr Z.max k ks ∈ k :: ks.
Proof.
  induction ks as [|a ks IH]; simpl; [by left|].
  destruct (Z.max_spec a (foldr Z.max k ks)) as [[_ ->]|[_ ->]].
  - apply elem_of_cons in IH as [->|IH]; [by left | by do 2 right].
  - right. by left.
Qed.

Section Numbers.
Variable bank_file : string -> Z -> string.
Variable file_number : string -> string -> option Z.
Variable theme : string.

Local Abbreviation next_num := (Pipeline.next_num file_number theme).
Local Abbreviation next_free := (Pipeline.next_free bank_file).

(** The numbers read in a directory. *)
Lemma number_read (d : gset string) (k : Z) :
  k ∈ omap (file_number theme) (elements d)
  <-> exists name, name ∈ d /\ file_number theme name = Some k.
Proof.
  rewrite list_elem_of_omap. split; intros (name & H1 & H2); exists name.
  - split; [by apply elem_of_elements | done].
  - split; [by apply elem_of_elements | done].
Qed.

(** [next_num] is above every number read. *)
Lemma next_num_above (d : gset string) (name : string) (k : Z) :
  name ∈ d -> file_number theme name = Some k -> (k < next_num d)%Z.
Proof.
  intros Hin Hk. assert (Hr : k ∈ omap (file_number theme) (elements d)).
  { apply number_read. by exists name. }
  unfold Pipeline.next_num. destruct (omap _ _) as [|a ks]; [by apply elem_of_nil in Hr|].
  destruct (foldr_max_ge a ks) as [H1 H2].
  apply elem_of_cons in Hr as [->|Hr]; [lia|]. specialize (H2 k Hr). lia.
Qed.

(** It is 1 when no number is read, else one more than a number read. *)
Lemma next_num_cases (d : gset string) :
  (next_num d = 1%Z /\ forall name, name ∈ d -> file_number theme name = None)
  \/ exists name, name ∈ d /\ file_number theme name = Some (next_num d - 1)%Z.
Proof.
  unfold Pipeline.next_num.
  destruct (omap (file_number theme) (elements d)) as [|a ks] eqn:E.
  - left. split; [done|]. intros name Hin.
    destruct (file_number theme name) as [k|] eqn:Ek; [|done].
    assert (Hr : k ∈ omap (file_number theme) (elements d)).
    { apply number_read. by exists name. }
    rewrite E in Hr. by apply elem_of_nil in Hr.
  - right. apply number_read. rewrite E.
    replace (foldr Z.max a ks + 1 - 1)%Z with (foldr Z.max a ks) by lia.
    apply foldr_max_in.
Qed.

Lemma next_free_ge (fuel : nat) (n : Z) (d : gset string) :
  (n <= next_free fuel theme n d)%Z.
Proof.
  revert n. induction fuel as [|fuel IH]; intros n; simpl; [lia|].
  case_bool_decide; [|lia]. specialize (IH (n + 1)%Z). lia.
Qed.

Lemma next_free_stays (fuel : nat) (n : Z) (d : gset string) :
  (bank_file theme n ∉ d) -> next_free (S fuel) theme n d = n.
Proof. intros H. simpl. by rewrite bool_decide_eq_false_2. Qed.

End Numbers.

Section Runs.
Variable bank_file : string -> Z -> string.
Variable file_number : string -> string -> option Z.
Variable cfg : Config.

(** A property of the state that candidates arriving and single
    assignments keep holds along a whole run. *)
Section Invariant.
Variable P : State -> Prop.
Hypothesis P_arrived : forall st names,
  P st ->
  P (mkState (results st) (retries st)
       (mkFiles (banks (files st)) (names ∪ candidates (files st)))).
Hypothesis P_assign : forall target_theme cand st,
  P st -> P (assign_candidate bank_file file_number cfg target_theme cand st).1.

Lemma assign_all_keeps (target_theme : string) (cands : list Candidate) (st : State) :
  P st -> P (assign_all bank_file file_number cfg target_theme cands st).1.
Proof.
  revert st. induction cands as [|cand cands IH]; intros st HP; [done|].
  cbn [assign_all]. pose proof (P_assign target_theme cand st HP) as Hnext.
  destruct (assign_candidate _ _ _ _ _ _) as [st' []]; simpl in *; auto.
Qed.

Lemma fill_theme_keeps (target_theme : string) (n : Z) (bs : list Batch)
    (idx dl : Z) (st : State) :
  P st -> P (fill_theme bank_file file_number cfg target_theme n bs idx dl st).1.
Proof.
  revert idx dl st. induction bs as [|b bs IH]; intros idx dl st HP.
  - simpl. by destruct (_ <=? _)%Z.
  - cbn [fill_theme].
    destruct (_ <=? _)%Z; [done|]. destruct (stop_at_top b); [done|].
    destruct (negb _ && _); [done|].
    destruct (n <=? (if (n <=? idx)%Z then 0%Z else idx))%Z; [done|].
    pose proof (P_arrived st (list_to_set (cand_path <$> downloaded b)) HP) as Harr.
    destruct (max_per_search cfg <=? dl)%Z.
    all: destruct (downloaded b) as [|cand cands] eqn:Ed.
    all: try (destruct (n <=? _)%Z; [done|]; by apply IH).
    all: match goal with
         | |- context [assign_all ?a ?b ?c ?d ?e ?f] =>
             pose proof (assign_all_keeps d e f Harr) as Hall;
             destruct (assign_all a b c d e f) as [st' []]
         end; simpl in *; [done|].
    all: by apply IH.
Qed.

Lemma run_themes_keeps (themes : list string) (envs : list ThemeEnv) (st : State) :
  P st -> P (run_themes bank_file file_number cfg themes envs st).1.
Proof.
  revert envs st. induction themes as [|theme_name themes IH]; intros envs st HP; [done|].
  destruct envs as [|env envs]; [done|]. cbn [run_themes].
  assert (Hnext : P (run_theme bank_file file_number cfg theme_name env st).1).
  { unfold run_theme. destruct (_ <=? _)%Z; [done|].
    destruct (stop_at_theme env); [done|]. by apply fill_theme_keeps. }
  destruct (run_theme _ _ _ _ _ _) as [st' []]; simpl in *; auto.
Qed.

End Invariant.

End Runs.

End PipelineMoves.


(** ** What the banks hold along a run *)

Module BankFacts.
Import Pipeline Banks.

Lemma count_wavs (t : string) (fs : Files) :
  _count_in_bank t fs = Z.of_nat (size (wavs (bank t fs))).
Proof. apply PipelineFacts.count_unfold. Qed.

Lemma wavs_insert_other (x : string) (d : gset string) :
  is_wav x = false -> wavs ({[ x ]} ∪ d) = wavs d.
Proof.
  intros Hx. unfold wavs. rewrite filter_union_L by apply _.
  rewrite filter_singleton_False_L;
    [by rewrite union_empty_l_L | apply _ | intros H; by rewrite Hx in H].
Qed.

Lemma wavs_insert (x : string) (d : gset string) :
  is_wav x = true -> wavs ({[ x ]} ∪ d) = {[ x ]} ∪ wavs d.
Proof.
  intros Hx. unfold wavs. rewrite filter_union_L by apply _.
  rewrite filter_singleton_L by apply _.
  by rewrite decide_True by (by apply Is_true_true_2).
Qed.

Lemma elem_of_wavs (x : string) (d : gset string) :
  x ∈ wavs d <-> x ∈ d /\ is_wav x = true.
Proof.
  unfold wavs. rewrite elem_of_filter. split; intros [H1 H2]; split; try done.
  - by apply Is_true_true_1.
  - by apply Is_true_true_2.
Qed.

Lemma bank_insert (t theme : string) (d : gset string) (fs : Files) (c : gset string) :
  bank t (mkFiles (<[theme := d]> (banks fs)) c)
  = if decide (theme = t) then d else bank t fs.
Proof.
  unfold bank. simpl. destruct (decide (theme = t)) as [->|Hne].
  - by rewrite lookup_insert_eq.
  - by rewrite lookup_insert_ne.
Qed.

Section Step.
Variable bank_file : string -> Z -> string.
Variable file_number : string -> string -> option Z.
Variable cfg : Config.
Variable t : string.

(** The name [_move_to_theme] would give in the bank of [t]. *)
Local Abbreviation next_name := (fun fs : Files =>
  bank_file t (next_free bank_file (S (size (bank t fs))) t
                 (next_num file_number t (bank t fs)) (bank t fs))).

Lemma metadata_wavs (cand : Candidate) (theme final_path : string) (fs : Files) :
  wavs (bank t (move_metadata cand theme final_path fs)) = wavs (bank t fs).
Proof.
  unfold move_metadata. case_bool_decide; [|done].
  destruct (metadata_move cand); try done; rewrite bank_insert;
    (destruct (decide (theme = t)) as [->|]; [|done]);
    apply wavs_insert_other, PipelineFacts.sidecar_is_no_wav.
Qed.

(** One candidate: either the counter of [t] and the audio files of its
    bank stay, or the counter goes up by one and the bank gains the next
    name. *)
Lemma assign_candidate_bank (target_theme : string) (cand : Candidate) (st : State) :
  let st' := (assign_candidate bank_file file_number cfg target_theme cand st).1 in
  (results st' !!! t = results st !!! t
   /\ wavs (bank t (files st')) = wavs (bank t (files st)))
  \/ (results st' !!! t = (results st !!! t + 1)%Z
      /\ wavs (bank t (files st'))
         = wavs ({[ next_name (files st) ]} ∪ bank t (files st))).
Proof.
  unfold assign_candidate. destruct (stop_requested cand); [by left|].
  destruct (_assign_with_scoring _ _ _ _ _) as [[best|] score]; [|by left].
  unfold _move_to_theme. case_bool_decide; simpl.
  - rewrite metadata_wavs, bank_insert.
    destruct (decide (best = t)) as [->|Hne].
    + right. split; [apply PipelineFacts.incr_same | done].
    + left. split; [by apply PipelineFacts.incr_other_total | done].
  - left. split; [done|]. rewrite bank_insert. by destruct (decide (best = t)) as [->|].
Qed.

End Step.

Section Counting.
Variable bank_file : string -> Z -> string.
Variable file_number : string -> string -> option Z.
Variable cfg : Config.
Variable t : string.
Hypothesis bank_file_inj : forall a b, bank_file t a = bank_file t b -> a = b.
Hypothesis bank_file_wav : forall n, is_wav (bank_file t n) = true.

Lemma assign_candidate_counts (target_theme : string) (cand : Candidate) (st : State) :
  results st !!! t = _count_in_bank t (files st) ->
  results (assign_candidate bank_file file_number cfg target_theme cand st).1 !!! t
  = _count_in_bank t (files (assign_candidate bank_file file_number cfg target_theme cand st).1).
Proof.
  intros H. rewrite count_wavs in *.
  destruct (assign_candidate_bank bank_file file_number cfg t target_theme cand st)
    as [[-> ->]|[-> ->]]; [done|].
  rewrite wavs_insert by apply bank_file_wav.
  rewrite size_union, size_singleton; [lia|].
  apply elem_of_disjoint. intros y ->%elem_of_singleton [Hy _]%elem_of_wavs.
  revert Hy. by apply PipelineFacts.next_free_is_free.
Qed.

End Counting.

Section Consecutive.
Variable bank_file : string -> Z -> string.
Variable file_number : string -> string -> option Z.
Variable cfg : Config.
Variable t : string.
Hypothesis reads_back : forall n, (1 <= n)%Z -> file_number t (bank_file t n) = Some n.
Hypothesis only_wav : forall name k, file_number t name = Some k -> is_wav name = true.

Lemma numbered_next (k : Z) (d : gset string) :
  (0 <= k)%Z -> numbered bank_file t k d ->
  next_num file_number t d = (k + 1)%Z /\ (bank_file t (k + 1) ∉ d).
Proof.
  intros Hk Hd.
  assert (Hnum : forall name k', name ∈ d -> file_number t name = Some k' ->
                                 (1 <= k' <= k)%Z).
  { intros name k' Hin Hk'. destruct (proj1 (Hd name)) as (i & Hi & ->).
    { apply elem_of_wavs. split; [done | by apply (only_wav _ k')]. }
    rewrite reads_back in Hk' by lia. injection Hk' as <-. done. }
  assert (Hlast : (1 <= k)%Z -> bank_file t k ∈ d /\ file_number t (bank_file t k) = Some k).
  { intros H1. split; [|by apply reads_back].
    apply (elem_of_wavs _ d), Hd. exists k. split; [lia | done]. }
  pose proof (PipelineMoves.next_num_above file_number t d) as Habove.
  assert (Hnext : next_num file_number t d = (k + 1)%Z).
  { destruct (PipelineMoves.next_num_cases file_number t d)
      as [[H1 Hnone]|(name & Hin & Hn)].
    - destruct (decide (1 <= k)%Z) as [Hge|]; [|lia].
      destruct (Hlast Hge) as [Hin Hr]. rewrite (Hnone _ Hin) in Hr. done.
    - pose proof (Hnum _ _ Hin Hn) as Hrange.
      destruct (Hlast ltac:(lia)) as [Hin' Hr]. specialize (Habove _ _ Hin' Hr). lia. }
  split; [done|]. intros Hin.
  specialize (Habove _ _ Hin (reads_back (k + 1)%Z ltac:(lia))). lia.
Qed.

Lemma numbered_grow (k : Z) (d : gset string) :
  (0 <= k)%Z -> numbered bank_file t k d ->
  numbered bank_file t (k + 1) ({[ bank_file t (k + 1) ]} ∪ d).
Proof.
  intros Hk Hd name.
  assert (Hw : is_wav (bank_file t (k + 1)) = true).
  { apply (only_wav _ (k + 1)%Z), reads_back. lia. }
  rewrite wavs_insert by done. rewrite elem_of_union, elem_of_singleton, (Hd name).
  split.
  - intros [->|(i & Hi & ->)]; [exists (k + 1)%Z | exists i]; (split; [lia | done]).
  - intros (i & Hi & ->). destruct (decide (i = k + 1)%Z) as [->|]; [by left|].
    right. exists i. split; [lia | done].
Qed.

Lemma assign_candidate_numbered (target_theme : string) (cand : Candidate) (st : State) :
  (0 <= results st !!! t)%Z /\ numbered bank_file t (results st !!! t) (bank t (files st)) ->
  let st' := (assign_candidate bank_file file_number cfg target_theme cand st).1 in
  (0 <= results st' !!! t)%Z /\ numbered bank_file t (results st' !!! t) (bank t (files st')).
Proof.
  intros [Hk Hd] st'.
  destruct (assign_candidate_bank bank_file file_number cfg t target_theme cand st)
    as [[Hr Hw]|[Hr Hw]]; fold st' in Hr, Hw; rewrite Hr.
  - split; [done|]. intros name. rewrite Hw. apply Hd.
  - split; [lia|]. intros name. rewrite Hw.
    destruct (numbered_next _ _ Hk Hd) as [Hn Hfree].
    rewrite Hn, PipelineMoves.next_free_stays by done.
    by apply numbered_grow.
Qed.

(** A directory numbered to [k] holds [k] audio files. *)
Lemma numbered_size (n : nat) (W : gset string) :
  (forall name, name ∈ W <-> exists i, (1 <= i <= Z.of_nat n)%Z /\ name = bank_file t i) ->
  size W = n.
Proof.
  revert W. induction n as [|n IH]; intros W HW.
  - apply size_empty_iff, elem_of_equiv_empty. intros name (i & Hi & _)%HW. lia.
  - assert (Hin : bank_file t (Z.of_nat (S n)) ∈ W).
    { apply HW. exists (Z.of_nat (S n)). split; [lia | done]. }
    assert (Hrest : size (W ∖ {[ bank_file t (Z.of_nat (S n)) ]}) = n).
    { apply IH. intros name. rewrite elem_of_difference, not_elem_of_singleton, HW. split.
      - intros [(i & Hi & ->) Hne]. exists i. split; [|done].
        destruct (decide (i = Z.of_nat (S n))) as [->|]; [done | lia].
      - intros (i & Hi & ->). split; [exists i; split; [lia | done]|].
        intros E. apply (f_equal (file_number t)) in E.
        rewrite !reads_back in E by lia. injection E. lia. }
    rewrite size_difference in Hrest by (by apply singleton_subseteq_l).
    rewrite size_singleton in Hrest.
    assert (size W <> 0)%nat; [|lia].
    intros H0%size_empty_iff. rewrite H0 in Hin. by apply not_elem_of_empty in Hin.
Qed.

Lemma numbered_count (k : Z) (fs : Files) :
  (0 <= k)%Z -> numbered bank_file t k (bank t fs) -> _count_in_bank t fs = k.
Proof.
  intros Hk Hd. rewrite count_wavs.
  rewrite (numbered_size (Z.to_nat k) (wavs (bank t fs))); [lia|].
  intros name. rewrite (Hd name). by rewrite Z2Nat.id.
Qed.

End Consecutive.

Section Growth.
Variable bank_file : string -> Z -> string.
Variable file_number : string -> string -> option Z.
Variable cfg : Config.
Variable t name : string.

Lemma metadata_keeps (cand : Candidate) (theme final_path : string) (fs : Files) :
  name ∈ bank t fs -> name ∈ bank t (move_metadata cand theme final_path fs).
Proof.
  intros H. unfold move_metadata. case_bool_decide; [|done].
  destruct (metadata_move cand); try done; rewrite bank_insert;
    (destruct (decide (theme = t)) as [->|]; [|done]);
    apply elem_of_union; by right.
Qed.

(** No assignment takes a file out of a bank. *)
Lemma assign_candidate_keeps (target_theme : string) (cand : Candidate) (st : State) :
  name ∈ bank t (files st) ->
  name ∈ bank t (files (assign_candidate bank_file file_number cfg target_theme cand st).1).
Proof.
  intros H. unfold assign_candidate. destruct (stop_requested cand); [done|].
  destruct (_assign_with_scoring _ _ _ _ _) as [[best|] score]; [|done].
  unfold _move_to_theme. case_bool_decide; simpl.
  - apply metadata_keeps. rewrite bank_insert.
    destruct (decide (best = t)) as [->|]; [|done]. apply elem_of_union; by right.
  - rewrite bank_insert. by destruct (decide (best = t)) as [->|].
Qed.

End Growth.

End BankFacts.


(** X13.  [_move_to_theme] never overwrites.  Names in a bank are
    generated from numbers one-to-one, as [f"{theme}_{n:02d}.wav"] is.
    Whatever files the bank holds and whatever numbers are read in their
    names, moving a candidate that exists succeeds and gives it a name
    [bank_file theme n] that no file of the bank had; [n] is greater than
    every number read in the bank; the bank afterwards holds what it held
    and the new name, the candidate has left the candidates directory, and
    no other bank has changed.  When the new name is an audio file's, the
    count of the bank goes up by exactly one. *)
Theorem move_to_theme_never_overwrites
    (bank_file : string -> Z -> string) (file_number : string -> string -> option Z)
    (path theme : string) (fs : Pipeline.Files) :
  (forall a b, bank_file theme a = bank_file theme b -> a = b) ->
  path ∈ Pipeline.candidates fs ->
  exists n,
    let d := default ∅ (Pipeline.banks fs !! theme) in
    let out := bank_file theme n in
    let fs' := (Pipeline._move_to_theme bank_file file_number path theme fs).1 in
    (Pipeline._move_to_theme bank_file file_number path theme fs).2 = Some out
    /\ (out ∉ d)
    /\ (forall name k, name ∈ d -> file_number theme name = Some k -> (k < n)%Z)
    /\ Pipeline.banks fs' !! theme = Some ({[ out ]} ∪ d)
    /\ (forall t, t <> theme -> Pipeline.banks fs' !! t = Pipeline.banks fs !! t)
    /\ Pipeline.candidates fs' = Pipeline.candidates fs ∖ {[ path ]}
    /\ (Pipeline.is_wav out = true ->
        Pipeline._count_in_bank theme fs' = (Pipeline._count_in_bank theme fs + 1)%Z).
Proof.
  intros Hinj Hpath.
  exists (Pipeline.next_free bank_file (S (size (default ∅ (Pipeline.banks fs !! theme))))
            theme (Pipeline.next_num file_number theme
                     (default ∅ (Pipeline.banks fs !! theme)))
            (default ∅ (Pipeline.banks fs !! theme))).
  intros d out fs'.
  assert (Hfree : out ∉ d) by (by apply PipelineFacts.next_free_is_free).
  assert (Hfs : Pipeline._move_to_theme bank_file file_number path theme fs
                = (Pipeline.mkFiles (<[theme := {[ out ]} ∪ d]> (Pipeline.banks fs))
                     (Pipeline.candidates fs ∖ {[ path ]}), Some out)).
  { unfold Pipeline._move_to_theme. by rewrite bool_decide_eq_true_2. }
  subst fs'. rewrite Hfs. simpl.
  split; [done|]. split; [done|]. split.
  { intros name k Hin Hk.
    pose proof (PipelineMoves.next_num_above file_number theme d name k Hin Hk).
    pose proof (PipelineMoves.next_free_ge bank_file theme (S (size d))
                  (Pipeline.next_num file_number theme d) d).
    subst out d. simpl in *. lia. }
  split; [by rewrite lookup_insert_eq|].
  split; [intros t Ht; by rewrite lookup_insert_ne|].
  split; [done|].
  intros Hw. rewrite !PipelineFacts.count_unfold. simpl. rewrite lookup_insert_eq. simpl.
  by apply PipelineMoves.wav_count_insert_new.
Qed.

Lemma move_to_theme_never_overwrites_witness :
  let fs := Pipeline.mkFiles {[ "Soft" := {[ "Soft_01.wav"; "Soft_02.wav"; "Soft_02.json" ]} ]}
              {[ "a_s1.wav" ]} in
  "a_s1.wav" ∈ Pipeline.candidates fs
  /\ (Pipeline._move_to_theme BankNames.bank_file Pipeline.Names.file_number
        "a_s1.wav" "Soft" fs).2 = Some "Soft_03.wav"
  /\ exists n,
       (Pipeline._move_to_theme BankNames.bank_file Pipeline.Names.file_number
          "a_s1.wav" "Soft" fs).2 = Some (BankNames.bank_file "Soft" n)
       /\ (BankNames.bank_file "Soft" n ∉ default ∅ (Pipeline.banks fs !! "Soft")).
Proof.
  intros fs.
  assert (Hin : "a_s1.wav" ∈ Pipeline.candidates fs)
    by (apply (bool_decide_unpack _); vm_compute; exact I).
  split; [exact Hin|]. split; [vm_compute; reflexivity|].
  destruct (move_to_theme_never_overwrites BankNames.bank_file Pipeline.Names.file_number
              "a_s1.wav" "Soft" fs (NamesFacts.bank_file_all_inj "Soft") Hin)
    as (n & Hout & Hfree & _).
  exists n. split; [exact Hout | exact Hfree].
Defined.

(** X14.  The number [_move_to_theme] gives.  The number read in a
    generated name is the number it was generated from, and no name of the
    bank reads as a negative number.  Then [while out_path.exists()] is
    never entered: the candidate is named after [next_num], which is at
    least 1 and greater than every number read in the bank, and is either 1
    with no number read in the bank at all, or one more than a number read
    in the bank. *)
Theorem move_to_theme_takes_next_number
    (bank_file : string -> Z -> string) (file_number : string -> string -> option Z)
    (path theme : string) (fs : Pipeline.Files) :
  (forall n, (1 <= n)%Z -> file_number theme (bank_file theme n) = Some n) ->
  (forall name k, name ∈ default ∅ (Pipeline.banks fs !! theme) ->
                  file_number theme name = Some k -> (0 <= k)%Z) ->
  path ∈ Pipeline.candidates fs ->
  let d := default ∅ (Pipeline.banks fs !! theme) in
  let n := Pipeline.next_num file_number theme d in
  (Pipeline._move_to_theme bank_file file_number path theme fs).2
  = Some (bank_file theme n)
  /\ (bank_file theme n ∉ d)
  /\ (1 <= n)%Z
  /\ (forall name k, name ∈ d -> file_number theme name = Some k -> (k < n)%Z)
  /\ ((n = 1%Z /\ forall name, name ∈ d -> file_number theme name = None)
      \/ exists name, name ∈ d /\ file_number theme name = Some (n - 1)%Z).
Proof.
  intros Hread Hnn Hpath d n.
  pose proof (PipelineMoves.next_num_above file_number theme d) as Habove.
  pose proof (PipelineMoves.next_num_cases file_number theme d) as Hcases.
  fold n in Habove, Hcases.
  assert (Hpos : (1 <= n)%Z).
  { destruct Hcases as [[-> _]|(name & Hin & Hk)]; [lia|].
    specialize (Hnn name _ Hin Hk). lia. }
  assert (Hfree : bank_file theme n ∉ d).
  { intros Hin. specialize (Habove _ n Hin (Hread n Hpos)). lia. }
  split; [|done].
  unfold Pipeline._move_to_theme. rewrite bool_decide_eq_true_2 by done. simpl.
  fold d. fold n. by rewrite bool_decide_eq_false_2.
Qed.

Lemma move_to_theme_takes_next_number_witness :
  let fs := Pipeline.mkFiles {[ "Soft" := {[ "Soft_01.wav"; "Soft_07.wav"; "Soft_x.wav" ]} ]}
              {[ "a_s1.wav" ]} in
  "a_s1.wav" ∈ Pipeline.candidates fs
  /\ Pipeline.next_num Pipeline.Names.file_number "Soft"
       (default ∅ (Pipeline.banks fs !! "Soft")) = 8%Z
  /\ (Pipeline._move_to_theme Pipeline.Names.bank_file Pipeline.Names.file_number
        "a_s1.wav" "Soft" fs).2
     = Some (Pipeline.Names.bank_file "Soft"
               (Pipeline.next_num Pipeline.Names.file_number "Soft"
                  (default ∅ (Pipeline.banks fs !! "Soft")))).
Proof.
  intros fs.
  assert (Hin : "a_s1.wav" ∈ Pipeline.candidates fs)
    by (apply (bool_decide_unpack _); vm_compute; exact I).
  split; [exact Hin|]. split; [vm_compute; reflexivity|].
  apply (move_to_theme_takes_next_number Pipeline.Names.bank_file
           Pipeline.Names.file_number "a_s1.wav" "Soft" fs).
  - intros n Hn. apply NamesFacts.file_number_bank_file. lia.
  - intros name k Hname Hk. unfold fs in Hname. simpl in Hname.
    rewrite lookup_singleton_eq in Hname. simpl in Hname.
    apply elem_of_union in Hname as [Hname|Hname];
      [apply elem_of_union in Hname as [Hname|Hname]|];
      apply elem_of_singleton in Hname; subst name;
      vm_compute in Hk; try discriminate; injection Hk as <-; lia.
  - exact Hin.
Defined.


(** X15.  The counters follow the disk.  Take a configured theme whose
    names are generated one-to-one from numbers and match ["*.wav"].  Then
    whatever the environment answers (searches, scores, stops, failures of
    moves), at the end of what has run of [run_pipeline] the theme's
    [results] counter is the number of audio files in its bank, and every
    file its bank held at the start is still there. *)
Theorem counters_follow_the_disk
    (bank_file : string -> Z -> string) (file_number : string -> string -> option Z)
    (cfg : Pipeline.Config) (fs : Pipeline.Files) (envs : list Pipeline.ThemeEnv)
    (t : string) :
  (forall a b, bank_file t a = bank_file t b -> a = b) ->
  (forall n, Pipeline.is_wav (bank_file t n) = true) ->
  t ∈ Pipeline.theme_names cfg ->
  Pipeline.results (Pipeline.run_pipeline bank_file file_number cfg fs envs).1 !!! t
  = Pipeline._count_in_bank t
      (Pipeline.files (Pipeline.run_pipeline bank_file file_number cfg fs envs).1)
  /\ (forall name,
        name ∈ Banks.bank t fs ->
        name ∈ Banks.bank t
                 (Pipeline.files
                    (Pipeline.run_pipeline bank_file file_number cfg fs envs).1)).
Proof.
  intros Hinj Hwav Hin. unfold Pipeline.run_pipeline. split.
  - apply (PipelineMoves.run_themes_keeps bank_file file_number cfg
             (fun st => Pipeline.results st !!! t
                        = Pipeline._count_in_bank t (Pipeline.files st))).
    + done.
    + intros target_theme cand st. by apply BankFacts.assign_candidate_counts.
    + apply lookup_total_correct.
      by apply (PipelineFacts.initial_lookup (fun t => Pipeline._count_in_bank t fs)).
  - intros name Hname.
    apply (PipelineMoves.run_themes_keeps bank_file file_number cfg
             (fun st => name ∈ Banks.bank t (Pipeline.files st))).
    + done.
    + intros target_theme cand st. apply BankFacts.assign_candidate_keeps.
    + done.
Qed.

Lemma counters_follow_the_disk_witness :
  let st := (Pipeline.run_pipeline BankNames.bank_file Pipeline.Names.file_number
               Scenario.cfg Scenario.soft_full Scenario.crossing).1 in
  "Soft" ∈ Pipeline.theme_names Scenario.cfg
  /\ Pipeline.results st !!! "Soft" = 3%Z
  /\ Pipeline.results st !!! "Soft" = Pipeline._count_in_bank "Soft" (Pipeline.files st)
  /\ "Soft_01.wav" ∈ Banks.bank "Soft" (Pipeline.files st).
Proof.
  intros st.
  assert (Hin : "Soft" ∈ Pipeline.theme_names Scenario.cfg) by (by left).
  destruct (counters_follow_the_disk BankNames.bank_file Pipeline.Names.file_number
              Scenario.cfg Scenario.soft_full Scenario.crossing "Soft"
              (NamesFacts.bank_file_all_inj "Soft")
              (NamesFacts.bank_file_all_is_wav "Soft") Hin) as [Hc Hk].
  split; [exact Hin|]. split; [vm_compute; reflexivity|]. split; [exact Hc|].
  apply Hk. apply (bool_decide_unpack _). vm_compute. exact I.
Defined.

(** X16.  Banks are numbered without gaps.  Take a configured theme whose
    generated names read back as their number (from 1 on) and where only
    names matching ["*.wav"] carry a number.  If, when the run starts, the
    audio files of its bank are those numbered 1 to [k] (none, for a new
    session), then at the end of what has run of [run_pipeline] they are
    those numbered 1 to the theme's [results] counter, which is at least
    [k]: no number is skipped and none is reused. *)
Theorem banks_are_numbered_without_gaps
    (bank_file : string -> Z -> string) (file_number : string -> string -> option Z)
    (cfg : Pipeline.Config) (fs : Pipeline.Files) (envs : list Pipeline.ThemeEnv)
    (t : string) (k : Z) :
  (forall n, (1 <= n)%Z -> file_number t (bank_file t n) = Some n) ->
  (forall name n, file_number t name = Some n -> Pipeline.is_wav name = true) ->
  t ∈ Pipeline.theme_names cfg ->
  (0 <= k)%Z ->
  Banks.numbered bank_file t k (Banks.bank t fs) ->
  let st := (Pipeline.run_pipeline bank_file file_number cfg fs envs).1 in
  (k <= Pipeline.results st !!! t)%Z
  /\ Banks.numbered bank_file t (Pipeline.results st !!! t)
       (Banks.bank t (Pipeline.files st)).
Proof.
  intros Hread Hglob Hin Hk Hd st. subst st. unfold Pipeline.run_pipeline.
  apply (PipelineMoves.run_themes_keeps bank_file file_number cfg
           (fun st => (k <= Pipeline.results st !!! t)%Z
                      /\ Banks.numbered bank_file t (Pipeline.results st !!! t)
                           (Banks.bank t (Pipeline.files st)))).
  - done.
  - intros target_theme cand st [Hle Hnum].
    destruct (BankFacts.assign_candidate_numbered bank_file file_number cfg t Hread Hglob
                target_theme cand st) as [_ Hnum']; [split; [lia | done]|].
    split; [|done].
    destruct (BankFacts.assign_candidate_bank bank_file file_number cfg t
                target_theme cand st) as [[-> _]|[-> _]]; lia.
  - assert (Pipeline.results (Pipeline.initial_state cfg fs) !!! t = k) as ->.
    { rewrite <- (BankFacts.numbered_count bank_file file_number t Hread k fs Hk Hd).
      apply lookup_total_correct.
      by apply (PipelineFacts.initial_lookup (fun t => Pipeline._count_in_bank t fs)). }
    split; [lia | done].
Qed.

Lemma banks_are_numbered_without_gaps_witness :
  let st := (Scenario.run Scenario.empty_session Scenario.crossing).1 in
  "Soft" ∈ Pipeline.theme_names Scenario.cfg
  /\ Banks.numbered Pipeline.Names.bank_file "Soft" 0 (Banks.bank "Soft" Scenario.empty_session)
  /\ Pipeline.results st !!! "Soft" = 3%Z
  /\ Banks.numbered Pipeline.Names.bank_file "Soft" (Pipeline.results st !!! "Soft")
       (Banks.bank "Soft" (Pipeline.files st)).
Proof.
  intros st.
  assert (Hin : "Soft" ∈ Pipeline.theme_names Scenario.cfg) by (by left).
  assert (Hd : Banks.numbered Pipeline.Names.bank_file "Soft" 0
                 (Banks.bank "Soft" Scenario.empty_session)).
  { intros name. split.
    - intros [H _]%BankFacts.elem_of_wavs.
      unfold Banks.bank, Scenario.empty_session in H. simpl in H.
      rewrite lookup_empty in H. by apply not_elem_of_empty in H.
    - intros (i & Hi & _). lia. }
  split; [exact Hin|]. split; [exact Hd|]. split; [vm_compute; reflexivity|].
  apply (banks_are_numbered_without_gaps Pipeline.Names.bank_file
           Pipeline.Names.file_number Scenario.cfg Scenario.empty_session
           Scenario.crossing "Soft" 0).
  - intros n Hn. apply NamesFacts.file_number_bank_file. lia.
  - apply NamesFacts.file_number_is_wav.
  - exact Hin.
  - lia.
  - exact Hd.
Defined.


(** ** Runs without scoring *)

Module FallbackFacts.
Import Pipeline.

Section Fallback.
Variable bank_file : string -> Z -> string.
Variable file_number : string -> string -> option Z.
Variable cfg : Config.
Hypothesis disabled : scoring_enabled cfg = false.

Lemma lands_in_target (target_theme : string) (cand : Candidate) :
  lands_in cfg target_theme cand = Some target_theme.
Proof. unfold lands_in, _assign_with_scoring. by rewrite disabled. Qed.

Lemma no_cross_when_disabled (t : string) (themes : list string) (envs : list ThemeEnv) :
  no_cross_into cfg t themes envs.
Proof.
  revert envs. induction themes as [|theme_name themes IH]; intros envs; [done|].
  destruct envs as [|env envs]; [done|]. split; [|apply IH].
  intros Hne b cand _ _. rewrite lands_in_target. by intros [= ->].
Qed.

(** Without scoring an assignment changes no retry counter, and no
    [results] counter but the target's. *)
Lemma assign_candidate_fallback (target_theme : string) (cand : Candidate) (st : State) :
  retries (assign_candidate bank_file file_number cfg target_theme cand st).1 = retries st
  /\ forall t, t <> target_theme ->
       results (assign_candidate bank_file file_number cfg target_theme cand st).1 !! t
       = results st !! t.
Proof.
  unfold assign_candidate, _assign_with_scoring. rewrite disabled.
  destruct (stop_requested cand); [done|].
  destruct (_move_to_theme _ _ _ _ _) as [fs [final|]]; simpl; [|done].
  rewrite bool_decide_eq_false_2 by (by intros []).
  split; [done|]. intros t Ht. by apply PipelineFacts.incr_other.
Qed.

End Fallback.

End FallbackFacts.


(** X17.  Runs without scoring.  When [scoring.is_enabled()] is false,
    whatever the environment answers: no retry counter is ever touched
    (each stays at its value of the start, 0 for a configured theme), and
    every configured theme whose bank holds at most [samples_per_bank]
    audio files at the start ends with a counter, and a number of audio
    files in its bank, of at most [samples_per_bank]. *)
Theorem without_scoring_banks_stay_within
    (bank_file : string -> Z -> string) (file_number : string -> string -> option Z)
    (cfg : Pipeline.Config) (fs : Pipeline.Files) (envs : list Pipeline.ThemeEnv) :
  Pipeline.scoring_enabled cfg = false ->
  let st := (Pipeline.run_pipeline bank_file file_number cfg fs envs).1 in
  Pipeline.retries st = Pipeline.retries (Pipeline.initial_state cfg fs)
  /\ (forall t, t ∈ Pipeline.theme_names cfg -> Pipeline.retries st !! t = Some 0%Z)
  /\ (forall t,
        t ∈ Pipeline.theme_names cfg ->
        (Pipeline._count_in_bank t fs <= Pipeline.samples_per_bank cfg)%Z ->
        (Pipeline.results st !!! t <= Pipeline.samples_per_bank cfg)%Z
        /\ (Pipeline._count_in_bank t (Pipeline.files st)
            <= Pipeline.samples_per_bank cfg)%Z).
Proof.
  intros Hoff st.
  assert (Hret : Pipeline.retries st = Pipeline.retries (Pipeline.initial_state cfg fs)).
  { subst st. unfold Pipeline.run_pipeline.
    apply (PipelineMoves.run_themes_keeps bank_file file_number cfg
             (fun st => Pipeline.retries st
                        = Pipeline.retries (Pipeline.initial_state cfg fs))).
    - done.
    - intros target_theme cand st' <-.
      by apply FallbackFacts.assign_candidate_fallback.
    - done. }
  split; [done|]. split.
  - intros t Hin. rewrite Hret.
    by apply (PipelineFacts.initial_lookup (fun _ => 0%Z)).
  - intros t Hin Hstart.
    assert (Hinit : Pipeline.within cfg t (Pipeline.initial_state cfg fs)).
    { unfold Pipeline.within.
      assert (Pipeline.results (Pipeline.initial_state cfg fs) !!! t
              = Pipeline._count_in_bank t fs) as ->.
      { apply lookup_total_correct.
        by apply (PipelineFacts.initial_lookup (fun t => Pipeline._count_in_bank t fs)). }
      simpl. lia. }
    destruct (PipelineFacts.run_themes_within bank_file file_number cfg t
                (Pipeline.theme_names cfg) envs (Pipeline.initial_state cfg fs)
                (FallbackFacts.no_cross_when_disabled cfg Hoff t _ envs) Hinit)
      as [Hres Hcnt].
    fold (Pipeline.run_pipeline bank_file file_number cfg fs envs) in Hres, Hcnt.
    subst st. split; lia.
Qed.

Lemma without_scoring_banks_stay_within_witness :
  let cfg := Pipeline.mkConfig ["Soft"; "Loud"] 2 0 32 false (3 # 10) in
  let st := (Pipeline.run_pipeline Pipeline.Names.bank_file Pipeline.Names.file_number
               cfg Scenario.empty_session Scenario.crossing).1 in
  Pipeline.scoring_enabled cfg = false
  /\ Pipeline.results st !!! "Soft" = 2%Z
  /\ Pipeline.results st !!! "Loud" = 1%Z
  /\ Pipeline.retries st !! "Loud" = Some 0%Z.
Proof.
  intros cfg st.
  destruct (without_scoring_banks_stay_within Pipeline.Names.bank_file
              Pipeline.Names.file_number cfg Scenario.empty_session Scenario.crossing
              eq_refl) as (_ & Hr & _).
  split; [reflexivity|]. split; [vm_compute; reflexivity|].
  split; [vm_compute; reflexivity|].
  apply Hr. right. by left.
Defined.


(** ** The queries of a theme *)

Module SearchesFacts.
Import Searches.

(** A list that repeats [base] whole: entry [i] is entry [i mod n] of
    [base]. *)
Local Abbreviation repeats := (fun (base l : list string) =>
  (exists m, List.length l = m * List.length base)%nat
  /\ forall i, (i < List.length l)%nat -> l !! i = base !! (i mod List.length base)%nat).




End SearchesFacts.





(** ** The assignments of a run *)

Module AssignmentsFacts.
Import Pipeline Assignments.

Section Logged.
Variable bank_file : string -> Z -> string.
Variable file_number : string -> string -> option Z.
Variable cfg : Config.

Local Abbreviation assign_candidate := (Pipeline.assign_candidate bank_file file_number cfg).
Local Abbreviation assign_all := (Pipeline.assign_all bank_file file_number cfg).
Local Abbreviation fill_theme := (Pipeline.fill_theme bank_file file_number cfg).
Local Abbreviation run_theme := (Pipeline.run_theme bank_file file_number cfg).
Local Abbreviation run_themes := (Pipeline.run_themes bank_file file_number cfg).
Local Abbreviation assign_all_logged :=
  (Assignments.assign_all_logged bank_file file_number cfg).
Local Abbreviation fill_theme_logged :=
  (Assignments.fill_theme_logged bank_file file_number cfg).
Local Abbreviation run_theme_logged :=
  (Assignments.run_theme_logged bank_file file_number cfg).
Local Abbreviation run_themes_logged :=
  (Assignments.run_themes_logged bank_file file_number cfg).

(** *** The logged run is the run *)

Lemma assign_all_logged_run (target_theme : string) (cands : list Candidate) (st : State) :
  (assign_all_logged target_theme cands st).1 = assign_all target_theme cands st.
Proof.
  revert st. induction cands as [|cand cands IH]; intros st; [done|].
  cbn [Assignments.assign_all_logged Pipeline.assign_all].
  destruct (assign_candidate target_theme cand st) as [st' []]; try done.
  specialize (IH st'). by destruct (assign_all_logged target_theme cands st').
Qed.

Lemma fill_theme_logged_run (target_theme : string) (n : Z) (bs : list Batch)
    (idx dl : Z) (st : State) :
  (fill_theme_logged target_theme n bs idx dl st).1 = fill_theme target_theme n bs idx dl st.
Proof.
  revert idx dl st. induction bs as [|b bs IH]; intros idx dl st.
  - simpl. by destruct (_ <=? _)%Z.
  - cbn [Assignments.fill_theme_logged Pipeline.fill_theme].
    destruct (_ <=? _)%Z; [done|]. destruct (stop_at_top b); [done|].
    destruct (negb _ && _); [done|].
    destruct (n <=? (if (n <=? idx)%Z then 0%Z else idx))%Z; [done|].
    destruct (max_per_search cfg <=? dl)%Z.
    all: destruct (downloaded b) as [|cand cands] eqn:Ed.
    all: try (destruct (n <=? _)%Z; [done | by apply IH]).
    all: match goal with
         | |- context [Assignments.assign_all_logged ?a ?b ?c ?d ?e ?f] =>
             pose proof (assign_all_logged_run d e f) as Hall;
             destruct (Assignments.assign_all_logged a b c d e f) as [[st' raised] log]
         end; cbn [fst] in Hall; rewrite <- Hall; destruct raised; try done.
    all: match goal with
         | |- context [Assignments.fill_theme_logged ?a ?b ?c ?d ?e ?f ?g ?h ?i] =>
             pose proof (IH g h i) as Hnext;
             destruct (Assignments.fill_theme_logged a b c d e f g h i) as [out log']
         end; done.
Qed.

Lemma run_theme_logged_run (theme_name : string) (env : ThemeEnv) (st : State) :
  (run_theme_logged theme_name env st).1 = run_theme theme_name env st.
Proof.
  unfold Assignments.run_theme_logged, Pipeline.run_theme.
  destruct (_ <=? _)%Z; [done|]. destruct (stop_at_theme env); [done|].
  apply fill_theme_logged_run.
Qed.

Lemma run_themes_logged_run (themes : list string) (envs : list ThemeEnv) (st : State) :
  (run_themes_logged themes envs st).1 = run_themes themes envs st.
Proof.
  revert envs st. induction themes as [|theme_name themes IH]; intros envs st; [done|].
  destruct envs as [|env envs]; [done|].
  cbn [Assignments.run_themes_logged Pipeline.run_themes].
  pose proof (run_theme_logged_run theme_name env st) as Hhere.
  destruct (run_theme_logged theme_name env st) as [[st' status] log].
  simpl in Hhere. rewrite <- Hhere. destruct status; try done.
  specialize (IH envs st'). by destruct (run_themes_logged themes envs st').
Qed.

(** *** The bound along a run whose cross-assignments find room *)

Variable t : string.

Local Abbreviation within := (Pipeline.within cfg t).
Local Abbreviation finds_room := (Assignments.finds_room cfg t).

Lemma assign_candidate_room (target_theme : string) (cand : Candidate) (st : State) :
  (target_theme = t -> (results st !!! t < samples_per_bank cfg)%Z) ->
  (stop_requested cand = false -> finds_room (mkEvent target_theme cand st)) ->
  within st ->
  within (assign_candidate target_theme cand st).1
  /\ ((assign_candidate target_theme cand st).2 = Continue ->
      target_theme = t ->
      (results (assign_candidate target_theme cand st).1 !!! t < samples_per_bank cfg)%Z).
Proof.
  intros Hguard Hroom [Hres Hcnt].
  unfold Assignments.finds_room, crosses_into, lands_in in Hroom. simpl in Hroom.
  unfold Pipeline.assign_candidate.
  destruct (stop_requested cand); [done|]. specialize (Hroom eq_refl).
  destruct (_assign_with_scoring _ _ _ _ _) as [[best|] score]; simpl in *.
  2:{ split; [done | auto]. }
  pose proof (PipelineFacts.count_after_move bank_file file_number t
                (cand_path cand) best (files st)) as [Hmv1 Hmv2].
  destruct (_move_to_theme bank_file file_number (cand_path cand) best (files st))
    as [fs [final|]]; simpl in *.
  2:{ unfold Pipeline.within; simpl. split; [lia | done]. }
  unfold Pipeline.within. simpl. rewrite PipelineFacts.count_after_metadata.
  destruct (decide (best = t)) as [->|Hne].
  - rewrite PipelineFacts.incr_same.
    assert (Hbelow : (results st !!! t < samples_per_bank cfg)%Z).
    { destruct (decide (target_theme = t)) as [Heq|Hother]; [by apply Hguard|].
      by apply Hroom. }
    split; [split; lia|].
    intros Hc ->. rewrite PipelineFacts.incr_same in Hc.
    destruct (Z.leb_spec (samples_per_bank cfg) (results st !!! t + 1)); [done | lia].
  - rewrite PipelineFacts.incr_other_total by done. rewrite Hmv1 by done.
    split; [done|]. intros Hc ->. rewrite PipelineFacts.incr_other_total in Hc by done.
    destruct (Z.leb_spec (samples_per_bank cfg) (results st !!! t)); [done | lia].
Qed.

Lemma assign_all_room (target_theme : string) (cands : list Candidate) (st : State) :
  (target_theme = t -> (results st !!! t < samples_per_bank cfg)%Z) ->
  Forall finds_room (assign_all_logged target_theme cands st).2 ->
  within st ->
  within (assign_all_logged target_theme cands st).1.1.
Proof.
  revert st. induction cands as [|cand cands IH]; intros st Hguard Hlog Hin; [done|].
  cbn [Assignments.assign_all_logged] in *.
  assert (Hhere : stop_requested cand = false -> finds_room (mkEvent target_theme cand st)).
  { intros Hs. rewrite Hs in Hlog.
    destruct (assign_candidate target_theme cand st) as [st' []];
      [destruct (assign_all_logged target_theme cands st')| |];
      by apply Forall_cons in Hlog as [? _]. }
  destruct (assign_candidate_room target_theme cand st Hguard Hhere Hin) as [Hin' Hnext].
  destruct (assign_candidate target_theme cand st) as [st' []]; simpl in *; try done.
  specialize (IH st').
  destruct (assign_all_logged target_theme cands st') as [out log]. simpl in *.
  apply IH; [auto | | done].
  apply Forall_app in Hlog. by destruct Hlog.
Qed.

Lemma fill_theme_room (target_theme : string) (n : Z) (bs : list Batch)
    (idx dl : Z) (st : State) :
  Forall finds_room (fill_theme_logged target_theme n bs idx dl st).2 ->
  within st ->
  within (fill_theme_logged target_theme n bs idx dl st).1.1.
Proof.
  revert idx dl st. induction bs as [|b bs IH]; intros idx dl st Hlog Hin.
  - simpl. by destruct (_ <=? _)%Z.
  - cbn [Assignments.fill_theme_logged] in *.
    destruct (Z.leb_spec (samples_per_bank cfg) (results st !!! target_theme))
      as [|Hguard]; [done|].
    destruct (stop_at_top b); [done|].
    destruct (negb _ && _); [done|].
    destruct (n <=? (if (n <=? idx)%Z then 0%Z else idx))%Z; [done|].
    pose proof (PipelineFacts.within_arrived cfg t st
                  (list_to_set (cand_path <$> downloaded b)) Hin) as Harr.
    destruct (max_per_search cfg <=? dl)%Z.
    all: destruct (downloaded b) as [|cand cands] eqn:Ed.
    all: try (destruct (n <=? _)%Z; [done | by apply IH]).
    all: match goal with
         | |- context [Assignments.assign_all_logged ?a ?b ?c ?d ?e ?f] =>
             pose proof (assign_all_room d e f) as Hall;
             destruct (Assignments.assign_all_logged a b c d e f) as [[st' raised] log]
         end; simpl in Hall.
    all: destruct raised;
      [simpl in *; apply Hall; [by intros -> | done | done]|].
    all: match goal with
         | H : context [Assignments.fill_theme_logged ?a ?b ?c ?d ?e ?f ?g ?h ?i] |- _ =>
             pose proof (IH g h i) as Hnext;
             destruct (Assignments.fill_theme_logged a b c d e f g h i) as [out log']
         end; simpl in *.
    all: apply Forall_app in Hlog as [Hlog1 Hlog2].
    all: apply Hnext; [done|]; apply Hall; [by intros -> | done | done].
Qed.

Lemma run_themes_room (themes : list string) (envs : list ThemeEnv) (st : State) :
  Forall finds_room (run_themes_logged themes envs st).2 ->
  within st ->
  within (run_themes_logged themes envs st).1.1.
Proof.
  revert envs st. induction themes as [|theme_name themes IH]; intros envs st Hlog Hin;
    [done|].
  destruct envs as [|env envs]; [done|]. cbn [Assignments.run_themes_logged] in *.
  assert (Hhere : Forall finds_room (run_theme_logged theme_name env st).2 ->
                  within (run_theme_logged theme_name env st).1.1).
  { unfold Assignments.run_theme_logged.
    destruct (_ <=? _)%Z; [done|]. destruct (stop_at_theme env); [done|].
    intros H. by apply fill_theme_room. }
  destruct (run_theme_logged theme_name env st) as [[st' status] log]. simpl in *.
  destruct status; simpl in *; try (by apply Hhere).
  specialize (IH envs st').
  destruct (run_themes_logged themes envs st') as [out log']. simpl in *.
  apply Forall_app in Hlog as [Hlog1 Hlog2]. apply IH; [done|]. by apply Hhere.
Qed.

(** *** A cross-assignment that is carried out stays counted *)

Local Abbreviation crosses_into := (Assignments.crosses_into cfg t).

Lemma assign_candidate_grows (target_theme : string) (cand : Candidate) (st : State) (k : Z) :
  (k <= results st !!! t)%Z -> (k <= results (assign_candidate target_theme cand st).1 !!! t)%Z.
Proof.
  intros H.
  destruct (BankFacts.assign_candidate_bank bank_file file_number cfg t target_theme cand st)
    as [[-> _]|[-> _]]; lia.
Qed.

Lemma assign_all_grows (target_theme : string) (cands : list Candidate) (st : State) :
  (results st !!! t <= results (assign_all_logged target_theme cands st).1.1 !!! t)%Z.
Proof.
  rewrite assign_all_logged_run.
  apply (PipelineMoves.assign_all_keeps bank_file file_number cfg
           (fun s => (results st !!! t <= results s !!! t)%Z)); [|done].
  intros target cand s. apply assign_candidate_grows.
Qed.

Lemma fill_theme_grows (target_theme : string) (n : Z) (bs : list Batch)
    (idx dl : Z) (st : State) :
  (results st !!! t <= results (fill_theme_logged target_theme n bs idx dl st).1.1 !!! t)%Z.
Proof.
  rewrite fill_theme_logged_run.
  apply (PipelineMoves.fill_theme_keeps bank_file file_number cfg
           (fun s => (results st !!! t <= results s !!! t)%Z)); [done| |done].
  intros target cand s. apply assign_candidate_grows.
Qed.

Lemma run_themes_grows (themes : list string) (envs : list ThemeEnv) (st : State) :
  (results st !!! t <= results (run_themes_logged themes envs st).1.1 !!! t)%Z.
Proof.
  rewrite run_themes_logged_run.
  apply (PipelineMoves.run_themes_keeps bank_file file_number cfg
           (fun s => (results st !!! t <= results s !!! t)%Z)); [done| |done].
  intros target cand s. apply assign_candidate_grows.
Qed.

Lemma assign_candidate_crossed (target_theme : string) (cand : Candidate) (st : State) :
  stop_requested cand = false ->
  crosses_into (mkEvent target_theme cand st) ->
  cand_path cand ∈ candidates (files st) ->
  results (assign_candidate target_theme cand st).1 !!! t = (results st !!! t + 1)%Z.
Proof.
  intros Hstop [_ Hland] Hpath. unfold lands_in in Hland. simpl in Hland.
  unfold Pipeline.assign_candidate, _move_to_theme. rewrite Hstop.
  destruct (_assign_with_scoring _ _ _ _ _) as [best score]. simpl in Hland. subst best.
  rewrite bool_decide_eq_true_2 by done. simpl. apply PipelineFacts.incr_same.
Qed.

(** What an assignment noted in the log has done is still counted at the
    end of the loop. *)
Local Abbreviation counted := (fun (e : Event) (st : State) =>
  crosses_into e -> cand_path (slice e) ∈ candidates (files (found e)) ->
  (results (found e) !!! t + 1 <= results st !!! t)%Z).

Lemma assign_all_counted (target_theme : string) (cands : list Candidate) (st : State)
    (e : Event) :
  e ∈ (assign_all_logged target_theme cands st).2 ->
  counted e (assign_all_logged target_theme cands st).1.1.
Proof.
  revert st. induction cands as [|cand cands IH]; intros st; [by intros ?%elem_of_nil|].
  cbn [Assignments.assign_all_logged].
  pose proof (assign_candidate_crossed target_theme cand st) as Hstep.
  destruct (assign_candidate target_theme cand st) as [st' ctl]. simpl in Hstep.
  assert (Hnoted : e ∈ (if stop_requested cand then []
                        else [mkEvent target_theme cand st]) ->
                   crosses_into e -> cand_path (slice e) ∈ candidates (files (found e)) ->
                   (results (found e) !!! t + 1 <= results st' !!! t)%Z).
  { destruct (stop_requested cand); [by intros ?%elem_of_nil|].
    intros ->%list_elem_of_singleton Hc Hp. simpl in *. rewrite Hstep by done. lia. }
  destruct ctl; simpl; try (intros Hin Hc Hp; by apply Hnoted).
  pose proof (assign_all_grows target_theme cands st') as Hgrow. specialize (IH st').
  destruct (assign_all_logged target_theme cands st') as [out log]. simpl in *.
  intros [Hin|Hin]%elem_of_app Hc Hp; [|by apply IH].
  specialize (Hnoted Hin Hc Hp). lia.
Qed.

Lemma fill_theme_counted (target_theme : string) (n : Z) (bs : list Batch)
    (idx dl : Z) (st : State) (e : Event) :
  e ∈ (fill_theme_logged target_theme n bs idx dl st).2 ->
  counted e (fill_theme_logged target_theme n bs idx dl st).1.1.
Proof.
  revert idx dl st. induction bs as [|b bs IH]; intros idx dl st.
  - simpl. destruct (_ <=? _)%Z; by intros ?%elem_of_nil.
  - cbn [Assignments.fill_theme_logged].
    destruct (_ <=? _)%Z; [by intros ?%elem_of_nil|].
    destruct (stop_at_top b); [by intros ?%elem_of_nil|].
    destruct (negb _ && _); [by intros ?%elem_of_nil|].
    destruct (n <=? (if (n <=? idx)%Z then 0%Z else idx))%Z; [by intros ?%elem_of_nil|].
    destruct (max_per_search cfg <=? dl)%Z.
    all: destruct (downloaded b) as [|cand cands] eqn:Ed.
    all: try (destruct (n <=? _)%Z; [by intros ?%elem_of_nil | by apply IH]).
    all: match goal with
         | |- context [Assignments.assign_all_logged ?a ?b ?c ?d ?e ?f] =>
             pose proof (assign_all_counted d e f) as Hall;
             destruct (Assignments.assign_all_logged a b c d e f) as [[st' raised] log]
         end; cbn [fst snd] in Hall.
    all: destruct raised; [exact (Hall e)|].
    all: match goal with
         | |- context [Assignments.fill_theme_logged ?a ?b ?c ?d ?e ?f ?g ?h ?i] =>
             pose proof (IH g h i) as Hnext;
             pose proof (fill_theme_grows d e f g h i) as Hgrow;
             destruct (Assignments.fill_theme_logged a b c d e f g h i) as [out log']
         end; cbn [fst snd] in *.
    all: intros [Hin|Hin]%elem_of_app Hc Hp; [|by apply Hnext].
    all: specialize (Hall e Hin Hc Hp); lia.
Qed.

Lemma run_themes_counted (themes : list string) (envs : list ThemeEnv) (st : State)
    (e : Event) :
  e ∈ (run_themes_logged themes envs st).2 ->
  counted e (run_themes_logged themes envs st).1.1.
Proof.
  revert envs st. induction themes as [|theme_name themes IH]; intros envs st;
    [by intros ?%elem_of_nil|].
  destruct envs as [|env envs]; [by intros ?%elem_of_nil|].
  cbn [Assignments.run_themes_logged].
  assert (Hhere : e ∈ (run_theme_logged theme_name env st).2 ->
                  counted e (run_theme_logged theme_name env st).1.1).
  { unfold Assignments.run_theme_logged.
    destruct (_ <=? _)%Z; [by intros ?%elem_of_nil|].
    destruct (stop_at_theme env); [by intros ?%elem_of_nil|].
    apply fill_theme_counted. }
  destruct (run_theme_logged theme_name env st) as [[st' status] log]. cbn [fst snd] in *.
  destruct status; try exact Hhere.
  pose proof (run_themes_grows themes envs st') as Hgrow. specialize (IH envs st').
  destruct (run_themes_logged themes envs st') as [out log']. cbn [fst snd] in *.
  intros [Hin|Hin]%elem_of_app Hc Hp; [|by apply IH].
  specialize (Hhere Hin Hc Hp). lia.
Qed.

End Logged.

End AssignmentsFacts.


(** ** Counting on resume, and the turn of a full theme *)

Module ResumeFacts.
Import Pipeline.

Lemma ends_with_spec (suffix s : string) :
  Str.ends_with suffix s = true <-> exists p, s = p +:+ suffix.
Proof.
  split.
  - induction s as [|c s IH]; cbn [Str.ends_with].
    + destruct (String.eqb_spec suffix "") as [->|]; [|done]. by exists "".
    + destruct (String.eqb_spec suffix (String c s)) as [->|]; [by exists ""|].
      intros [p ->]%IH. by exists (String c p).
  - intros [p ->]. induction p as [|c p IH].
    + rewrite StrFacts.app_nil. destruct suffix; simpl; [done|].
      by rewrite Ascii.eqb_refl, String.eqb_refl.
    + rewrite StrFacts.app_cons. cbn [Str.ends_with]. rewrite IH.
      by destruct (String.eqb _ _).
Qed.

(** What the glob ["*.wav"] selects: the names that end in [".wav"]. *)
Lemma is_wav_spec (name : string) :
  is_wav name = true <-> exists s, name = s +:+ ".wav".
Proof. apply ends_with_spec. Qed.

Section Turns.
Variable bank_file : string -> Z -> string.
Variable file_number : string -> string -> option Z.
Variable cfg : Config.

Local Abbreviation run_theme := (Pipeline.run_theme bank_file file_number cfg).
Local Abbreviation run_themes := (Pipeline.run_themes bank_file file_number cfg).

(** The themes after a first part of the list take their turn when every
    theme of the first part has completed its own. *)
Lemma run_themes_app (pre post : list string) (epre epost : list ThemeEnv) (st : State) :
  length epre = length pre ->
  run_themes (pre ++ post) (epre ++ epost) st
  = match run_themes pre epre st with
    | (st1, Completed) => run_themes post epost st1
    | other => other
    end.
Proof.
  revert epre st. induction pre as [|theme_name pre IH]; intros epre st Hlen.
  - by destruct epre.
  - destruct epre as [|env epre]; [done|]. simpl in Hlen.
    cbn [app Pipeline.run_themes].
    destruct (run_theme theme_name env st) as [st' []]; try done.
    apply IH. lia.
Qed.

(** No counter goes down along a run. *)
Lemma counters_never_go_down (t : string) (themes : list string) (envs : list ThemeEnv)
    (st : State) :
  (results st !!! t <= results (run_themes themes envs st).1 !!! t)%Z.
Proof.
  apply (PipelineMoves.run_themes_keeps bank_file file_number cfg
           (fun s => (results st !!! t <= results s !!! t)%Z)); [done| |done].
  intros target cand s H.
  destruct (BankFacts.assign_candidate_bank bank_file file_number cfg t target cand s)
    as [[-> _]|[-> _]]; lia.
Qed.

End Turns.

End ResumeFacts.



(** C2, amended.  Take a configured theme whose bank holds at most
    [samples_per_bank] audio files when the run starts, and follow the
    assignments [run_pipeline] makes, each with the counters it finds.  If
    every slice cross-assigned into the theme (fetched for another theme,
    landing in this one) finds the theme's counter below [samples_per_bank],
    then at the end of what has run the theme's [filled] counter does not
    exceed [samples_per_bank], and neither does the number of audio files in
    its bank; slices cross-assigned into a bank that still has room are
    covered.  The condition cannot be dropped: a slice cross-assigned into
    the theme that finds its counter at [samples_per_bank] or above, and
    whose file is moved, leaves the counter above [samples_per_bank] to the
    end of the run.  (The log is that of the run: the logged run ends in the
    state and status of [run_pipeline].) *)
Theorem bank_capacity_while_cross_assignments_find_room
    (bank_file : string -> Z -> string) (file_number : string -> string -> option Z)
    (cfg : Pipeline.Config) (fs : Pipeline.Files) (envs : list Pipeline.ThemeEnv)
    (t : string) :
  t ∈ Pipeline.theme_names cfg ->
  (Pipeline._count_in_bank t fs <= Pipeline.samples_per_bank cfg)%Z ->
  let st := (Pipeline.run_pipeline bank_file file_number cfg fs envs).1 in
  let log := Assignments.assignments bank_file file_number cfg fs envs in
  (Assignments.run_themes_logged bank_file file_number cfg (Pipeline.theme_names cfg)
     envs (Pipeline.initial_state cfg fs)).1
  = Pipeline.run_pipeline bank_file file_number cfg fs envs
  /\ (Forall (Assignments.finds_room cfg t) log ->
      (Pipeline.results st !!! t <= Pipeline.samples_per_bank cfg)%Z
      /\ (Pipeline._count_in_bank t (Pipeline.files st)
          <= Pipeline.samples_per_bank cfg)%Z)
  /\ (forall e,
        e ∈ log ->
        Assignments.crosses_into cfg t e ->
        (Pipeline.samples_per_bank cfg
         <= Pipeline.results (Assignments.found e) !!! t)%Z ->
        Pipeline.cand_path (Assignments.slice e)
          ∈ Pipeline.candidates (Pipeline.files (Assignments.found e)) ->
        (Pipeline.samples_per_bank cfg < Pipeline.results st !!! t)%Z).
Proof.
  intros Hin Hstart st log.
  pose proof (AssignmentsFacts.run_themes_logged_run bank_file file_number cfg
                (Pipeline.theme_names cfg) envs (Pipeline.initial_state cfg fs)) as Hrun.
  fold (Pipeline.run_pipeline bank_file file_number cfg fs envs) in Hrun.
  split; [exact Hrun|]. split.
  - intros Hlog.
    assert (Hinit : Pipeline.within cfg t (Pipeline.initial_state cfg fs)).
    { unfold Pipeline.within.
      assert (Pipeline.results (Pipeline.initial_state cfg fs) !!! t
              = Pipeline._count_in_bank t fs) as ->.
      { apply lookup_total_correct.
        by apply (PipelineFacts.initial_lookup (fun t => Pipeline._count_in_bank t fs)). }
      simpl. lia. }
    destruct (AssignmentsFacts.run_themes_room bank_file file_number cfg t
                (Pipeline.theme_names cfg) envs (Pipeline.initial_state cfg fs)
                Hlog Hinit) as [Hres Hcnt].
    rewrite Hrun in Hres, Hcnt. subst st. split; lia.
  - intros e He Hcross Hfull Hpath.
    pose proof (AssignmentsFacts.run_themes_counted bank_file file_number cfg t
                  (Pipeline.theme_names cfg) envs (Pipeline.initial_state cfg fs)
                  e He Hcross Hpath) as Hcounted.
    rewrite Hrun in Hcounted. subst st. lia.
Qed.

Lemma bank_capacity_while_cross_assignments_find_room_witness :
  let envs :=
    [ Pipeline.mkThemeEnv 1 false
        [Pipeline.mkBatch false [Scenario.scored "a_s1.wav" "Soft" (6 # 10)];
         Pipeline.mkBatch false []];
      Pipeline.mkThemeEnv 1 false
        [Pipeline.mkBatch false [Scenario.scored "c_s1.wav" "Soft" (5 # 10)]] ] in
  let st := (Scenario.run Scenario.empty_session envs).1 in
  let log := Assignments.assignments Pipeline.Names.bank_file Pipeline.Names.file_number
               Scenario.cfg Scenario.empty_session envs in
  "Soft" ∈ Pipeline.theme_names Scenario.cfg
  /\ (Pipeline._count_in_bank "Soft" Scenario.empty_session
      <= Pipeline.samples_per_bank Scenario.cfg)%Z
  /\ Forall (Assignments.finds_room Scenario.cfg "Soft") log
  /\ (exists e, e ∈ log /\ Assignments.crosses_into Scenario.cfg "Soft" e)
  /\ Pipeline.results st !!! "Soft" = 2%Z
  /\ Pipeline.retries st !!! "Loud" = 1%Z
  /\ (Pipeline.results st !!! "Soft" <= Pipeline.samples_per_bank Scenario.cfg)%Z
  /\ (Pipeline._count_in_bank "Soft" (Pipeline.files st)
      <= Pipeline.samples_per_bank Scenario.cfg)%Z
  /\ (exists e,
        e ∈ Assignments.assignments Pipeline.Names.bank_file Pipeline.Names.file_number
              Scenario.cfg Scenario.empty_session Scenario.crossing
        /\ Assignments.crosses_into Scenario.cfg "Soft" e
        /\ (Pipeline.samples_per_bank Scenario.cfg
            <= Pipeline.results (Assignments.found e) !!! "Soft")%Z
        /\ (Pipeline.samples_per_bank Scenario.cfg
            < Pipeline.results
                (Scenario.run Scenario.empty_session Scenario.crossing).1 !!! "Soft")%Z).
Proof.
  intros envs st log.
  assert (Hin : "Soft" ∈ Pipeline.theme_names Scenario.cfg) by (by left).
  assert (Hstart : (Pipeline._count_in_bank "Soft" Scenario.empty_session
                    <= Pipeline.samples_per_bank Scenario.cfg)%Z)
    by (by vm_compute).
  assert (Hlog : Forall (Assignments.finds_room Scenario.cfg "Soft") log).
  { apply Forall_forall. intros e He.
    apply list_elem_of_In in He. vm_compute in He.
    destruct He as [<-|[<-|[]]]; intros [Hne Hland].
    - by destruct Hne.
    - by vm_compute. }
  assert (Hcross : exists e, e ∈ log /\ Assignments.crosses_into Scenario.cfg "Soft" e).
  { exists (Assignments.mkEvent "Loud" (Scenario.scored "c_s1.wav" "Soft" (5 # 10))
              (Pipeline.mkState
                 (Pipeline.results
                    (Scenario.run Scenario.empty_session
                       [Pipeline.mkThemeEnv 1 false
                          [Pipeline.mkBatch false
                             [Scenario.scored "a_s1.wav" "Soft" (6 # 10)];
                           Pipeline.mkBatch false []]]).1)
                 (Pipeline.retries (Pipeline.initial_state Scenario.cfg
                                      Scenario.empty_session))
                 (Pipeline.mkFiles {[ "Soft" := {[ "Soft_01.wav" ]} ]}
                    {[ "c_s1.wav" ]}))).
    split; [|split; [by vm_compute | by vm_compute]].
    apply list_elem_of_In. vm_compute. right. left. reflexivity. }
  split; [exact Hin|]. split; [exact Hstart|]. split; [exact Hlog|].
  split; [exact Hcross|]. split; [vm_compute; reflexivity|].
  split; [vm_compute; reflexivity|].
  destruct (proj1 (proj2 (bank_capacity_while_cross_assignments_find_room
                            Pipeline.Names.bank_file Pipeline.Names.file_number
                            Scenario.cfg Scenario.empty_session envs "Soft" Hin Hstart))
              Hlog) as [Hres Hcnt].
  split; [exact Hres|]. split; [exact Hcnt|].
  set (e := Assignments.mkEvent "Loud" (Scenario.scored "c_s1.wav" "Soft" (5 # 10))
              (Pipeline.mkState
                 (Pipeline.results
                    (Scenario.run Scenario.empty_session
                       [Pipeline.mkThemeEnv 2 false
                          [Pipeline.mkBatch false
                             [Scenario.scored "a_s1.wav" "Soft" (6 # 10);
                              Scenario.scored "b_s1.wav" "Soft" (7 # 10)]]]).1)
                 (Pipeline.retries (Pipeline.initial_state Scenario.cfg
                                      Scenario.empty_session))
                 (Pipeline.mkFiles {[ "Soft" := {[ "Soft_01.wav"; "Soft_02.wav" ]} ]}
                    {[ "c_s1.wav" ]}))).
  assert (He : e ∈ Assignments.assignments Pipeline.Names.bank_file
                     Pipeline.Names.file_number Scenario.cfg Scenario.empty_session
                     Scenario.crossing).
  { apply list_elem_of_In. vm_compute. right. right. left. reflexivity. }
  assert (Hc : Assignments.crosses_into Scenario.cfg "Soft" e)
    by (split; by vm_compute).
  assert (Hfull : (Pipeline.samples_per_bank Scenario.cfg
                   <= Pipeline.results (Assignments.found e) !!! "Soft")%Z)
    by (by vm_compute).
  assert (Hpath : Pipeline.cand_path (Assignments.slice e)
                    ∈ Pipeline.candidates (Pipeline.files (Assignments.found e)))
    by (apply (bool_decide_unpack _); vm_compute; exact I).
  exists e. split; [exact He|]. split; [exact Hc|]. split; [exact Hfull|].
  exact (proj2 (proj2 (bank_capacity_while_cross_assignments_find_room
                         Pipeline.Names.bank_file Pipeline.Names.file_number Scenario.cfg
                         Scenario.empty_session Scenario.crossing "Soft" Hin Hstart))
           e He Hc Hfull Hpath).
Defined.

(** C7.  The counters at the start of a run, fresh or resumed, for a
    configured theme [t] and the directories [fs] the run finds.

    - The [filled] counter of [t] starts at [_count_in_bank t fs], which is
      the number of names in the bank of [t] that end in [".wav"] (none when
      the directory is missing): sidecars, the HTML index and any other file
      are not counted.
    - On resume, [fs] is what a run that was stopped has left: whatever that
      run did, the counter starts at the count of the files it left; and
      where the names of the bank are generated one-to-one from numbers and
      end in [".wav"], that is the very counter the stopped run had reached.
    - A theme whose count meets the target at the start is skipped when its
      turn comes, whatever the themes before it have done in the meantime
      (they may have added files to its bank): its turn leaves the state as
      it is and uses nothing of the environment, and the run goes on with
      the themes after it. *)
Theorem counters_come_from_disk
    (bank_file : string -> Z -> string) (file_number : string -> string -> option Z)
    (cfg : Pipeline.Config) (fs : Pipeline.Files) (t : string) :
  t ∈ Pipeline.theme_names cfg ->
  (Pipeline.results (Pipeline.initial_state cfg fs) !! t
     = Some (Pipeline._count_in_bank t fs)
   /\ exists W : gset string,
        (forall name,
           name ∈ W
           <-> name ∈ default ∅ (Pipeline.banks fs !! t)
               /\ exists s, name = s +:+ ".wav")
        /\ Pipeline._count_in_bank t fs = Z.of_nat (size W))
  /\ (forall (fs0 : Pipeline.Files) (envs0 : list Pipeline.ThemeEnv),
        let prev := (Pipeline.run_pipeline bank_file file_number cfg fs0 envs0).1 in
        Pipeline.results (Pipeline.initial_state cfg (Pipeline.files prev)) !! t
        = Some (Pipeline._count_in_bank t (Pipeline.files prev))
        /\ ((forall a b, bank_file t a = bank_file t b -> a = b) ->
            (forall n, Pipeline.is_wav (bank_file t n) = true) ->
            Pipeline.results (Pipeline.initial_state cfg (Pipeline.files prev)) !! t
            = Some (Pipeline.results prev !!! t)))
  /\ (forall (pre post : list string) (epre epost : list Pipeline.ThemeEnv)
             (env : Pipeline.ThemeEnv) (st1 : Pipeline.State),
        Pipeline.theme_names cfg = (pre ++ t :: post)%list ->
        length epre = length pre ->
        (Pipeline.samples_per_bank cfg <= Pipeline._count_in_bank t fs)%Z ->
        Pipeline.run_themes bank_file file_number cfg pre epre
          (Pipeline.initial_state cfg fs) = (st1, Pipeline.Completed) ->
        Pipeline.run_theme bank_file file_number cfg t env st1
        = (st1, Pipeline.Completed)
        /\ Pipeline.run_pipeline bank_file file_number cfg fs
             (epre ++ env :: epost)%list
           = Pipeline.run_themes bank_file file_number cfg post epost st1).
Proof.
  intros Hin.
  assert (Hstart : forall fs', Pipeline.results (Pipeline.initial_state cfg fs') !! t
                               = Some (Pipeline._count_in_bank t fs')).
  { intros fs'.
    by apply (PipelineFacts.initial_lookup (fun t => Pipeline._count_in_bank t fs')). }
  split; [split; [apply Hstart|]|split].
  - exists (Banks.wavs (default ∅ (Pipeline.banks fs !! t))). split.
    + intros name. rewrite BankFacts.elem_of_wavs, ResumeFacts.is_wav_spec. done.
    + apply BankFacts.count_wavs.
  - intros fs0 envs0 prev. split; [apply Hstart|].
    intros Hinj Hwav. rewrite Hstart. f_equal. symmetry. subst prev.
    unfold Pipeline.run_pipeline.
    apply (PipelineMoves.run_themes_keeps bank_file file_number cfg
             (fun st => Pipeline.results st !!! t
                        = Pipeline._count_in_bank t (Pipeline.files st))).
    + done.
    + intros target_theme cand st. by apply BankFacts.assign_candidate_counts.
    + apply lookup_total_correct. apply Hstart.
  - intros pre post epre epost env st1 Hnames Hlen Hfull Hpre.
    assert (Hskip : Pipeline.run_theme bank_file file_number cfg t env st1
                    = (st1, Pipeline.Completed)).
    { unfold Pipeline.run_theme.
      pose proof (ResumeFacts.counters_never_go_down bank_file file_number cfg t pre epre
                    (Pipeline.initial_state cfg fs)) as Hgrow.
      rewrite Hpre in Hgrow. simpl in Hgrow.
      rewrite (lookup_total_correct _ _ _ (Hstart fs)) in Hgrow.
      by rewrite (proj2 (Z.leb_le _ _)) by lia. }
    split; [exact Hskip|].
    unfold Pipeline.run_pipeline. rewrite Hnames.
    rewrite (ResumeFacts.run_themes_app bank_file file_number cfg pre (t :: post)
               epre (env :: epost)) by done.
    rewrite Hpre. cbn [Pipeline.run_themes]. by rewrite Hskip.
Qed.

Lemma counters_come_from_disk_witness :
  let fs := Pipeline.mkFiles
              {[ "Loud" := {[ "Loud_01.wav"; "Loud_02.wav"; "Loud_01.json";
                              "index.html" ]} ]} ∅ in
  let soft_turn :=
    Pipeline.mkThemeEnv 1 false
      [Pipeline.mkBatch false [Scenario.scored "a_s1.wav" "Soft" (6 # 10);
                               Scenario.scored "b_s1.wav" "Loud" (7 # 10)];
       Pipeline.mkBatch false []] in
  let loud_turn :=
    Pipeline.mkThemeEnv 2 false
      [Pipeline.mkBatch false [Scenario.scored "c_s1.wav" "Loud" (5 # 10)]] in
  let st1 := (Pipeline.run_themes BankNames.bank_file Pipeline.Names.file_number
                Scenario.cfg ["Soft"] [soft_turn]
                (Pipeline.initial_state Scenario.cfg fs)).1 in
  "Loud" ∈ Pipeline.theme_names Scenario.cfg
  /\ Pipeline._count_in_bank "Loud" fs = 2%Z
  /\ Pipeline.results (Pipeline.initial_state Scenario.cfg fs) !! "Loud" = Some 2%Z
  /\ Pipeline.results st1 !!! "Loud" = 3%Z
  /\ Pipeline.run_theme BankNames.bank_file Pipeline.Names.file_number Scenario.cfg
       "Loud" loud_turn st1 = (st1, Pipeline.Completed)
  /\ Pipeline.results (Pipeline.initial_state Scenario.cfg (Pipeline.files st1)) !! "Loud"
     = Some (Pipeline.results st1 !!! "Loud").
Proof.
  intros fs soft_turn loud_turn st1.
  assert (Hin : "Loud" ∈ Pipeline.theme_names Scenario.cfg) by (right; by left).
  destruct (counters_come_from_disk BankNames.bank_file Pipeline.Names.file_number
              Scenario.cfg fs "Loud" Hin) as ([Hres _] & Hresume & Hskip).
  assert (Hcount : Pipeline._count_in_bank "Loud" fs = 2%Z) by (vm_compute; reflexivity).
  split; [exact Hin|]. split; [exact Hcount|].
  split; [rewrite Hres; by rewrite Hcount|].
  split; [vm_compute; reflexivity|]. split.
  - apply (Hskip ["Soft"] [] [soft_turn] [] loud_turn st1).
    + reflexivity.
    + reflexivity.
    + rewrite Hcount. by vm_compute.
    + vm_compute. reflexivity.
  - apply (proj2 (Hresume fs [soft_turn])).
    + apply NamesFacts.bank_file_all_inj.
    + apply NamesFacts.bank_file_all_is_wav.
Defined.
